(** * Brazilian soccer knowledge graph: loader upserts and analytic queries

    The program keeps its data in a Neo4j property graph.  The writers
    ([data_loader.py], [kaggle_loader.py]) are Cypher [MERGE ... SET ...]
    statements, the readers ([server.py]) are Cypher [MATCH ... RETURN ...]
    statements followed by a little Python.  This development embeds both:
    the store is a list of nodes and a list of relationships, a Cypher
    pattern is a comprehension over them, and the Python that follows a
    query is transcribed on the rows the query returns. *)

From Stdlib Require Import ZArith List String Ascii Lia Permutation Sorted.
From Stdlib Require Import DecimalString.
From stdpp Require Import gmap strings list fin_maps.

Local Open Scope string_scope.
Local Open Scope Z_scope.

(** ** Values stored in properties and returned in rows *)

(** A calendar date: Python's [datetime.date] on the loader side, Cypher's
    [date()] on the query side. *)
Record date := mkdate { year : Z; month : Z; day : Z }.

#[global] Instance date_eq_dec : EqDecision date.
Proof. solve_decision. Defined.

Definition date_compare (a b : date) : comparison :=
  match year a ?= year b with
  | Eq => match month a ?= month b with
          | Eq => day a ?= day b
          | c => c
          end
  | c => c
  end.

(** The property values this program writes and reads: [None]/null, Python
    [int], Python [str], and the temporal value that Cypher's [date()]
    yields. *)
Inductive value :=
| VNull
| VInt (n : Z)
| VStr (s : string)
| VDate (d : date).

#[global] Instance value_eq_dec : EqDecision value.
Proof. solve_decision. Defined.

Definition is_null (v : value) : bool :=
  match v with VNull => true | _ => false end.

(** Python truthiness of a value read from a row ([x or y], [if x:]). *)
Definition truthy (v : value) : bool :=
  match v with
  | VNull => false
  | VInt n => negb (n =? 0)
  | VStr s => negb (String.eqb s "")
  | VDate _ => true
  end.

(** *** Cypher's three-valued logic: [None] is null *)

Definition cy_or (a b : option bool) : option bool :=
  match a, b with
  | Some true, _ | _, Some true => Some true
  | Some false, Some false => Some false
  | _, _ => None
  end.

Definition cy_and (a b : option bool) : option bool :=
  match a, b with
  | Some false, _ | _, Some false => Some false
  | Some true, Some true => Some true
  | _, _ => None
  end.

(** [WHERE] keeps a row only when its predicate is true; null drops it. *)
Definition holds (p : option bool) : bool :=
  match p with Some true => true | _ => false end.

(** Comparison inside one type.  Values of different types are not
    comparable in Cypher: [<], [<=], [>] and [>=] then yield null, as they
    do when a side is null.  In particular a date kept as ISO text does
    not compare with the temporal value of [date()]. *)
Definition cy_compare (a b : value) : option comparison :=
  match a, b with
  | VInt x, VInt y => Some (x ?= y)
  | VStr x, VStr y => Some (String.compare x y)
  | VDate x, VDate y => Some (date_compare x y)
  | _, _ => None
  end.

Definition cy_lt (a b : value) : option bool :=
  match cy_compare a b with
  | Some Lt => Some true
  | Some _ => Some false
  | None => None
  end.

Definition cy_gt (a b : value) : option bool := cy_lt b a.

Definition cy_le (a b : value) : option bool :=
  match cy_compare a b with
  | Some Gt => Some false
  | Some _ => Some true
  | None => None
  end.

Definition cy_ge (a b : value) : option bool := cy_le b a.

(** [a = b]: null when either side is null, false across types. *)
Definition cy_eq (a b : value) : option bool :=
  match a, b with
  | VNull, _ | _, VNull => None
  | _, _ => Some (bool_decide (a = b))
  end.

Definition cy_neq (a b : value) : option bool :=
  match cy_eq a b with
  | Some c => Some (negb c)
  | None => None
  end.

(** [CASE WHEN c THEN 1 ELSE 0 END] *)
Definition case_one_zero (c : option bool) : Z :=
  if holds c then 1 else 0.

(** *** [ORDER BY]: a total order over all values

    Ascending order places temporal values before strings, strings before
    numbers, and null last. *)
Definition type_rank (v : value) : Z :=
  match v with
  | VDate _ => 0
  | VStr _ => 1
  | VInt _ => 2
  | VNull => 3
  end.

Definition order_compare (a b : value) : comparison :=
  match cy_compare a b with
  | Some c => c
  | None => type_rank a ?= type_rank b
  end.

(** [a] may stand before [b] in an ascending [ORDER BY]. *)
Definition order_leb (a b : value) : bool :=
  match order_compare a b with Gt => false | _ => true end.

(** *** Strings *)

(** [toLower] is a function of the database: it folds the letters of every
    script, so that [toLower('PELÉ')] is ['pelé'].  The development fixes
    none of it: the definitions below take the function as given, and
    every statement holds for whatever function the database runs. *)
Class CaseFolding := toLower : string -> string.

(** A folding for the examples.  It folds the ASCII letters and, in UTF-8,
    the accented capitals of Latin-1 ([À] to [Þ], the bytes [C3 80] to
    [C3 9E] without the sign [×]), which are the capitals of Portuguese
    names; other bytes are kept. *)
Definition lower_ascii (c : ascii) : ascii :=
  let n := nat_of_ascii c in
  if ((65 <=? n) && (n <=? 90))%nat then ascii_of_nat (n + 32) else c.

Definition lower_latin1 (c : ascii) : ascii :=
  let n := nat_of_ascii c in
  if ((128 <=? n) && (n <=? 158) && negb (n =? 151))%nat
  then ascii_of_nat (n + 32) else c.

Fixpoint lower (s : string) : string :=
  match s with
  | EmptyString => EmptyString
  | String c r =>
      if (nat_of_ascii c =? 195)%nat then
        match r with
        | EmptyString => String c EmptyString
        | String c2 r' => String c (String (lower_latin1 c2) (lower r'))
        end
      else String (lower_ascii c) (lower r)
  end.

Definition latin_folding : CaseFolding := lower.

Fixpoint contains (s sub : string) : bool :=
  String.prefix sub s ||
  match s with
  | EmptyString => false
  | String _ r => contains r sub
  end.

(** *** Expressions that can fail

    An expression of a query evaluates to a value, to null, or not at
    all: [toLower] of a value that is neither text nor null fails the
    query.  [None] is the failure; [Some None] is null. *)

Definition cy_to_lower `{CaseFolding} (v : value) : option (option string) :=
  match v with
  | VStr s => Some (Some (toLower s))
  | VNull => Some None
  | VInt _ | VDate _ => None
  end.

(** [toLower(a) CONTAINS toLower(b)] *)
Definition cy_contains_ci `{CaseFolding} (a b : value) : option (option bool) :=
  x ← cy_to_lower a;
  y ← cy_to_lower b;
  Some (match x, y with
        | Some x, Some y => Some (contains x y)
        | _, _ => None
        end).

(** [toLower(a) = toLower(b)] *)
Definition cy_eq_ci `{CaseFolding} (a b : value) : option (option bool) :=
  x ← cy_to_lower a;
  y ← cy_to_lower b;
  Some (match x, y with
        | Some x, Some y => Some (String.eqb x y)
        | _, _ => None
        end).

(** [AND] and [OR] over operands that can fail.  An operand that is false
    decides an [AND], one that is true decides an [OR], whatever the other
    does; a failure that the other operand does not decide fails the
    query.  (When the planner tests a failing operand in a filter of its
    own, the query fails although the other is false; the statements of
    this development are about graphs on which no operand fails, where
    the readings agree.) *)
Definition q_and (a b : option (option bool)) : option (option bool) :=
  match a, b with
  | Some (Some false), _ | _, Some (Some false) => Some (Some false)
  | Some x, Some y => Some (cy_and x y)
  | _, _ => None
  end.

Definition q_or (a b : option (option bool)) : option (option bool) :=
  match a, b with
  | Some (Some true), _ | _, Some (Some true) => Some (Some true)
  | Some x, Some y => Some (cy_or x y)
  | _, _ => None
  end.

(** A step of a query that can fail, run for every row: the query fails
    when the step fails for one of the rows. *)
Fixpoint each {A B} (l : list A) (f : A -> option (list B)) : option (list B) :=
  match l with
  | [] => Some []
  | x :: l' => ys ← f x; zs ← each l' f; Some (ys ++ zs)%list
  end.

(** What [', '.join(...)] takes. *)
Definition is_text (v : value) : bool :=
  match v with VStr _ => true | _ => false end.

(** *** [date.isoformat()] *)

Definition digits (n : Z) : string :=
  NilZero.string_of_uint (N.to_uint (Z.to_N n)).

Fixpoint zeros (k : nat) : string :=
  match k with O => "" | S k' => String "0" (zeros k') end.

Definition pad (width : nat) (n : Z) : string :=
  let d := digits n in
  zeros (width - String.length d)%nat ++ d.

Definition isoformat (d : date) : string :=
  pad 4 (year d) ++ "-" ++ pad 2 (month d) ++ "-" ++ pad 2 (day d).

(** [str(v)] as an f-string renders a value. *)
Definition py_str (v : value) : string :=
  match v with
  | VNull => "None"
  | VInt n => if n <? 0 then "-" ++ digits (- n) else digits n
  | VStr s => s
  | VDate d => isoformat d
  end.

(** ** The property graph *)

Inductive label := LPlayer | LTeam | LMatch | LCompetition | LStadium | LCoach.

Inductive rel_type :=
| PLAYS_FOR | PLAYED_HOME | PLAYED_AWAY | PART_OF
| SCORED_IN | YELLOW_CARD_IN | RED_CARD_IN.

#[global] Instance label_eq_dec : EqDecision label.
Proof. solve_decision. Defined.

#[global] Instance rel_type_eq_dec : EqDecision rel_type.
Proof. solve_decision. Defined.

(** A node is identified by its position in [nodes]; nothing is ever
    deleted except by [clear_database], which empties the graph. *)
Record node := mknode { nlabel : label; nprops : gmap string value }.

Record rel := mkrel {
  rtype : rel_type;
  rsrc : nat;
  rdst : nat;
  rprops : gmap string value
}.

Record graph := mkgraph { nodes : list node; rels : list rel }.

#[global] Instance node_eq_dec : EqDecision node.
Proof. solve_decision. Defined.

#[global] Instance rel_eq_dec : EqDecision rel.
Proof. solve_decision. Defined.

Definition empty_graph : graph := mkgraph [] [].

(** [n.k]: an absent property reads as null. *)
Definition prop (m : gmap string value) (k : string) : value :=
  default VNull (m !! k).

(** [SET x.k = v]: writing null removes the property. *)
Definition set_prop (m : gmap string value) (kv : string * value)
  : gmap string value :=
  match kv.2 with
  | VNull => delete kv.1 m
  | v => <[kv.1 := v]> m
  end.

Definition set_props (sets : list (string * value)) (m : gmap string value)
  : gmap string value :=
  fold_left set_prop sets m.

Definition set_node (sets : list (string * value)) (n : node) : node :=
  mknode (nlabel n) (set_props sets (nprops n)).

Definition set_rel (sets : list (string * value)) (r : rel) : rel :=
  mkrel (rtype r) (rsrc r) (rdst r) (set_props sets (rprops r)).

(** The node pattern [(x:L {k: $id})]. *)
Definition has_key (l : label) (k id : string) (n : node) : bool :=
  bool_decide (nlabel n = l) && bool_decide (nprops n !! k = Some (VStr id)).

Definition indexed {A} (l : list A) : list (nat * A) := imap pair l.

(** [MATCH (x:L)] and [MATCH (x:L {k: $id})]: the matching nodes with their
    identities, in store order. *)
Definition nodes_with (g : graph) (l : label) : list (nat * node) :=
  List.filter (fun p => bool_decide (nlabel p.2 = l)) (indexed (nodes g)).

Definition match_nodes (g : graph) (l : label) (k id : string)
  : list (nat * node) :=
  List.filter (fun p => has_key l k id p.2) (indexed (nodes g)).

(** [MERGE (x:L {k: $id}) SET x.a = ..., ...]: every node matching the
    pattern is updated; when there is none, one is created. *)
Definition merge_node (l : label) (k id : string)
    (sets : list (string * value)) (g : graph) : graph :=
  if existsb (has_key l k id) (nodes g)
  then mkgraph
         (map (fun n => if has_key l k id n then set_node sets n else n)
              (nodes g))
         (rels g)
  else mkgraph
         (nodes g ++ [set_node sets (mknode l {[ k := VStr id ]})])
         (rels g).

Definition rel_is (t : rel_type) (s d : nat) (r : rel) : bool :=
  bool_decide (rtype r = t) && (rsrc r =? s)%nat && (rdst r =? d)%nat.

(** [MERGE (s)-[r:T]->(d) SET r.a = ..., ...] for bound endpoints: every
    relationship of that type between them is updated; when there is none,
    one is created. *)
Definition merge_rel (t : rel_type) (s d : nat)
    (sets : list (string * value)) (g : graph) : graph :=
  if existsb (rel_is t s d) (rels g)
  then mkgraph
         (nodes g)
         (map (fun r => if rel_is t s d r then set_rel sets r else r)
              (rels g))
  else mkgraph
         (nodes g)
         (rels g ++ [mkrel t s d (set_props sets ∅)]).

(** [database.py]: [MATCH (n) DETACH DELETE n] *)
Definition clear_database (g : graph) : graph := empty_graph.

(** ** [models.py] *)

Module Player.
Record t := mk {
  player_id : string;
  name : string;
  birth_date : option date;
  nationality : string;
  position : string;
  jersey_number : option Z
}.
End Player.

Module Team.
Record t := mk {
  team_id : string;
  name : string;
  city : string;
  stadium : option string;
  founded_year : option Z;
  colors : option string
}.
End Team.

Module Match.
Record t := mk {
  match_id : string;
  date : date;
  home_team_id : string;
  away_team_id : string;
  home_score : Z;
  away_score : Z;
  competition_id : string;
  stadium_id : option string;
  attendance : option Z
}.
End Match.

Module Competition.
Record t := mk {
  competition_id : string;
  name : string;
  season : string;
  type : string;
  tier : Z
}.
End Competition.

Module Stadium.
Record t := mk {
  stadium_id : string;
  name : string;
  city : string;
  capacity : option Z;
  opened_year : option Z
}.
End Stadium.

Module Coach.
Record t := mk {
  coach_id : string;
  name : string;
  nationality : string;
  birth_date : option date
}.
End Coach.

Module PlayerContract.
Record t := mk {
  player_id : string;
  team_id : string;
  start_date : date;
  end_date : option date
}.
End PlayerContract.

Module Goal.
Record t := mk {
  player_id : string;
  match_id : string;
  minute : Z;
  goal_type : string
}.
End Goal.

Module Card.
Record t := mk {
  player_id : string;
  match_id : string;
  minute : Z;
  card_type : string
}.
End Card.

(** Query parameters as the driver sends them. *)
Definition opt_int (o : option Z) : value :=
  match o with Some n => VInt n | None => VNull end.

Definition opt_str (o : option string) : value :=
  match o with Some s => VStr s | None => VNull end.

(** [d.isoformat() if d else None] *)
Definition opt_iso (o : option date) : value :=
  match o with Some d => VStr (isoformat d) | None => VNull end.

(** ** [data_loader.py]: class [DataLoader]

    A loader is the statement it runs, as a function on the graph: what
    the statement does once the driver has taken its parameters.  (An
    integer that does not fit 64 bits is refused by the driver with an
    [OverflowError]; the statement is then not run and the graph stays as
    it was.) *)

Definition load_player (player : Player.t) (g : graph) : graph :=
  merge_node LPlayer "player_id" (Player.player_id player)
    [ ("name", VStr (Player.name player));
      ("birth_date", opt_iso (Player.birth_date player));
      ("nationality", VStr (Player.nationality player));
      ("position", VStr (Player.position player));
      ("jersey_number", opt_int (Player.jersey_number player)) ] g.

Definition load_team (team : Team.t) (g : graph) : graph :=
  merge_node LTeam "team_id" (Team.team_id team)
    [ ("name", VStr (Team.name team));
      ("city", VStr (Team.city team));
      ("stadium", opt_str (Team.stadium team));
      ("founded_year", opt_int (Team.founded_year team));
      ("colors", opt_str (Team.colors team)) ] g.

Definition load_competition (competition : Competition.t) (g : graph) : graph :=
  merge_node LCompetition "competition_id"
    (Competition.competition_id competition)
    [ ("name", VStr (Competition.name competition));
      ("season", VStr (Competition.season competition));
      ("type", VStr (Competition.type competition));
      ("tier", VInt (Competition.tier competition)) ] g.

Definition load_stadium (stadium : Stadium.t) (g : graph) : graph :=
  merge_node LStadium "stadium_id" (Stadium.stadium_id stadium)
    [ ("name", VStr (Stadium.name stadium));
      ("city", VStr (Stadium.city stadium));
      ("capacity", opt_int (Stadium.capacity stadium));
      ("opened_year", opt_int (Stadium.opened_year stadium)) ] g.

Definition load_coach (coach : Coach.t) (g : graph) : graph :=
  merge_node LCoach "coach_id" (Coach.coach_id coach)
    [ ("name", VStr (Coach.name coach));
      ("nationality", VStr (Coach.nationality coach));
      ("birth_date", opt_iso (Coach.birth_date coach)) ] g.

(** One [MERGE] of a relationship, run once per row of bound endpoints. *)
Definition merge_rel_rows (t : rel_type) (sets : list (string * value))
    (rows : list (nat * nat)) (g : graph) : graph :=
  fold_left (fun g' sd => merge_rel t sd.1 sd.2 sets g') rows g.

(** The statement shared by [load_match] and the Kaggle match loader:
    [MERGE (m:Match {match_id: $match_id}) SET ... WITH m
     MATCH (home:Team ...) MATCH (away:Team ...) MATCH (c:Competition ...)
     MERGE (home)-[:PLAYED_HOME]->(m) MERGE (away)-[:PLAYED_AWAY]->(m)
     MERGE (m)-[:PART_OF]->(c)].
    The node is merged and set first; the three relationship merges run
    only for rows in which both teams and the competition were matched. *)
Definition match_upsert (match_id : string) (sets : list (string * value))
    (home_team_id away_team_id competition_id : string) (g : graph) : graph :=
  let g1 := merge_node LMatch "match_id" match_id sets g in
  let rows :=
    m ← match_nodes g1 LMatch "match_id" match_id;
    home ← match_nodes g1 LTeam "team_id" home_team_id;
    away ← match_nodes g1 LTeam "team_id" away_team_id;
    c ← match_nodes g1 LCompetition "competition_id" competition_id;
    [(m.1, home.1, away.1, c.1)] in
  let g2 := merge_rel_rows PLAYED_HOME [] (map (fun r => (r.1.1.2, r.1.1.1)) rows) g1 in
  let g3 := merge_rel_rows PLAYED_AWAY [] (map (fun r => (r.1.2, r.1.1.1)) rows) g2 in
  merge_rel_rows PART_OF [] (map (fun r => (r.1.1.1, r.2)) rows) g3.

Definition load_match (mt : Match.t) (g : graph) : graph :=
  match_upsert (Match.match_id mt)
    [ ("date", VStr (isoformat (Match.date mt)));
      ("home_score", VInt (Match.home_score mt));
      ("away_score", VInt (Match.away_score mt));
      ("attendance", opt_int (Match.attendance mt)) ]
    (Match.home_team_id mt) (Match.away_team_id mt) (Match.competition_id mt) g.

(** The rows of [MATCH (a:La {ka: $ida}) MATCH (b:Lb {kb: $idb})]. *)
Definition match_pair (g : graph) (la : label) (ka ida : string)
    (lb : label) (kb idb : string) : list (nat * nat) :=
  a ← match_nodes g la ka ida;
  b ← match_nodes g lb kb idb;
  [(a.1, b.1)].

Definition load_player_contract (contract : PlayerContract.t) (g : graph)
  : graph :=
  merge_rel_rows PLAYS_FOR
    [ ("start_date", VStr (isoformat (PlayerContract.start_date contract)));
      ("end_date", opt_iso (PlayerContract.end_date contract)) ]
    (match_pair g LPlayer "player_id" (PlayerContract.player_id contract)
                  LTeam "team_id" (PlayerContract.team_id contract))
    g.

Definition load_goal (goal : Goal.t) (g : graph) : graph :=
  merge_rel_rows SCORED_IN
    [ ("minute", VInt (Goal.minute goal));
      ("goal_type", VStr (Goal.goal_type goal)) ]
    (match_pair g LPlayer "player_id" (Goal.player_id goal)
                  LMatch "match_id" (Goal.match_id goal))
    g.

Definition load_card (card : Card.t) (g : graph) : graph :=
  let rel_type :=
    if String.eqb (Card.card_type card) "yellow"
    then YELLOW_CARD_IN else RED_CARD_IN in
  merge_rel_rows rel_type
    [ ("minute", VInt (Card.minute card)) ]
    (match_pair g LPlayer "player_id" (Card.player_id card)
                  LMatch "match_id" (Card.match_id card))
    g.

(** *** [get_sample_data] and [load_sample_data] *)

Definition sample_teams : list Team.t :=
  [ Team.mk "T001" "Flamengo" "Rio de Janeiro" (Some "Maracanã") (Some 1895) (Some "Red and Black");
    Team.mk "T002" "Fluminense" "Rio de Janeiro" (Some "Maracanã") (Some 1902) (Some "Maroon, Green and White");
    Team.mk "T003" "Corinthians" "São Paulo" (Some "Neo Química Arena") (Some 1910) (Some "Black and White");
    Team.mk "T004" "Palmeiras" "São Paulo" (Some "Allianz Parque") (Some 1914) (Some "Green and White");
    Team.mk "T005" "Santos" "Santos" (Some "Vila Belmiro") (Some 1912) (Some "Black and White");
    Team.mk "T006" "São Paulo FC" "São Paulo" (Some "Morumbi") (Some 1930) (Some "Red, White and Black");
    Team.mk "T007" "Grêmio" "Porto Alegre" (Some "Arena do Grêmio") (Some 1903) (Some "Blue, Black and White");
    Team.mk "T008" "Internacional" "Porto Alegre" (Some "Beira-Rio") (Some 1909) (Some "Red and White");
    Team.mk "T009" "Cruzeiro" "Belo Horizonte" (Some "Mineirão") (Some 1921) (Some "Blue and White");
    Team.mk "T010" "Atlético Mineiro" "Belo Horizonte" (Some "Mineirão") (Some 1908) (Some "Black and White");
    Team.mk "T011" "Botafogo" "Rio de Janeiro" (Some "Nilton Santos") (Some 1904) (Some "Black and White");
    Team.mk "T012" "Vasco da Gama" "Rio de Janeiro" (Some "São Januário") (Some 1898) (Some "Black and White") ].

Definition sample_stadiums : list Stadium.t :=
  [ Stadium.mk "S001" "Maracanã" "Rio de Janeiro" (Some 78838) (Some 1950);
    Stadium.mk "S002" "Neo Química Arena" "São Paulo" (Some 49205) (Some 2014);
    Stadium.mk "S003" "Allianz Parque" "São Paulo" (Some 43713) (Some 2014);
    Stadium.mk "S004" "Vila Belmiro" "Santos" (Some 16068) (Some 1916);
    Stadium.mk "S005" "Morumbi" "São Paulo" (Some 66795) (Some 1960);
    Stadium.mk "S006" "Arena do Grêmio" "Porto Alegre" (Some 55662) (Some 2012);
    Stadium.mk "S007" "Beira-Rio" "Porto Alegre" (Some 50128) (Some 1969);
    Stadium.mk "S008" "Mineirão" "Belo Horizonte" (Some 61846) (Some 1965);
    Stadium.mk "S009" "Nilton Santos" "Rio de Janeiro" (Some 46931) (Some 2007);
    Stadium.mk "S010" "São Januário" "Rio de Janeiro" (Some 21880) (Some 1927) ].

Definition sample_competitions : list Competition.t :=
  [ Competition.mk "C001" "Campeonato Brasileiro Série A" "2023" "league" 1;
    Competition.mk "C002" "Campeonato Brasileiro Série A" "2022" "league" 1;
    Competition.mk "C003" "Copa do Brasil" "2023" "cup" 1;
    Competition.mk "C004" "Copa do Brasil" "2022" "cup" 1;
    Competition.mk "C005" "Campeonato Brasileiro Série A" "2024" "league" 1 ].

Definition sample_players : list Player.t :=
  [ Player.mk "P001" "Gabriel Barbosa (Gabigol)" (Some (mkdate 1996 8 30)) "Brazilian" "Forward" (Some 10);
    Player.mk "P002" "Pedro" (Some (mkdate 1997 6 20)) "Brazilian" "Forward" (Some 9);
    Player.mk "P003" "Arrascaeta" (Some (mkdate 1994 6 1)) "Uruguayan" "Midfielder" (Some 14);
    Player.mk "P004" "Everton Ribeiro" (Some (mkdate 1989 4 10)) "Brazilian" "Midfielder" (Some 7);
    Player.mk "P005" "Endrick" (Some (mkdate 2006 7 21)) "Brazilian" "Forward" (Some 9);
    Player.mk "P006" "Raphael Veiga" (Some (mkdate 1995 6 19)) "Brazilian" "Midfielder" (Some 23);
    Player.mk "P007" "Dudu" (Some (mkdate 1992 1 7)) "Brazilian" "Forward" (Some 7);
    Player.mk "P008" "Yuri Alberto" (Some (mkdate 2001 3 18)) "Brazilian" "Forward" (Some 9);
    Player.mk "P009" "Renato Augusto" (Some (mkdate 1988 2 8)) "Brazilian" "Midfielder" (Some 8);
    Player.mk "P010" "Pelé" (Some (mkdate 1940 10 23)) "Brazilian" "Forward" (Some 10);
    Player.mk "P011" "Neymar Jr" (Some (mkdate 1992 2 5)) "Brazilian" "Forward" (Some 11);
    Player.mk "P012" "Ronaldo Nazário" (Some (mkdate 1976 9 18)) "Brazilian" "Forward" (Some 9);
    Player.mk "P013" "Romário" (Some (mkdate 1966 1 29)) "Brazilian" "Forward" (Some 11);
    Player.mk "P014" "Zico" (Some (mkdate 1953 3 3)) "Brazilian" "Midfielder" (Some 10);
    Player.mk "P015" "Ronaldinho" (Some (mkdate 1980 3 21)) "Brazilian" "Forward" (Some 10);
    Player.mk "P016" "Germán Cano" (Some (mkdate 1988 1 7)) "Argentine" "Forward" (Some 14);
    Player.mk "P017" "Ganso" (Some (mkdate 1989 10 12)) "Brazilian" "Midfielder" (Some 10);
    Player.mk "P018" "Luciano" (Some (mkdate 1993 5 18)) "Brazilian" "Forward" (Some 10);
    Player.mk "P019" "Calleri" (Some (mkdate 1993 7 23)) "Argentine" "Forward" (Some 9);
    Player.mk "P020" "Tiquinho Soares" (Some (mkdate 1991 1 17)) "Brazilian" "Forward" (Some 9) ].

Definition sample_coaches : list Coach.t :=
  [ Coach.mk "CO001" "Tite" "Brazilian" (Some (mkdate 1961 5 25));
    Coach.mk "CO002" "Jorge Jesus" "Portuguese" (Some (mkdate 1954 7 22));
    Coach.mk "CO003" "Abel Ferreira" "Portuguese" (Some (mkdate 1978 12 21));
    Coach.mk "CO004" "Fernando Diniz" "Brazilian" (Some (mkdate 1974 6 27));
    Coach.mk "CO005" "Renato Gaúcho" "Brazilian" (Some (mkdate 1962 9 9)) ].

Definition sample_contracts : list PlayerContract.t :=
  [ PlayerContract.mk "P001" "T001" (mkdate 2019 1 1) None;
    PlayerContract.mk "P002" "T001" (mkdate 2020 1 1) None;
    PlayerContract.mk "P003" "T001" (mkdate 2019 1 1) None;
    PlayerContract.mk "P004" "T001" (mkdate 2017 1 1) (Some (mkdate 2023 12 31));
    PlayerContract.mk "P014" "T001" (mkdate 1971 1 1) (Some (mkdate 1983 12 31));
    PlayerContract.mk "P005" "T004" (mkdate 2022 1 1) (Some (mkdate 2024 6 30));
    PlayerContract.mk "P006" "T004" (mkdate 2019 1 1) None;
    PlayerContract.mk "P007" "T004" (mkdate 2015 1 1) None;
    PlayerContract.mk "P008" "T003" (mkdate 2022 1 1) None;
    PlayerContract.mk "P009" "T003" (mkdate 2022 1 1) None;
    PlayerContract.mk "P012" "T003" (mkdate 2009 1 1) (Some (mkdate 2011 12 31));
    PlayerContract.mk "P010" "T005" (mkdate 1956 1 1) (Some (mkdate 1974 12 31));
    PlayerContract.mk "P011" "T005" (mkdate 2009 1 1) (Some (mkdate 2013 5 31));
    PlayerContract.mk "P011" "T001" (mkdate 2025 1 1) None;
    PlayerContract.mk "P012" "T009" (mkdate 1993 1 1) (Some (mkdate 1994 5 31));
    PlayerContract.mk "P013" "T012" (mkdate 1985 1 1) (Some (mkdate 1988 12 31));
    PlayerContract.mk "P013" "T001" (mkdate 1995 1 1) (Some (mkdate 1999 12 31));
    PlayerContract.mk "P015" "T007" (mkdate 1998 1 1) (Some (mkdate 2001 12 31));
    PlayerContract.mk "P015" "T010" (mkdate 2012 1 1) (Some (mkdate 2014 12 31));
    PlayerContract.mk "P015" "T001" (mkdate 2011 1 1) (Some (mkdate 2012 6 30));
    PlayerContract.mk "P016" "T002" (mkdate 2022 1 1) None;
    PlayerContract.mk "P017" "T002" (mkdate 2019 1 1) None;
    PlayerContract.mk "P017" "T005" (mkdate 2008 1 1) (Some (mkdate 2012 12 31));
    PlayerContract.mk "P018" "T006" (mkdate 2020 1 1) None;
    PlayerContract.mk "P019" "T006" (mkdate 2022 1 1) None;
    PlayerContract.mk "P020" "T011" (mkdate 2023 1 1) None ].

Definition sample_matches : list Match.t :=
  [ Match.mk "M001" (mkdate 2023 4 16) "T001" "T002" 2 1 "C001" (Some "S001") (Some 65000);
    Match.mk "M002" (mkdate 2023 5 21) "T003" "T004" 1 1 "C001" (Some "S002") (Some 45000);
    Match.mk "M003" (mkdate 2023 6 10) "T005" "T006" 0 2 "C001" (Some "S004") (Some 14000);
    Match.mk "M004" (mkdate 2023 7 8) "T007" "T008" 2 0 "C001" (Some "S006") (Some 50000);
    Match.mk "M005" (mkdate 2023 8 12) "T001" "T004" 3 2 "C001" (Some "S001") (Some 70000);
    Match.mk "M006" (mkdate 2023 9 3) "T002" "T001" 0 3 "C001" (Some "S001") (Some 60000);
    Match.mk "M007" (mkdate 2023 10 15) "T003" "T001" 1 2 "C001" (Some "S002") (Some 47000);
    Match.mk "M008" (mkdate 2023 11 5) "T004" "T003" 2 0 "C001" (Some "S003") (Some 40000);
    Match.mk "M009" (mkdate 2023 11 20) "T001" "T003" 2 1 "C001" (Some "S001") (Some 68000);
    Match.mk "M010" (mkdate 2023 12 3) "T011" "T012" 1 0 "C001" (Some "S009") (Some 35000);
    Match.mk "M011" (mkdate 2022 4 10) "T001" "T002" 1 0 "C002" (Some "S001") (Some 55000);
    Match.mk "M012" (mkdate 2022 5 15) "T004" "T003" 3 0 "C002" (Some "S003") (Some 42000);
    Match.mk "M013" (mkdate 2022 8 20) "T002" "T001" 2 2 "C002" (Some "S001") (Some 58000);
    Match.mk "M014" (mkdate 2023 5 10) "T001" "T005" 4 0 "C003" (Some "S001") (Some 52000);
    Match.mk "M015" (mkdate 2023 8 23) "T006" "T001" 1 2 "C003" (Some "S005") (Some 45000);
    Match.mk "M016" (mkdate 2024 4 14) "T001" "T002" 2 1 "C005" (Some "S001") (Some 66000);
    Match.mk "M017" (mkdate 2024 5 19) "T003" "T004" 0 1 "C005" (Some "S002") (Some 43000);
    Match.mk "M018" (mkdate 2024 7 7) "T011" "T001" 2 2 "C005" (Some "S009") (Some 40000);
    Match.mk "M019" (mkdate 2024 9 15) "T004" "T001" 1 3 "C005" (Some "S003") (Some 41000);
    Match.mk "M020" (mkdate 2024 10 20) "T002" "T001" 0 1 "C005" (Some "S001") (Some 62000) ].

Definition sample_goals : list Goal.t :=
  [ Goal.mk "P001" "M001" 23 "regular";
    Goal.mk "P002" "M001" 67 "penalty";
    Goal.mk "P016" "M001" 45 "regular";
    Goal.mk "P008" "M002" 34 "regular";
    Goal.mk "P006" "M002" 78 "free_kick";
    Goal.mk "P001" "M005" 12 "regular";
    Goal.mk "P002" "M005" 55 "regular";
    Goal.mk "P003" "M005" 89 "regular";
    Goal.mk "P005" "M005" 30 "regular";
    Goal.mk "P007" "M005" 72 "regular";
    Goal.mk "P001" "M006" 15 "regular";
    Goal.mk "P001" "M006" 50 "penalty";
    Goal.mk "P002" "M006" 82 "regular";
    Goal.mk "P001" "M014" 10 "regular";
    Goal.mk "P002" "M014" 35 "regular";
    Goal.mk "P003" "M014" 60 "regular";
    Goal.mk "P001" "M014" 88 "penalty";
    Goal.mk "P001" "M016" 25 "regular";
    Goal.mk "P003" "M016" 70 "regular";
    Goal.mk "P016" "M016" 85 "regular";
    Goal.mk "P006" "M017" 65 "regular";
    Goal.mk "P020" "M018" 30 "regular";
    Goal.mk "P001" "M018" 55 "regular";
    Goal.mk "P002" "M019" 20 "regular";
    Goal.mk "P001" "M019" 45 "penalty";
    Goal.mk "P003" "M019" 78 "regular";
    Goal.mk "P007" "M019" 90 "regular";
    Goal.mk "P002" "M020" 62 "regular" ].

Definition sample_cards : list Card.t :=
  [ Card.mk "P008" "M002" 45 "yellow";
    Card.mk "P007" "M002" 60 "yellow";
    Card.mk "P003" "M005" 70 "yellow";
    Card.mk "P006" "M008" 55 "yellow";
    Card.mk "P009" "M008" 78 "red";
    Card.mk "P016" "M001" 88 "yellow";
    Card.mk "P001" "M007" 40 "yellow" ].

(** The loops of [load_sample_data], in their order. *)
Definition load_all {A} (load : A -> graph -> graph) (l : list A) (g : graph)
  : graph :=
  fold_left (fun g' x => load x g') l g.

Definition load_sample_data (g : graph) : graph :=
  load_all load_card sample_cards
   (load_all load_goal sample_goals
    (load_all load_player_contract sample_contracts
     (load_all load_match sample_matches
      (load_all load_coach sample_coaches
       (load_all load_player sample_players
        (load_all load_competition sample_competitions
         (load_all load_stadium sample_stadiums
          (load_all load_team sample_teams g)))))))).

(** The database of the integration tests: cleared, then loaded. *)
Definition sample_graph : graph := load_sample_data (clear_database empty_graph).

(** ** [kaggle_loader.py]: class [KaggleDataLoader]

    The loader reads CSV files; what reaches the graph are the statements
    below, with the parameters computed from a CSV row.  [_load_teams]
    runs the statement of [load_team], and [_load_competitions] the one of
    [load_competition] with tier 1. *)

Module KaggleMatch.
Record t := mk {
  match_id : string;
  date : date;
  home_score : Z;
  away_score : Z;
  round : Z;
  home_team_id : string;
  away_team_id : string;
  competition_id : string
}.
End KaggleMatch.

(** [_load_brasileirao_matches] *)
Definition kaggle_match_upsert (row : KaggleMatch.t) (g : graph) : graph :=
  match_upsert (KaggleMatch.match_id row)
    [ ("date", VStr (isoformat (KaggleMatch.date row)));
      ("home_score", VInt (KaggleMatch.home_score row));
      ("away_score", VInt (KaggleMatch.away_score row));
      ("round", VInt (KaggleMatch.round row)) ]
    (KaggleMatch.home_team_id row) (KaggleMatch.away_team_id row)
    (KaggleMatch.competition_id row) g.

Module KaggleBrfMatch.
Record t := mk {
  match_id : string;
  date : date;
  home_score : Z;
  away_score : Z;
  home_corners : option Z;
  away_corners : option Z;
  home_shots : option Z;
  away_shots : option Z;
  home_team_id : string;
  away_team_id : string;
  competition_id : string
}.
End KaggleBrfMatch.

(** [_load_br_football_matches]: the competition is matched optionally and
    [PART_OF] is merged only when it was found. *)
Definition kaggle_brf_match_upsert (row : KaggleBrfMatch.t) (g : graph) : graph :=
  let g1 :=
    merge_node LMatch "match_id" (KaggleBrfMatch.match_id row)
      [ ("date", VStr (isoformat (KaggleBrfMatch.date row)));
        ("home_score", VInt (KaggleBrfMatch.home_score row));
        ("away_score", VInt (KaggleBrfMatch.away_score row));
        ("home_corners", opt_int (KaggleBrfMatch.home_corners row));
        ("away_corners", opt_int (KaggleBrfMatch.away_corners row));
        ("home_shots", opt_int (KaggleBrfMatch.home_shots row));
        ("away_shots", opt_int (KaggleBrfMatch.away_shots row)) ] g in
  let teams :=
    m ← match_nodes g1 LMatch "match_id" (KaggleBrfMatch.match_id row);
    home ← match_nodes g1 LTeam "team_id" (KaggleBrfMatch.home_team_id row);
    away ← match_nodes g1 LTeam "team_id" (KaggleBrfMatch.away_team_id row);
    [(m.1, home.1, away.1)] in
  let cs := match_nodes g1 LCompetition "competition_id"
              (KaggleBrfMatch.competition_id row) in
  let rows := r ← teams; match cs with [] => [(r, None)]
                                  | _ => map (fun c => (r, Some c.1)) cs end in
  let g2 := merge_rel_rows PLAYED_HOME [] (map (fun r => (r.1.1.2, r.1.1.1)) rows) g1 in
  let g3 := merge_rel_rows PLAYED_AWAY [] (map (fun r => (r.1.2, r.1.1.1)) rows) g2 in
  merge_rel_rows PART_OF []
    (r ← rows; match r.2 with Some c => [(r.1.1.1, c)] | None => [] end) g3.

Module KagglePlayer.
Record t := mk {
  player_id : string;
  long_name : string;
  short_name : string;
  birth_date : option string;
  nationality : string;
  position : string;
  positions : string;
  overall : option Z;
  jersey : option Z
}.
End KagglePlayer.

(** [_load_players]: the player statement ...  A row is one whose name
    cells are filled.  (An empty [long_name], [short_name] or
    [nationality_name] cell reaches the statement as pandas' NaN, a float,
    which the values of this embedding do not include; no statement of
    the development takes these properties of a loaded graph to be
    text.) *)
Definition kaggle_player_upsert (row : KagglePlayer.t) (g : graph) : graph :=
  merge_node LPlayer "player_id" (KagglePlayer.player_id row)
    [ ("name", VStr (KagglePlayer.long_name row));
      ("short_name", VStr (KagglePlayer.short_name row));
      ("birth_date", opt_str (KagglePlayer.birth_date row));
      ("nationality", VStr (KagglePlayer.nationality row));
      ("position", VStr (KagglePlayer.position row));
      ("positions", VStr (KagglePlayer.positions row));
      ("overall_rating", opt_int (KagglePlayer.overall row));
      ("jersey_number", opt_int (KagglePlayer.jersey row)) ] g.

(** ... and the contract statement, which carries only [season]. *)
Definition kaggle_contract_upsert (player_id team_id season : string)
    (g : graph) : graph :=
  merge_rel_rows PLAYS_FOR [ ("season", VStr season) ]
    (match_pair g LPlayer "player_id" player_id LTeam "team_id" team_id)
    g.

(** ** The states of the store

    Every statement that writes to the graph, and the graphs they can
    build from the empty one. *)
Inductive write :=
| WPlayer (x : Player.t)
| WTeam (x : Team.t)
| WMatch (x : Match.t)
| WCompetition (x : Competition.t)
| WStadium (x : Stadium.t)
| WCoach (x : Coach.t)
| WContract (x : PlayerContract.t)
| WGoal (x : Goal.t)
| WCard (x : Card.t)
| WKaggleMatch (x : KaggleMatch.t)
| WKaggleBrfMatch (x : KaggleBrfMatch.t)
| WKagglePlayer (x : KagglePlayer.t)
| WKaggleContract (player_id team_id season : string)
| WClear.

Definition apply_write (w : write) (g : graph) : graph :=
  match w with
  | WPlayer x => load_player x g
  | WTeam x => load_team x g
  | WMatch x => load_match x g
  | WCompetition x => load_competition x g
  | WStadium x => load_stadium x g
  | WCoach x => load_coach x g
  | WContract x => load_player_contract x g
  | WGoal x => load_goal x g
  | WCard x => load_card x g
  | WKaggleMatch x => kaggle_match_upsert x g
  | WKaggleBrfMatch x => kaggle_brf_match_upsert x g
  | WKagglePlayer x => kaggle_player_upsert x g
  | WKaggleContract p t s => kaggle_contract_upsert p t s g
  | WClear => clear_database g
  end.

(** The writes applied in order. *)
Definition run (ws : list write) (g : graph) : graph :=
  fold_left (fun g' w => apply_write w g') ws g.

(** A state of the store: what some sequence of writes leaves of the empty
    graph. *)
Definition reachable (g : graph) : Prop :=
  exists ws, g = run ws empty_graph.

(** ** [server.py] *)

(** What a tool hands back.  Every tool returns a text; the constructors
    separate the return statements of the source: the "... not found"
    texts, the "No ... found ..." texts, and the regular report. [Raised]
    is an exception leaving the tool (a failed query or a Python
    [TypeError]). *)
Inductive reply (A : Type) :=
| Raised
| NotFound (msg : string)
| Nothing (msg : string)
| Found (a : A).

Arguments Raised {A}.
Arguments NotFound {A} msg.
Arguments Nothing {A} msg.
Arguments Found {A} a.

(** *** Sorting: [ORDER BY] and Python's [sorted] *)

Fixpoint insert_by {A} (leb : A -> A -> bool) (x : A) (l : list A) : list A :=
  match l with
  | [] => [x]
  | y :: l' => if leb x y then x :: l else y :: insert_by leb x l'
  end.

(** A stable sort: an element is placed before the elements already there
    that it does not exceed, and elements are taken from the right. *)
Definition sort_by {A} (leb : A -> A -> bool) (l : list A) : list A :=
  foldr (insert_by leb) [] l.

(** [ORDER BY a, b] on a pair of keys. *)
Definition lex_leb (a b : value * value) : bool :=
  match order_compare a.1 b.1 with
  | Lt => true
  | Gt => false
  | Eq => order_leb a.2 b.2
  end.

(** *** Pattern steps

    Cypher leaves the order of the rows of a [MATCH] open.  The
    comprehensions below enumerate nodes and relationships in store order;
    no statement of this development depends on that choice. *)

(** The node [i], when it carries label [l]. *)
Definition labelled (g : graph) (l : label) (i : nat) : list (nat * node) :=
  match nodes g !! i with
  | Some n => if bool_decide (nlabel n = l) then [(i, n)] else []
  | None => []
  end.

(** [(s)-[r:T]->()] and [()-[r:T]->(d)] with their identities. *)
Definition out_rels (g : graph) (t : rel_type) (s : nat) : list (nat * rel) :=
  List.filter
    (fun r => bool_decide (rtype r.2 = t) && (rsrc r.2 =? s)%nat)
    (indexed (rels g)).

Definition in_rels (g : graph) (t : rel_type) (d : nat) : list (nat * rel) :=
  List.filter
    (fun r => bool_decide (rtype r.2 = t) && (rdst r.2 =? d)%nat)
    (indexed (rels g)).

(** The pattern predicate [(s)-[:T]->(d)]. *)
Definition has_rel (g : graph) (t : rel_type) (s d : nat) : bool :=
  existsb (rel_is t s d) (rels g).

(** [sum(e)]: nulls are skipped, a value that is not a number fails the
    query. *)
Fixpoint cy_sum (vs : list value) : option Z :=
  match vs with
  | [] => Some 0
  | VNull :: r => cy_sum r
  | VInt n :: r => option_map (Z.add n) (cy_sum r)
  | _ :: _ => None
  end.

Definition sum_Z (l : list Z) : Z := foldr Z.add 0 l.

(** [collect(DISTINCT e)]: nulls are skipped. *)
Definition collect_distinct (vs : list value) : list value :=
  remove_dups (List.filter (fun v => negb (is_null v)) vs).

(** Grouping for [RETURN k, agg(...)]: the groups in order of first
    appearance, each with its rows. *)
Definition group_by {K V} `{EqDecision K} (rows : list (K * V))
  : list (K * list V) :=
  map (fun k =>
         (k, map snd (List.filter (fun r => bool_decide (r.1 = k)) rows)))
      (remove_dups (map fst rows)).

(** *** Team tools *)

Record roster_row := mkroster_row {
  ro_player_id : value;
  ro_name : value;
  ro_position : value;
  ro_jersey_number : value;
  ro_joined : value
}.

(** The roster query.  [today] is what [date()] evaluates to. *)
Definition roster_query (g : graph) (team_id : string) (today : date)
  : list roster_row :=
  let rows :=
    t ← match_nodes g LTeam "team_id" team_id;
    r ← in_rels g PLAYS_FOR t.1;
    p ← labelled g LPlayer (rsrc r.2);
    if holds (cy_or (Some (is_null (prop (rprops r.2) "end_date")))
                    (cy_ge (prop (rprops r.2) "end_date") (VDate today)))
    then [ mkroster_row (prop (nprops p.2) "player_id")
                        (prop (nprops p.2) "name")
                        (prop (nprops p.2) "position")
                        (prop (nprops p.2) "jersey_number")
                        (prop (rprops r.2) "start_date") ]
    else [] in
  sort_by (fun a b => lex_leb (ro_position a, ro_name a)
                              (ro_position b, ro_name b)) rows.

(** [MATCH (t:Team {team_id: $team_id}) RETURN t.name as name] *)
Definition team_name_query (g : graph) (team_id : string) : list value :=
  map (fun t => prop (nprops t.2) "name") (match_nodes g LTeam "team_id" team_id).

(** The tool takes a [season] and does not use it; the date the roster is
    taken at is the one of the database clock. *)
Definition get_team_roster (g : graph) (today : date)
    (team_id : string) (season : option string)
  : reply (value * list roster_row) :=
  match team_name_query g team_id with
  | [] => NotFound ("Team with ID '" ++ team_id ++ "' not found")
  | team_name :: _ => Found (team_name, roster_query g team_id today)
  end.

Record stats := mkstats {
  matches : Z;
  wins : Z;
  draws : Z;
  losses : Z;
  goals_for : Z;
  goals_against : Z
}.

(** Python's [if season:] *)
Definition given (o : option string) : option string :=
  match o with
  | Some s => if String.eqb s "" then None else Some s
  | None => None
  end.

(** The matches bound to [m] by
    [MATCH (t:Team {team_id: $team_id}) MATCH (t)-[:SIDE]->(m:Match)]
    followed, when a season is given, by
    [-[:PART_OF]->(c:Competition {season: $season})]. *)
Definition side_matches (g : graph) (side : rel_type) (team_id : string)
    (season : option string) : list node :=
  t ← match_nodes g LTeam "team_id" team_id;
  r ← out_rels g side t.1;
  m ← labelled g LMatch (rdst r.2);
  match given season with
  | Some s =>
      r2 ← out_rels g PART_OF m.1;
      c ← labelled g LCompetition (rdst r2.2);
      if bool_decide (nprops c.2 !! "season" = Some (VStr s)) then [m.2] else []
  | None => [m.2]
  end.

(** The aggregating [RETURN] of the home and of the away query: [own] is
    the score of the side the team played on. *)
Definition side_stats (own other : string) (ms : list node) : option stats :=
  let o m := prop (nprops m) own in
  let x m := prop (nprops m) other in
  gf ← cy_sum (map o ms);
  ga ← cy_sum (map x ms);
  Some (mkstats (Z.of_nat (length ms))
          (sum_Z (map (fun m => case_one_zero (cy_gt (o m) (x m))) ms))
          (sum_Z (map (fun m => case_one_zero (cy_eq (o m) (x m))) ms))
          (sum_Z (map (fun m => case_one_zero (cy_lt (o m) (x m))) ms))
          gf ga).

Definition get_team_stats (g : graph) (team_id : string)
    (season : option string) : reply (value * stats) :=
  match team_name_query g team_id with
  | [] => NotFound ("Team with ID '" ++ team_id ++ "' not found")
  | team_name :: _ =>
      match side_stats "home_score" "away_score"
              (side_matches g PLAYED_HOME team_id season),
            side_stats "away_score" "home_score"
              (side_matches g PLAYED_AWAY team_id season) with
      | Some home, Some away =>
          Found (team_name,
                 mkstats (matches home + matches away)
                         (wins home + wins away)
                         (draws home + draws away)
                         (losses home + losses away)
                         (goals_for home + goals_for away)
                         (goals_against home + goals_against away))
      | _, _ => Raised
      end
  end.

(** *** Head to head *)

Record h2h_row := mkh2h_row {
  h_date : value;
  h_home_score : value;
  h_away_score : value;
  h_home_team : value;
  h_home_id : value;
  h_away_team : value;
  h_away_id : value
}.

(** [MATCH (t1:Team {team_id: $team1_id}), (t2:Team {team_id: $team2_id})
     RETURN t1.name as team1_name, t2.name as team2_name] *)
Definition team_names_query (g : graph) (team1_id team2_id : string)
  : list (value * value) :=
  t1 ← match_nodes g LTeam "team_id" team1_id;
  t2 ← match_nodes g LTeam "team_id" team2_id;
  [(prop (nprops t1.2) "name", prop (nprops t2.2) "name")].

(** The rows of [MATCH (home:Team)-[:PLAYED_HOME]->(m)<-[:PLAYED_AWAY]-(away:Team)]
    for a bound match [m]. *)
Definition home_away (g : graph) (m : nat) : list (node * node) :=
  rh ← in_rels g PLAYED_HOME m;
  home ← labelled g LTeam (rsrc rh.2);
  ra ← in_rels g PLAYED_AWAY m;
  away ← labelled g LTeam (rsrc ra.2);
  [(home.2, away.2)].

(** [ORDER BY e DESC] on one key *)
Definition desc_leb (a b : value) : bool := order_leb b a.

(** The head-to-head query up to its [RETURN]: the matches that have the
    two teams as home and away side in either order, each with the rows of
    its home and away teams ... *)
Definition h2h_rows (g : graph) (team1_id team2_id : string) : list h2h_row :=
  t1 ← match_nodes g LTeam "team_id" team1_id;
  t2 ← match_nodes g LTeam "team_id" team2_id;
  m ← nodes_with g LMatch;
  if (has_rel g PLAYED_HOME t1.1 m.1 && has_rel g PLAYED_AWAY t2.1 m.1)
     || (has_rel g PLAYED_HOME t2.1 m.1 && has_rel g PLAYED_AWAY t1.1 m.1)
  then
    ha ← home_away g m.1;
    [ mkh2h_row (prop (nprops m.2) "date")
                (prop (nprops m.2) "home_score")
                (prop (nprops m.2) "away_score")
                (prop (nprops ha.1) "name") (prop (nprops ha.1) "team_id")
                (prop (nprops ha.2) "name") (prop (nprops ha.2) "team_id") ]
  else [].

(** ... [ORDER BY m.date DESC] *)
Definition h2h_query (g : graph) (team1_id team2_id : string) : list h2h_row :=
  sort_by (fun a b => desc_leb (h_date a) (h_date b))
          (h2h_rows g team1_id team2_id).

Record h2h_stats := mkh2h_stats {
  team1_wins : Z;
  team2_wins : Z;
  h_draws : Z;
  team1_goals : Z;
  team2_goals : Z
}.

(** One pass of the [for match in matches] loop.  [+=] and [>] on a score
    that is not an [int] raise. *)
Definition h2h_step (team1_id : string) (acc : h2h_stats) (row : h2h_row)
  : option h2h_stats :=
  match h_home_score row, h_away_score row with
  | VInt hs, VInt aws =>
      if bool_decide (h_home_id row = VStr team1_id) then
        let acc' := mkh2h_stats (team1_wins acc) (team2_wins acc) (h_draws acc)
                      (team1_goals acc + hs) (team2_goals acc + aws) in
        if hs >? aws then
          Some (mkh2h_stats (team1_wins acc' + 1) (team2_wins acc') (h_draws acc')
                  (team1_goals acc') (team2_goals acc'))
        else if hs <? aws then
          Some (mkh2h_stats (team1_wins acc') (team2_wins acc' + 1) (h_draws acc')
                  (team1_goals acc') (team2_goals acc'))
        else
          Some (mkh2h_stats (team1_wins acc') (team2_wins acc') (h_draws acc' + 1)
                  (team1_goals acc') (team2_goals acc'))
      else
        let acc' := mkh2h_stats (team1_wins acc) (team2_wins acc) (h_draws acc)
                      (team1_goals acc + aws) (team2_goals acc + hs) in
        if aws >? hs then
          Some (mkh2h_stats (team1_wins acc' + 1) (team2_wins acc') (h_draws acc')
                  (team1_goals acc') (team2_goals acc'))
        else if aws <? hs then
          Some (mkh2h_stats (team1_wins acc') (team2_wins acc' + 1) (h_draws acc')
                  (team1_goals acc') (team2_goals acc'))
        else
          Some (mkh2h_stats (team1_wins acc') (team2_wins acc') (h_draws acc' + 1)
                  (team1_goals acc') (team2_goals acc'))
  | _, _ => None
  end.

Fixpoint h2h_loop (team1_id : string) (acc : h2h_stats) (rows : list h2h_row)
  : option h2h_stats :=
  match rows with
  | [] => Some acc
  | row :: rest =>
      match h2h_step team1_id acc row with
      | Some acc' => h2h_loop team1_id acc' rest
      | None => None
      end
  end.

Record h2h_report := mkh2h_report {
  team1_name : value;
  team2_name : value;
  total_matches : Z;
  h2h : h2h_stats;
  recent : list h2h_row
}.

Definition get_head_to_head (g : graph) (team1_id team2_id : string)
  : reply h2h_report :=
  match team_names_query g team1_id team2_id with
  | [] => NotFound "One or both teams not found"
  | (n1, n2) :: _ =>
      match h2h_query g team1_id team2_id with
      | [] => Nothing ("No matches found between " ++ py_str n1
                       ++ " and " ++ py_str n2)
      | ms =>
          match h2h_loop team1_id (mkh2h_stats 0 0 0 0 0) ms with
          | Some st =>
              Found (mkh2h_report n1 n2 (Z.of_nat (length ms)) st (take 5 ms))
          | None => Raised
          end
      end
  end.

(** *** Competition top scorers *)

Record scorer_row := mkscorer_row {
  sc_player : value;
  sc_player_id : value;
  sc_goals : Z;
  sc_team : value
}.

(** [MATCH (c:Competition {competition_id: $competition_id, season: $season})] *)
Definition competition_nodes (g : graph) (competition_id season : string)
  : list (nat * node) :=
  List.filter (fun c => bool_decide (nprops c.2 !! "season" = Some (VStr season)))
              (match_nodes g LCompetition "competition_id" competition_id).

(** One entry per row of
    [(p:Player)-[g:SCORED_IN]->(m:Match)-[:PART_OF]->(c:Competition {...})]:
    the scoring player. *)
Definition scoring_rows (g : graph) (competition_id season : string)
  : list nat :=
  c ← competition_nodes g competition_id season;
  po ← in_rels g PART_OF c.1;
  m ← labelled g LMatch (rsrc po.2);
  sc ← in_rels g SCORED_IN m.1;
  p ← labelled g LPlayer (rsrc sc.2);
  [p.1].

(** [WITH p, count(g) as goals] *)
Definition goal_counts (g : graph) (competition_id season : string)
  : list (nat * Z) :=
  map (fun kv => (kv.1, Z.of_nat (length kv.2)))
      (group_by (map (fun p => (p, tt)) (scoring_rows g competition_id season))).

Definition goals_desc {A} (a b : A * Z) : bool := b.2 <=? a.2.

(** [ORDER BY goals DESC LIMIT $limit] *)
Definition leading_scorers (g : graph) (competition_id season : string)
    (limit : nat) : list (nat * Z) :=
  take limit (sort_by goals_desc (goal_counts g competition_id season)).

(** The teams reached by [MATCH (p)-[:PLAYS_FOR]->(t:Team)], one per
    relationship. *)
Definition teams_of (g : graph) (p : nat) : list (nat * node) :=
  r ← out_rels g PLAYS_FOR p;
  labelled g LTeam (rdst r.2).

Definition top_scorers_query (g : graph) (competition_id season : string)
    (limit : nat) : list scorer_row :=
  let rows :=
    pg ← leading_scorers g competition_id season limit;
    p ← labelled g LPlayer pg.1;
    t ← teams_of g pg.1;
    [ ((prop (nprops p.2) "name", prop (nprops p.2) "player_id", pg.2),
       prop (nprops t.2) "name") ] in
  sort_by (fun a b => sc_goals b <=? sc_goals a)
    (map (fun kv => mkscorer_row kv.1.1.1 kv.1.1.2 kv.1.2
                      (default VNull (head (collect_distinct kv.2))))
         (group_by rows)).

(** [LIMIT] rejects a negative count, which fails the query. *)
Definition get_competition_top_scorers (g : graph)
    (competition_id season : string) (limit : Z)
  : reply (value * list scorer_row) :=
  match competition_nodes g competition_id season with
  | [] => NotFound ("Competition not found for season " ++ season)
  | c :: _ =>
      if limit <? 0 then Raised
      else Found (prop (nprops c.2) "name",
                  top_scorers_query g competition_id season (Z.to_nat limit))
  end.

(** *** Players who played for both teams *)

Record both_row := mkboth_row {
  b_team1_name : value;
  b_team2_name : value;
  b_player : value;
  b_player_id : value;
  b_team1_start : value;
  b_team1_end : value;
  b_team2_start : value;
  b_team2_end : value
}.

Definition both_teams_query (g : graph) (team1_id team2_id : string)
  : list both_row :=
  let rows :=
    t1 ← match_nodes g LTeam "team_id" team1_id;
    t2 ← match_nodes g LTeam "team_id" team2_id;
    r1 ← in_rels g PLAYS_FOR t1.1;
    p ← labelled g LPlayer (rsrc r1.2);
    r2 ← List.filter (fun r => (rsrc r.2 =? p.1)%nat) (in_rels g PLAYS_FOR t2.1);
    [ mkboth_row (prop (nprops t1.2) "name") (prop (nprops t2.2) "name")
                 (prop (nprops p.2) "name") (prop (nprops p.2) "player_id")
                 (prop (rprops r1.2) "start_date") (prop (rprops r1.2) "end_date")
                 (prop (rprops r2.2) "start_date") (prop (rprops r2.2) "end_date") ] in
  sort_by (fun a b => order_leb (b_team1_start a) (b_team1_start b)) rows.

Definition find_players_who_played_for_both_teams (g : graph)
    (team1_id team2_id : string) : reply (value * value * list both_row) :=
  match both_teams_query g team1_id team2_id with
  | [] => Nothing "No players found who played for both teams"
  | first :: rest =>
      Found (b_team1_name first, b_team2_name first, first :: rest)
  end.

(** *** Player tools *)

Record player_row := mkplayer_row {
  p_player_id : value;
  p_name : value;
  p_nationality : value;
  p_position : value;
  p_birth_date : value;
  p_teams : list value
}.

(** [" AND toLower(p.position) = toLower($position)"], appended to the
    last [WHERE] when a position is given. *)
Definition position_filter `{CaseFolding} (position : option string) (p : node)
    (c : option (option bool)) : option (option bool) :=
  match given position with
  | Some pos => q_and c (cy_eq_ci (prop (nprops p) "position") (VStr pos))
  | None => c
  end.

Definition search_player_query `{CaseFolding} (g : graph) (name : string)
    (team position : option string) : option (list player_row) :=
  let key (p : node) :=
    (prop (nprops p) "player_id", prop (nprops p) "name",
     prop (nprops p) "nationality", prop (nprops p) "position",
     prop (nprops p) "birth_date") in
  rows ← each (nodes_with g LPlayer) (fun p =>
    let named := cy_contains_ci (prop (nprops p.2) "name") (VStr name) in
    match given team with
    | Some tm =>
        c ← named;
        if holds c then
          each (out_rels g PLAYS_FOR p.1) (fun r =>
          each (labelled g LTeam (rdst r.2)) (fun t =>
            c' ← position_filter position p.2
                   (cy_contains_ci (prop (nprops t.2) "name") (VStr tm));
            Some
              (if holds c' then
                 (* OPTIONAL MATCH (p)-[:PLAYS_FOR]->(t:Team), [t] already bound *)
                 match List.filter (fun r' => (rdst r'.2 =? t.1)%nat)
                                   (out_rels g PLAYS_FOR p.1) with
                 | [] => [(key p.2, VNull)]
                 | rs => map (fun _ => (key p.2, prop (nprops t.2) "name")) rs
                 end
               else [])))
        else Some []
    | None =>
        c ← position_filter position p.2 named;
        Some
          (if holds c then
             match teams_of g p.1 with
             | [] => [(key p.2, VNull)]
             | ts => map (fun t => (key p.2, prop (nprops t.2) "name")) ts
             end
           else [])
    end);
  Some (map (fun kv => mkplayer_row kv.1.1.1.1.1 kv.1.1.1.1.2 kv.1.1.1.2
                         kv.1.1.2 kv.1.2 (collect_distinct kv.2))
            (group_by rows)).

(** A failed query raises; so does [', '.join(player['teams'])] on a list
    that holds a value other than text. *)
Definition search_player `{CaseFolding} (g : graph) (name : string)
    (team position : option string) : reply (list player_row) :=
  match search_player_query g name team position with
  | None => Raised
  | Some [] => Nothing ("No players found matching '" ++ name ++ "'")
  | Some results =>
      if forallb (fun row => forallb is_text (p_teams row)) results
      then Found results
      else Raised
  end.






Record stint := mkstint {
  st_team : value;
  st_team_id : value;
  st_start_date : value;
  st_end_date : value
}.

Record career_row := mkcareer_row {
  c_name : value;
  c_birth_date : value;
  c_nationality : value;
  c_position : value;
  c_career : list stint
}.

Definition career_query (g : graph) (player_id : string) : list career_row :=
  let rows :=
    p ← match_nodes g LPlayer "player_id" player_id;
    let key := (prop (nprops p.2) "name", prop (nprops p.2) "birth_date",
                prop (nprops p.2) "nationality", prop (nprops p.2) "position") in
    match (r ← out_rels g PLAYS_FOR p.1;
           t ← labelled g LTeam (rdst r.2);
           [ mkstint (prop (nprops t.2) "name") (prop (nprops t.2) "team_id")
                     (prop (rprops r.2) "start_date")
                     (prop (rprops r.2) "end_date") ]) with
    | [] => [(key, mkstint VNull VNull VNull VNull)]
    | sts => map (fun st => (key, st)) sts
    end in
  map (fun kv => mkcareer_row kv.1.1.1.1 kv.1.1.1.2 kv.1.1.2 kv.1.2 kv.2)
      (group_by rows).

(** [x or ""] *)
Definition or_empty (v : value) : value := if truthy v then v else VStr "".

(** [sorted(l, key=...)]: stable, ascending; comparing keys of different
    types (or two [None]) raises [TypeError]. *)
Definition py_sorted {A} (key : A -> value) (l : list A) : option (list A) :=
  match l with
  | [] => Some []
  | x :: rest =>
      if forallb (fun y => bool_decide (is_Some (cy_compare (key x) (key y)))) rest
      then Some (sort_by (fun a b => order_leb (key a) (key b)) l)
      else None
  end.

Definition get_player_career (g : graph) (player_id : string)
  : reply career_row :=
  match career_query g player_id with
  | [] => NotFound ("Player with ID '" ++ player_id ++ "' not found")
  | player :: _ =>
      match py_sorted (fun c => or_empty (st_start_date c))
              (List.filter (fun c => truthy (st_team c)) (c_career player)) with
      | Some career =>
          Found (mkcareer_row (c_name player) (c_birth_date player)
                   (c_nationality player) (c_position player) career)
      | None => Raised
      end
  end.

(** *** Match search *)

Record match_row := mkmatch_row {
  m_match_id : value;
  m_date : value;
  m_home_score : value;
  m_away_score : value;
  m_home_team : value;
  m_away_team : value;
  m_competition : value;
  m_season : value
}.

(** A condition that is only added when its parameter is given. *)
Definition when_given (o : option string) (c : string -> option (option bool))
  : option (option bool) :=
  match given o with
  | Some x => c x
  | None => Some (Some true)
  end.

Definition search_matches_query `{CaseFolding} (g : graph)
    (team date_from date_to competition : option string)
  : option (list match_row) :=
  rows ← each (nodes_with g LMatch) (fun m =>
          each (home_away g m.1) (fun ha =>
          each (out_rels g PART_OF m.1) (fun po =>
          each (labelled g LCompetition (rdst po.2)) (fun c =>
    cond ←
      q_and (when_given team (fun tm =>
               q_or (cy_contains_ci (prop (nprops ha.1) "name") (VStr tm))
                    (cy_contains_ci (prop (nprops ha.2) "name") (VStr tm))))
     (q_and (when_given date_from (fun d =>
               Some (cy_ge (prop (nprops m.2) "date") (VStr d))))
     (q_and (when_given date_to (fun d =>
               Some (cy_le (prop (nprops m.2) "date") (VStr d))))
            (when_given competition (fun cn =>
               cy_contains_ci (prop (nprops c.2) "name") (VStr cn)))));
    Some
      (if holds cond
       then [ mkmatch_row (prop (nprops m.2) "match_id") (prop (nprops m.2) "date")
                (prop (nprops m.2) "home_score") (prop (nprops m.2) "away_score")
                (prop (nprops ha.1) "name") (prop (nprops ha.2) "name")
                (prop (nprops c.2) "name") (prop (nprops c.2) "season") ]
       else [])))));
  Some (take 20 (sort_by (fun a b => desc_leb (m_date a) (m_date b)) rows)).

Definition search_matches `{CaseFolding} (g : graph)
    (team date_from date_to competition : option string)
  : reply (list match_row) :=
  match search_matches_query g team date_from date_to competition with
  | None => Raised
  | Some [] => Nothing "No matches found matching the criteria"
  | Some results => Found results
  end.

(** *** Common teammates *)

Record teammate_row := mkteammate_row {
  tm_name : value;
  tm_player_id : value;
  teams_with_p1 : list value;
  teams_with_p2 : list value
}.

Definition player_names_query (g : graph) (player1_id player2_id : string)
  : list (value * value) :=
  p1 ← match_nodes g LPlayer "player_id" player1_id;
  p2 ← match_nodes g LPlayer "player_id" player2_id;
  [(prop (nprops p1.2) "name", prop (nprops p2.2) "name")].

(** [(p)-[:PLAYS_FOR]->(t:Team)<-[:PLAYS_FOR]-(teammate:Player)]: the two
    relationships of one pattern are distinct. *)
Definition club_mates (g : graph) (p : nat) : list ((nat * node) * (nat * node)) :=
  r ← out_rels g PLAYS_FOR p;
  t ← labelled g LTeam (rdst r.2);
  r' ← List.filter (fun r' => negb (r'.1 =? r.1)%nat) (in_rels g PLAYS_FOR t.1);
  mate ← labelled g LPlayer (rsrc r'.2);
  [(t, mate)].

Definition common_teammates_query (g : graph) (player1_id player2_id : string)
  : list teammate_row :=
  let rows :=
    p1 ← match_nodes g LPlayer "player_id" player1_id;
    tm ← club_mates g p1.1;
    p2 ← match_nodes g LPlayer "player_id" player2_id;
    tm2 ← List.filter (fun x => (x.2.1 =? tm.2.1)%nat) (club_mates g p2.1);
    if holds (cy_and (cy_neq (prop (nprops tm.2.2) "player_id") (VStr player1_id))
                     (cy_neq (prop (nprops tm.2.2) "player_id") (VStr player2_id)))
    then [ ((prop (nprops tm.2.2) "name", prop (nprops tm.2.2) "player_id"),
            (prop (nprops tm.1.2) "name", prop (nprops tm2.1.2) "name")) ]
    else [] in
  map (fun kv => mkteammate_row kv.1.1 kv.1.2
                   (collect_distinct (map fst kv.2))
                   (collect_distinct (map snd kv.2)))
      (group_by rows).

(** The two [', '.join(...)] of the report raise on a list that holds a
    value other than text. *)
Definition find_common_teammates (g : graph) (player1_id player2_id : string)
  : reply (value * value * list teammate_row) :=
  match player_names_query g player1_id player2_id with
  | [] => NotFound "One or both players not found"
  | (n1, n2) :: _ =>
      let rows := common_teammates_query g player1_id player2_id in
      if forallb (fun row => forallb is_text (teams_with_p1 row)
                             && forallb is_text (teams_with_p2 row)) rows
      then Found (n1, n2, rows)
      else Raised
  end.

(** *** Team search *)

Record team_row := mkteam_row {
  t_team_id : value;
  t_name : value;
  t_city : value;
  t_stadium : value;
  t_founded_year : value;
  t_colors : value
}.

Definition team_row_of (t : node) : team_row :=
  mkteam_row (prop (nprops t) "team_id") (prop (nprops t) "name")
             (prop (nprops t) "city") (prop (nprops t) "stadium")
             (prop (nprops t) "founded_year") (prop (nprops t) "colors").

(** [MATCH (t:Team) WHERE toLower(t.name) CONTAINS toLower($name) RETURN ...] *)
Definition search_team_query `{CaseFolding} (g : graph) (name : string)
  : option (list team_row) :=
  each (nodes_with g LTeam) (fun t =>
    c ← cy_contains_ci (prop (nprops t.2) "name") (VStr name);
    Some (if holds c then [team_row_of t.2] else [])).

Definition search_team `{CaseFolding} (g : graph) (name : string)
  : reply (list team_row) :=
  match search_team_query g name with
  | None => Raised
  | Some [] => Nothing ("No teams found matching '" ++ name ++ "'")
  | Some results => Found results
  end.

(** *** Match details *)

Record match_details := mkmatch_details {
  d_match_id : value;
  d_date : value;
  d_home_score : value;
  d_away_score : value;
  d_attendance : value;
  d_home_team : value;
  d_away_team : value;
  d_competition : value;
  d_season : value
}.

Record goal_row := mkgoal_row {
  gl_player : value;
  gl_minute : value;
  gl_type : value;
  gl_team : value
}.

(** [MATCH (home:Team)-[:PLAYED_HOME]->(m:Match {match_id: $match_id})<-[:PLAYED_AWAY]-(away:Team)
     MATCH (m)-[:PART_OF]->(c:Competition) RETURN ...] *)
Definition match_details_query (g : graph) (match_id : string)
  : list match_details :=
  m ← match_nodes g LMatch "match_id" match_id;
  ha ← home_away g m.1;
  po ← out_rels g PART_OF m.1;
  c ← labelled g LCompetition (rdst po.2);
  [ mkmatch_details
      (prop (nprops m.2) "match_id") (prop (nprops m.2) "date")
      (prop (nprops m.2) "home_score") (prop (nprops m.2) "away_score")
      (prop (nprops m.2) "attendance")
      (prop (nprops ha.1) "name") (prop (nprops ha.2) "name")
      (prop (nprops c.2) "name") (prop (nprops c.2) "season") ].

(** [MATCH (p:Player)-[g:SCORED_IN]->(m:Match {match_id: $match_id})
     MATCH (p)-[:PLAYS_FOR]->(t:Team)
     WHERE (t)-[:PLAYED_HOME]->(m) OR (t)-[:PLAYED_AWAY]->(m)
     RETURN ... ORDER BY g.minute] *)
Definition scorers_query (g : graph) (match_id : string) : list goal_row :=
  let rows :=
    m ← match_nodes g LMatch "match_id" match_id;
    sc ← in_rels g SCORED_IN m.1;
    p ← labelled g LPlayer (rsrc sc.2);
    pf ← out_rels g PLAYS_FOR p.1;
    t ← labelled g LTeam (rdst pf.2);
    if has_rel g PLAYED_HOME t.1 m.1 || has_rel g PLAYED_AWAY t.1 m.1
    then [ mkgoal_row (prop (nprops p.2) "name")
                      (prop (rprops sc.2) "minute")
                      (prop (rprops sc.2) "goal_type")
                      (prop (nprops t.2) "name") ]
    else [] in
  sort_by (fun a b => order_leb (gl_minute a) (gl_minute b)) rows.

(** [if match["attendance"]:] followed by the format [{...:,}], which
    takes a number and raises on anything else. *)
Definition attendance_prints (v : value) : bool :=
  match v with
  | VInt _ => true
  | v => negb (truthy v)
  end.

Definition get_match_details (g : graph) (match_id : string)
  : reply (match_details * list goal_row) :=
  match match_details_query g match_id with
  | [] => NotFound ("Match with ID '" ++ match_id ++ "' not found")
  | mt :: _ =>
      if attendance_prints (d_attendance mt)
      then Found (mt, scorers_query g match_id)
      else Raised
  end.

(** ** Example graphs *)

(** Flamengo with two home matches, M001 (2-1) and M005 (3-2), and no away
    match. *)
Definition two_home_wins_graph : graph :=
  load_all load_match
    [ Match.mk "M001" (mkdate 2023 4 16) "T001" "T002" 2 1 "C001" (Some "S001") (Some 65000);
      Match.mk "M005" (mkdate 2023 8 12) "T001" "T004" 3 2 "C001" (Some "S001") (Some 70000) ]
   (load_competition
      (Competition.mk "C001" "Campeonato Brasileiro Série A" "2023" "league" 1)
      (load_all load_team
         [ Team.mk "T001" "Flamengo" "Rio de Janeiro" (Some "Maracanã") (Some 1895) (Some "Red and Black");
           Team.mk "T002" "Fluminense" "Rio de Janeiro" (Some "Maracanã") (Some 1902) (Some "Maroon, Green and White");
           Team.mk "T004" "Palmeiras" "São Paulo" (Some "Allianz Parque") (Some 1914) (Some "Green and White") ]
         empty_graph)).

(** A player loaded with a jersey number and a birth date, then loaded
    again with a new name and without them. *)
Definition gabigol : Player.t :=
  Player.mk "P001" "Gabriel Barbosa (Gabigol)" (Some (mkdate 1996 8 30))
            "Brazilian" "Forward" (Some 10).

Definition gabigol_renamed : Player.t :=
  Player.mk "P001" "Gabigol" None "Brazilian" "Forward" None.

(** Two players of both Flamengo and Grêmio: the first joined Flamengo
    through the FIFA data (a contract with a season and no dates), the
    second through a dated contract. *)
Definition both_teams_graph : graph :=
  load_player_contract
    (PlayerContract.mk "P002" "T007" (mkdate 2015 1 1) None)
   (load_player_contract
      (PlayerContract.mk "P002" "T001" (mkdate 2020 1 1) None)
     (load_player_contract
        (PlayerContract.mk "P001" "T007" (mkdate 2010 1 1) (Some (mkdate 2012 12 31)))
       (kaggle_contract_upsert "P001" "T001" "2022"
         (load_all load_player
            [ Player.mk "P001" "Gabriel Barbosa (Gabigol)" (Some (mkdate 1996 8 30)) "Brazilian" "Forward" (Some 10);
              Player.mk "P002" "Pedro" (Some (mkdate 1997 6 20)) "Brazilian" "Forward" (Some 9) ]
            (load_all load_team
               [ Team.mk "T001" "Flamengo" "Rio de Janeiro" (Some "Maracanã") (Some 1895) (Some "Red and Black");
                 Team.mk "T007" "Grêmio" "Porto Alegre" (Some "Arena do Grêmio") (Some 1903) (Some "Blue, Black and White") ]
               empty_graph))))).

(** Two scorers in C001/2023: P001 with two goals and no contract, P002
    with one goal and a contract at Fluminense. *)
Definition teamless_scorer_writes : list write :=
  [ WTeam (Team.mk "T001" "Flamengo" "Rio de Janeiro" (Some "Maracanã") (Some 1895) (Some "Red and Black"));
    WTeam (Team.mk "T002" "Fluminense" "Rio de Janeiro" (Some "Maracanã") (Some 1902) (Some "Maroon, Green and White"));
    WCompetition (Competition.mk "C001" "Campeonato Brasileiro Série A" "2023" "league" 1);
    WPlayer (Player.mk "P001" "Gabriel Barbosa (Gabigol)" (Some (mkdate 1996 8 30)) "Brazilian" "Forward" (Some 10));
    WPlayer (Player.mk "P002" "Pedro" (Some (mkdate 1997 6 20)) "Brazilian" "Forward" (Some 9));
    WMatch (Match.mk "M001" (mkdate 2023 4 16) "T001" "T002" 2 1 "C001" (Some "S001") (Some 65000));
    WMatch (Match.mk "M006" (mkdate 2023 9 3) "T002" "T001" 0 3 "C001" (Some "S001") (Some 60000));
    WContract (PlayerContract.mk "P002" "T002" (mkdate 2020 1 1) None);
    WGoal (Goal.mk "P001" "M001" 23 "regular");
    WGoal (Goal.mk "P002" "M001" 67 "penalty");
    WGoal (Goal.mk "P001" "M006" 15 "regular") ].

Definition teamless_scorer_graph : graph := run teamless_scorer_writes empty_graph.

(** M001 loaded with Corinthians as home side, then loaded again with
    Flamengo as home side: the first [PLAYED_HOME] relationship stays. *)
Definition reloaded_match_writes : list write :=
  [ WTeam (Team.mk "T001" "Flamengo" "Rio de Janeiro" (Some "Maracanã") (Some 1895) (Some "Red and Black"));
    WTeam (Team.mk "T002" "Fluminense" "Rio de Janeiro" (Some "Maracanã") (Some 1902) (Some "Maroon, Green and White"));
    WTeam (Team.mk "T003" "Corinthians" "São Paulo" (Some "Neo Química Arena") (Some 1910) (Some "Black and White"));
    WCompetition (Competition.mk "C001" "Campeonato Brasileiro Série A" "2023" "league" 1);
    WMatch (Match.mk "M001" (mkdate 2023 4 16) "T003" "T002" 2 1 "C001" (Some "S001") (Some 65000));
    WMatch (Match.mk "M001" (mkdate 2023 4 16) "T001" "T002" 2 1 "C001" (Some "S001") (Some 65000)) ].

Definition reloaded_match_graph : graph := run reloaded_match_writes empty_graph.

(** A match in which Flamengo is entered as both sides. *)
Definition self_match_writes : list write :=
  [ WTeam (Team.mk "T001" "Flamengo" "Rio de Janeiro" (Some "Maracanã") (Some 1895) (Some "Red and Black"));
    WCompetition (Competition.mk "C001" "Campeonato Brasileiro Série A" "2023" "league" 1);
    WMatch (Match.mk "M001" (mkdate 2023 4 16) "T001" "T001" 2 1 "C001" (Some "S001") (Some 65000)) ].

Definition self_match_graph : graph := run self_match_writes empty_graph.

(** ** Invariants and notions used in the statements *)

(** *** The store *)

(** Between two nodes there is at most one relationship of each type. *)
Definition rels_unique (g : graph) : Prop :=
  forall t s d, (length (List.filter (rel_is t s d) (rels g)) <= 1)%nat.

(** The identifying property of each label. *)
Definition key_of (l : label) : string :=
  match l with
  | LPlayer => "player_id"
  | LTeam => "team_id"
  | LMatch => "match_id"
  | LCompetition => "competition_id"
  | LStadium => "stadium_id"
  | LCoach => "coach_id"
  end.

(** An identifier names at most one node of its label. *)
Definition ids_unique (g : graph) : Prop :=
  forall l id,
    (length (List.filter (has_key l (key_of l) id) (nodes g)) <= 1)%nat.

(** Both hold of every graph the loaders build. *)
Definition wf (g : graph) : Prop := rels_unique g /\ ids_unique g.

(** Exactly one relationship of type [t] joins [s] to [d], and it reads
    as the [SET] list [sets] says. *)
Definition carries (t : rel_type) (sets : list (string * value)) (s d : nat)
    (g : graph) : Prop :=
  exists r, List.filter (rel_is t s d) (rels g) = [r]
            /\ forall k v, (k, v) ∈ sets -> prop (rprops r) k = v.

(** The properties [load_player] writes. *)
Definition player_sets (player : Player.t) : list (string * value) :=
  [ ("name", VStr (Player.name player));
    ("birth_date", opt_iso (Player.birth_date player));
    ("nationality", VStr (Player.nationality player));
    ("position", VStr (Player.position player));
    ("jersey_number", opt_int (Player.jersey_number player)) ].

(** No two [PLAYED_HOME] relationships end at the same match. *)
Definition one_home_side (g : graph) : Prop :=
  NoDup (map rdst
           (List.filter (fun r => bool_decide (rtype r = PLAYED_HOME)) (rels g))).

(** *** Top scorers *)

(** The grouping key of the final [RETURN], as a function of a leading
    scorer. *)
Definition scorer_key (g : graph) (pg : nat * Z) : value * value * Z :=
  let m := from_option nprops ∅ (nodes g !! pg.1) in
  (prop m "name", prop m "player_id", pg.2).

(** *** Head-to-head statistics as a sum over the matches *)

Definition add_stats (a b : h2h_stats) : h2h_stats :=
  mkh2h_stats (team1_wins a + team1_wins b) (team2_wins a + team2_wins b)
              (h_draws a + h_draws b)
              (team1_goals a + team1_goals b) (team2_goals a + team2_goals b).

Definition no_stats : h2h_stats := mkh2h_stats 0 0 0 0 0.

(** The contribution of one match. *)
Definition h2h_delta (team1_id : string) (row : h2h_row) : option h2h_stats :=
  h2h_step team1_id no_stats row.

(** The sum of the contributions, when every match has one. *)
Fixpoint h2h_total (team1_id : string) (rows : list h2h_row)
  : option h2h_stats :=
  match rows with
  | [] => Some no_stats
  | row :: rest =>
      match h2h_delta team1_id row, h2h_total team1_id rest with
      | Some d, Some s => Some (add_stats d s)
      | _, _ => None
      end
  end.

(** The statistics with the two teams exchanged. *)
Definition swap_stats (s : h2h_stats) : h2h_stats :=
  mkh2h_stats (team2_wins s) (team1_wins s) (h_draws s)
              (team2_goals s) (team1_goals s).

(** Two head-to-head replies that are mirror images of each other: the
    same kind of reply, and in a report the wins and the goals of the two
    teams exchanged, the draws and the number of matches equal. *)
Inductive mirrored : reply h2h_report -> reply h2h_report -> Prop :=
| mirrored_raised : mirrored Raised Raised
| mirrored_not_found msg : mirrored (NotFound msg) (NotFound msg)
| mirrored_nothing msg msg' : mirrored (Nothing msg) (Nothing msg')
| mirrored_found x y :
    team1_wins (h2h x) = team2_wins (h2h y) ->
    team2_wins (h2h x) = team1_wins (h2h y) ->
    h_draws (h2h x) = h_draws (h2h y) ->
    total_matches x = total_matches y ->
    team1_goals (h2h x) = team2_goals (h2h y) ->
    team2_goals (h2h x) = team1_goals (h2h y) ->
    mirrored (Found x) (Found y).

(** *** Searches that match nothing *)




(** *** What a write keeps *)

(** The node keeps its label and its identifier. *)
Definition same_node (n n' : node) : Prop :=
  nlabel n' = nlabel n
  /\ nprops n' !! key_of (nlabel n) = nprops n !! key_of (nlabel n).

(** The relationship keeps its type and its endpoints. *)
Definition same_ends (r r' : rel) : Prop :=
  rtype r' = rtype r /\ rsrc r' = rsrc r /\ rdst r' = rdst r.

(** Every node and every relationship of [g] is still in [g'], in its
    place. *)
Definition keeps (g g' : graph) : Prop :=
  (forall i n, nodes g !! i = Some n ->
               exists n', nodes g' !! i = Some n' /\ same_node n n')
  /\ (forall j r, rels g !! j = Some r ->
                  exists r', rels g' !! j = Some r' /\ same_ends r r').

(** The labels a relationship type joins. *)
Definition src_label (t : rel_type) : label :=
  match t with
  | PLAYS_FOR | SCORED_IN | YELLOW_CARD_IN | RED_CARD_IN => LPlayer
  | PLAYED_HOME | PLAYED_AWAY => LTeam
  | PART_OF => LMatch
  end.

Definition dst_label (t : rel_type) : label :=
  match t with
  | PLAYS_FOR => LTeam
  | PART_OF => LCompetition
  | PLAYED_HOME | PLAYED_AWAY | SCORED_IN | YELLOW_CARD_IN | RED_CARD_IN => LMatch
  end.

Definition has_label (g : graph) (i : nat) (l : label) : Prop :=
  exists n, nodes g !! i = Some n /\ nlabel n = l.

(** Every relationship joins two nodes of the graph, of the labels its
    type asks for. *)
Definition rels_typed (g : graph) : Prop :=
  forall r, r ∈ rels g ->
    has_label g (rsrc r) (src_label (rtype r))
    /\ has_label g (rdst r) (dst_label (rtype r)).

(** *** The types of the values the loaders write *)

Definition text_or_absent (v : value) : Prop := v = VNull \/ exists s, v = VStr s.

Definition int_or_absent (v : value) : Prop := v = VNull \/ exists n, v = VInt n.

(** The property [k] of every node labelled [l] is text, or absent. *)
Definition texts (g : graph) (l : label) (k : string) : Prop :=
  forall n, n ∈ nodes_with g l -> text_or_absent (prop (nprops n.2) k).

(** A match carries its date as text and both scores as numbers; its
    attendance is a number when it has one. *)
Definition match_scored (n : node) : Prop :=
  nlabel n = LMatch ->
  (exists d, prop (nprops n) "date" = VStr d)
  /\ (exists h, prop (nprops n) "home_score" = VInt h)
  /\ (exists a, prop (nprops n) "away_score" = VInt a)
  /\ int_or_absent (prop (nprops n) "attendance").

(** The dates of a contract are text, when it has them. *)
Definition contract_dated (r : rel) : Prop :=
  rtype r = PLAYS_FOR ->
  text_or_absent (prop (rprops r) "start_date")
  /\ text_or_absent (prop (rprops r) "end_date").

Definition values_typed (g : graph) : Prop :=
  (forall n, n ∈ nodes g -> match_scored n)
  /\ (forall r, r ∈ rels g -> contract_dated r).

(** *** Relationships an upsert leaves alone *)

(** Some relationship of type [t] joins [s] to [d], and each of them
    already reads as the [SET] list [sets] says. *)
Definition settled (sets : list (string * value)) (t : rel_type) (s d : nat)
    (g : graph) : Prop :=
  existsb (rel_is t s d) (rels g) = true
  /\ forall r, r ∈ rels g -> rel_is t s d r = true -> set_rel sets r = r.

(** * Properties *)

(** A string is not among the listed ones; a pair is among the listed
    ones. *)
Ltac not_listed :=
  let H := fresh "H" in
  simpl; intros H;
  repeat (apply elem_of_cons in H as [H|H]; [discriminate|]);
  inversion H.

Ltac listed := simpl; repeat constructor.

(** ** Sorting *)

Section Sorting.
Context {A : Type} (leb : A -> A -> bool).

Lemma insert_by_perm x l : Permutation (insert_by leb x l) (x :: l).
Proof.
  induction l as [|y l IH]; simpl; [reflexivity|].
  destruct (leb x y); [reflexivity|].
  rewrite IH. apply perm_swap.
Qed.

Lemma sort_by_perm l : Permutation (sort_by leb l) l.
Proof.
  induction l as [|x l IH]; simpl; [constructor|].
  rewrite insert_by_perm. now constructor.
Qed.

Lemma sort_by_length l : length (sort_by leb l) = length l.
Proof. apply Permutation_length, sort_by_perm. Qed.

Lemma sort_by_nil l : sort_by leb l = [] -> l = [].
Proof.
  intros H. pose proof (sort_by_perm l) as P. rewrite H in P.
  now apply Permutation_nil.
Qed.

Hypothesis leb_total : forall x y, leb x y = true \/ leb y x = true.

Lemma insert_by_sorted x l :
  Sorted (fun a b => leb a b = true) l ->
  Sorted (fun a b => leb a b = true) (insert_by leb x l).
Proof.
  induction 1 as [|y l Hs IH Hd]; simpl.
  - repeat constructor.
  - destruct (leb x y) eqn:E.
    + constructor; [now constructor | now constructor].
    + constructor; [exact IH|].
      destruct Hd as [|z l' Hz]; simpl.
      * constructor. destruct (leb_total x y); congruence.
      * destruct (leb x z); constructor; trivial.
        destruct (leb_total x y); congruence.
Qed.

Lemma sort_by_sorted l : Sorted (fun a b => leb a b = true) (sort_by leb l).
Proof.
  induction l as [|x l IH]; simpl; [constructor|].
  now apply insert_by_sorted.
Qed.
End Sorting.

(** Adjacent entries of a sorted list are related. *)
Lemma Sorted_adjacent {A} (R : A -> A -> Prop) (l : list A) i a b :
  Sorted R l -> l !! i = Some a -> l !! S i = Some b -> R a b.
Proof.
  intros Hs. revert i. induction Hs as [|x l Hs IH Hd]; intros i Ha Hb.
  - discriminate.
  - destruct i as [|i]; simpl in *.
    + injection Ha as <-. destruct Hd as [|y l' Hy]; simpl in Hb.
      * discriminate.
      * now injection Hb as <-.
    + eapply IH; eauto.
Qed.

(** ** The orders used by [ORDER BY] are total *)

Lemma date_compare_antisym a b : date_compare b a = CompOpp (date_compare a b).
Proof.
  unfold date_compare.
  rewrite (Z.compare_antisym (year a) (year b)).
  rewrite (Z.compare_antisym (month a) (month b)).
  rewrite (Z.compare_antisym (day a) (day b)).
  destruct (year a ?= year b); simpl; trivial;
    destruct (month a ?= month b); simpl; trivial.
Qed.

Lemma order_compare_antisym a b : order_compare b a = CompOpp (order_compare a b).
Proof.
  unfold order_compare.
  destruct a, b; simpl; trivial.
  - apply Z.compare_antisym.
  - apply String.compare_antisym.
  - apply date_compare_antisym.
Qed.

Lemma order_leb_total a b : order_leb a b = true \/ order_leb b a = true.
Proof.
  unfold order_leb. rewrite (order_compare_antisym a b).
  destruct (order_compare a b); simpl; auto.
Qed.

Lemma lex_leb_total a b : lex_leb a b = true \/ lex_leb b a = true.
Proof.
  unfold lex_leb. rewrite (order_compare_antisym a.1 b.1).
  destruct (order_compare a.1 b.1); simpl; auto.
  apply order_leb_total.
Qed.

Lemma goals_geb_total (x y : Z) : (y <=? x) = true \/ (x <=? y) = true.
Proof. destruct (Z.leb_spec y x); [auto|right; apply Z.leb_le; lia]. Qed.

(** ** Pattern steps, characterised *)

Lemma elem_of_map {A B} (f : A -> B) (l : list A) (y : B) :
  y ∈ map f l <-> exists x, y = f x /\ x ∈ l.
Proof. exact (list_elem_of_fmap f l y). Qed.

Lemma elem_of_filter_bool {A} (f : A -> bool) (l : list A) (x : A) :
  x ∈ List.filter f l <-> x ∈ l /\ f x = true.
Proof. rewrite !list_elem_of_In. apply filter_In. Qed.

Lemma elem_of_labelled g l i p :
  p ∈ labelled g l i <-> p.1 = i /\ nodes g !! i = Some p.2 /\ nlabel p.2 = l.
Proof.
  unfold labelled. destruct p as [j n]; simpl.
  destruct (nodes g !! i) as [m|] eqn:E.
  - case_bool_decide as Hl.
    + rewrite list_elem_of_singleton. split.
      * intros [= -> ->]. auto.
      * intros (-> & [= ->] & _). reflexivity.
    + split; [intros H; inversion H|].
      intros (_ & [= ->] & Hn). contradiction.
  - split; [intros H; inversion H|]. intros (_ & H & _). discriminate.
Qed.

Lemma group_by_length {K V} `{EqDecision K} (rows : list (K * V)) :
  length (group_by rows) = length (remove_dups (map fst rows)).
Proof. unfold group_by. apply length_map. Qed.

Lemma group_by_keys {K V} `{EqDecision K} (rows : list (K * V)) :
  map fst (group_by rows) = remove_dups (map fst rows).
Proof.
  unfold group_by. rewrite map_map. simpl. apply map_id.
Qed.

(** A duplicate-free list drawn from [k] is no longer than [k]. *)
Lemma NoDup_within_length {A} (l k : list A) :
  NoDup l -> (forall x, x ∈ l -> x ∈ k) -> (length l <= length k)%nat.
Proof.
  intros Hn Hin. apply submseteq_length. now apply NoDup_submseteq.
Qed.

(** ** Top scorers *)

Lemma top_scorers_length g competition_id season limit :
  (length (top_scorers_query g competition_id season limit) <= limit)%nat.
Proof.
  unfold top_scorers_query.
  rewrite sort_by_length, length_map, group_by_length.
  transitivity (length (leading_scorers g competition_id season limit));
    [|unfold leading_scorers; rewrite length_take; lia].
  rewrite <- (length_map (scorer_key g)).
  apply NoDup_within_length; [apply NoDup_remove_dups|].
  intros k Hk. rewrite elem_of_remove_dups in Hk.
  apply elem_of_map in Hk as ([k' tn] & -> & Hk). simpl.
  apply list_elem_of_bind in Hk as (pg & Hk & Hpg).
  apply list_elem_of_bind in Hk as (pn & Hk & Hpn).
  apply list_elem_of_bind in Hk as (t & Hk & _).
  apply list_elem_of_singleton in Hk. injection Hk as -> _.
  apply elem_of_labelled in Hpn as (_ & Hn & _).
  apply elem_of_map. exists pg. split; [|exact Hpg].
  unfold scorer_key. now rewrite Hn.
Qed.

Lemma top_scorers_sorted g competition_id season limit :
  Sorted (fun a b => (sc_goals b <=? sc_goals a) = true)
         (top_scorers_query g competition_id season limit).
Proof.
  unfold top_scorers_query.
  apply (sort_by_sorted (fun a b => sc_goals b <=? sc_goals a)).
  intros x y. apply goals_geb_total.
Qed.

(** The tool answers for every competition that exists and every
    non-negative limit. *)
Lemma top_scorers_answers g competition_id season limit :
  competition_nodes g competition_id season <> [] -> 0 <= limit ->
  exists name,
    get_competition_top_scorers g competition_id season limit
    = Found (name, top_scorers_query g competition_id season (Z.to_nat limit)).
Proof.
  intros Hc Hl. unfold get_competition_top_scorers.
  destruct (competition_nodes g competition_id season) as [|c cs]; [contradiction|].
  destruct (Z.ltb_spec limit 0); [lia|]. eauto.
Qed.

(** C4: the top-scorers list is in descending order of goals, position by
    position, and has at most [limit] entries. *)
Theorem top_scorers_descending_and_limited
    g competition_id season limit name rows :
  get_competition_top_scorers g competition_id season limit = Found (name, rows) ->
  (forall i a b, rows !! i = Some a -> rows !! S i = Some b ->
                 sc_goals a >= sc_goals b)
  /\ Z.of_nat (length rows) <= limit.
Proof.
  unfold get_competition_top_scorers.
  destruct (competition_nodes g competition_id season) as [|c cs]; [discriminate|].
  destruct (Z.ltb_spec limit 0) as [|Hl]; [discriminate|].
  intros [= _ <-]. split.
  - intros i a b Ha Hb.
    pose proof (Sorted_adjacent _ _ i a b
                  (top_scorers_sorted g competition_id season (Z.to_nat limit))
                  Ha Hb) as H.
    simpl in H. apply Z.leb_le in H. lia.
  - pose proof (top_scorers_length g competition_id season (Z.to_nat limit)). lia.
Qed.

Lemma top_scorers_descending_and_limited_witness :
  (forall i a b,
      top_scorers_query sample_graph "C001" "2023" 5 !! i = Some a ->
      top_scorers_query sample_graph "C001" "2023" 5 !! S i = Some b ->
      sc_goals a >= sc_goals b)
  /\ Z.of_nat (length (top_scorers_query sample_graph "C001" "2023" 5)) <= 5.
Proof.
  apply (top_scorers_descending_and_limited sample_graph "C001" "2023" 5
           (VStr "Campeonato Brasileiro Série A")).
  vm_compute. reflexivity.
Defined.

(** ** Properties and relationships after a [SET] *)

Lemma prop_set_prop m kv k :
  prop (set_prop m kv) k = if bool_decide (kv.1 = k) then kv.2 else prop m k.
Proof.
  unfold set_prop, prop. destruct kv as [k' v]; simpl.
  case_bool_decide as E.
  - subst k'. destruct v; simpl;
      rewrite ?lookup_delete_eq, ?lookup_insert_eq; reflexivity.
  - destruct v; simpl;
      rewrite ?lookup_delete_ne, ?lookup_insert_ne by exact E; reflexivity.
Qed.

Lemma lookup_set_prop_ne m kv k :
  kv.1 <> k -> set_prop m kv !! k = m !! k.
Proof.
  unfold set_prop. destruct kv as [k' v]; simpl. intros E.
  destruct v; rewrite ?lookup_delete_ne, ?lookup_insert_ne by exact E; reflexivity.
Qed.

(** Properties that a [SET] list does not name keep their value. *)
Lemma lookup_set_props_other sets m k :
  k ∉ map fst sets -> set_props sets m !! k = m !! k.
Proof.
  unfold set_props. revert m.
  induction sets as [|kv sets IH]; intros m Hk; simpl; [reflexivity|].
  rewrite IH.
  - apply lookup_set_prop_ne. intros E. apply Hk. simpl. rewrite E. left.
  - intros H. apply Hk. simpl. now right.
Qed.

Lemma prop_set_props_other sets m k :
  k ∉ map fst sets -> prop (set_props sets m) k = prop m k.
Proof. intros H. unfold prop. now rewrite lookup_set_props_other. Qed.

(** A property named once in a [SET] list reads as the value written;
    writing null leaves it reading as null. *)
Lemma prop_set_props_in sets m k v :
  NoDup (map fst sets) -> (k, v) ∈ sets -> prop (set_props sets m) k = v.
Proof.
  unfold set_props. revert m.
  induction sets as [|kv sets IH]; intros m Hn Hin; simpl.
  - inversion Hin.
  - simpl in Hn. apply NoDup_cons in Hn as [Hk Hn].
    apply elem_of_cons in Hin as [<-|Hin].
    + fold (set_props sets (set_prop m (k, v))).
      rewrite prop_set_props_other by exact Hk.
      rewrite prop_set_prop. simpl. now rewrite bool_decide_eq_true_2.
    + now apply IH.
Qed.

Lemma rel_is_spec t s d r :
  rel_is t s d r = true <-> rtype r = t /\ rsrc r = s /\ rdst r = d.
Proof.
  unfold rel_is. rewrite !andb_true_iff, bool_decide_eq_true, !Nat.eqb_eq.
  tauto.
Qed.

Lemma rel_is_set_rel t s d sets r :
  rel_is t s d (set_rel sets r) = rel_is t s d r.
Proof. reflexivity. Qed.

Lemma rel_is_update t s d t' s' d' sets r :
  rel_is t' s' d' (if rel_is t s d r then set_rel sets r else r)
  = rel_is t' s' d' r.
Proof. destruct (rel_is t s d r); reflexivity. Qed.

(** ** Invariants of the store *)

Section ListFacts.
Context {A : Type}.

Lemma filter_map_stable (p : A -> bool) (f : A -> A) (l : list A) :
  (forall x, p (f x) = p x) ->
  List.filter p (map f l) = map f (List.filter p l).
Proof.
  intros H. induction l as [|x l IH]; simpl; [reflexivity|].
  rewrite H. destruct (p x); simpl; now rewrite IH.
Qed.

Lemma map_id_on (f : A -> A) (l : list A) :
  (forall x, x ∈ l -> f x = x) -> map f l = l.
Proof.
  induction l as [|x l IH]; intros H; simpl; [reflexivity|].
  rewrite H by left. rewrite IH; [reflexivity|].
  intros y Hy. apply H. now right.
Qed.

Lemma filter_nil_of_existsb (p : A -> bool) (l : list A) :
  existsb p l = false -> List.filter p l = [].
Proof.
  induction l as [|x l IH]; simpl; [reflexivity|].
  destruct (p x); simpl; [discriminate|exact IH].
Qed.

Lemma filter_cons_of_existsb (p : A -> bool) (l : list A) :
  existsb p l = true -> exists x r, List.filter p l = x :: r.
Proof.
  induction l as [|x l IH]; simpl; [discriminate|].
  destruct (p x); simpl; eauto.
Qed.
End ListFacts.

(** *** One relationship merge *)

Lemma nodes_merge_rel t s d sets g : nodes (merge_rel t s d sets g) = nodes g.
Proof. unfold merge_rel. now destruct (existsb _ _). Qed.

(** The merged relationship is the only one of its type between its
    endpoints and carries the properties that were set. *)
Lemma merge_rel_here t s d sets g :
  rels_unique g ->
  exists r, List.filter (rel_is t s d) (rels (merge_rel t s d sets g)) = [r]
            /\ forall k v, NoDup (map fst sets) -> (k, v) ∈ sets ->
                           prop (rprops r) k = v.
Proof.
  intros Hu. unfold merge_rel.
  destruct (existsb (rel_is t s d) (rels g)) eqn:E; simpl.
  - rewrite filter_map_stable by (intros x; apply rel_is_update).
    destruct (filter_cons_of_existsb _ _ E) as (r & rest & Hr).
    pose proof (Hu t s d) as Hlen. rewrite Hr in *. simpl in Hlen.
    destruct rest; [|simpl in Hlen; lia]. simpl.
    assert (Hin : r ∈ List.filter (rel_is t s d) (rels g)) by (rewrite Hr; left).
    apply elem_of_filter_bool in Hin as [_ ->].
    eexists. split; [reflexivity|].
    intros k v Hn Hin. simpl. now apply prop_set_props_in.
  - rewrite List.filter_app, (filter_nil_of_existsb _ _ E). simpl.
    assert (Hnew : rel_is t s d (mkrel t s d (set_props sets ∅)) = true)
      by (apply rel_is_spec; auto).
    rewrite Hnew. eexists. split; [reflexivity|].
    intros k v Hn Hin. simpl. now apply prop_set_props_in.
Qed.

(** Relationships of another type or between other endpoints are left as
    they were. *)
Lemma merge_rel_elsewhere t s d sets g t' s' d' :
  (t', s', d') <> (t, s, d) ->
  List.filter (rel_is t' s' d') (rels (merge_rel t s d sets g))
  = List.filter (rel_is t' s' d') (rels g).
Proof.
  intros Hne. unfold merge_rel.
  destruct (existsb (rel_is t s d) (rels g)) eqn:E; simpl.
  - rewrite filter_map_stable by (intros x; apply rel_is_update).
    apply map_id_on. intros r Hr.
    apply elem_of_filter_bool in Hr as [_ Hr].
    destruct (rel_is t s d r) eqn:Hr'; [|reflexivity].
    apply rel_is_spec in Hr as (? & ? & ?).
    apply rel_is_spec in Hr' as (? & ? & ?). congruence.
  - rewrite List.filter_app. simpl.
    destruct (rel_is t' s' d' (mkrel t s d (set_props sets ∅))) eqn:Hn.
    + apply rel_is_spec in Hn as (? & ? & ?). simpl in *. congruence.
    + apply app_nil_r.
Qed.

Lemma rels_unique_merge_rel t s d sets g :
  rels_unique g -> rels_unique (merge_rel t s d sets g).
Proof.
  intros Hu t' s' d'.
  destruct (decide ((t', s', d') = (t, s, d))) as [[= -> -> ->]|Hne].
  - destruct (merge_rel_here t s d sets g Hu) as (r & -> & _). simpl. lia.
  - rewrite merge_rel_elsewhere by exact Hne. apply Hu.
Qed.

Lemma carries_merge_rel t sets s d s' d' g :
  NoDup (map fst sets) -> rels_unique g ->
  carries t sets s d g -> carries t sets s d (merge_rel t s' d' sets g).
Proof.
  intros Hn Hu Hc.
  destruct (decide ((t, s, d) = (t, s', d'))) as [[= -> ->]|Hne].
  - destruct (merge_rel_here t s' d' sets g Hu) as (r & Hr & Hp).
    exists r. split; [exact Hr|]. intros k v. now apply Hp.
  - unfold carries. now rewrite merge_rel_elsewhere.
Qed.

(** *** A relationship merge over rows *)

Lemma nodes_merge_rel_rows t sets rows g :
  nodes (merge_rel_rows t sets rows g) = nodes g.
Proof.
  unfold merge_rel_rows. revert g.
  induction rows as [|x rows IH]; intros g; simpl; [reflexivity|].
  rewrite IH. apply nodes_merge_rel.
Qed.

Lemma rels_unique_merge_rel_rows t sets rows g :
  rels_unique g -> rels_unique (merge_rel_rows t sets rows g).
Proof.
  unfold merge_rel_rows. revert g.
  induction rows as [|x rows IH]; intros g Hu; simpl; [exact Hu|].
  apply IH. now apply rels_unique_merge_rel.
Qed.

Lemma carries_merge_rel_rows t sets s d rows g :
  NoDup (map fst sets) -> rels_unique g ->
  carries t sets s d g -> carries t sets s d (merge_rel_rows t sets rows g).
Proof.
  intros Hn. unfold merge_rel_rows. revert g.
  induction rows as [|x rows IH]; intros g Hu Hc; simpl; [exact Hc|].
  apply IH; [now apply rels_unique_merge_rel|now apply carries_merge_rel].
Qed.

(** After the merge, every row's endpoints are joined by exactly one
    relationship of the type, carrying the values that were set. *)
Lemma merge_rel_rows_carries t sets s d rows g :
  NoDup (map fst sets) -> rels_unique g -> (s, d) ∈ rows ->
  carries t sets s d (merge_rel_rows t sets rows g).
Proof.
  intros Hn. revert g.
  induction rows as [|x rows IH]; intros g Hu Hin; [inversion Hin|].
  apply elem_of_cons in Hin as [<-|Hin].
  - change (merge_rel_rows t sets ((s, d) :: rows) g)
      with (merge_rel_rows t sets rows (merge_rel t s d sets g)).
    apply carries_merge_rel_rows;
      [exact Hn|now apply rels_unique_merge_rel|].
    destruct (merge_rel_here t s d sets g Hu) as (r & Hr & Hp).
    exists r. split; [exact Hr|]. intros k v. now apply Hp.
  - change (merge_rel_rows t sets (x :: rows) g)
      with (merge_rel_rows t sets rows (merge_rel t x.1 x.2 sets g)).
    apply IH; [now apply rels_unique_merge_rel|exact Hin].
Qed.

(** *** A node merge *)

Lemma rels_merge_node l k id sets g : rels (merge_node l k id sets g) = rels g.
Proof. unfold merge_node. now destruct (existsb _ _). Qed.

Lemma has_key_spec l k id n :
  has_key l k id n = true <-> nlabel n = l /\ nprops n !! k = Some (VStr id).
Proof.
  unfold has_key. now rewrite andb_true_iff, !bool_decide_eq_true.
Qed.

Lemma has_key_update l id sets l' id' n :
  key_of l ∉ map fst sets ->
  has_key l' (key_of l') id'
    (if has_key l (key_of l) id n then set_node sets n else n)
  = has_key l' (key_of l') id' n.
Proof.
  intros Hk. destruct (has_key l (key_of l) id n) eqn:E; [|reflexivity].
  apply has_key_spec in E as [El _].
  unfold has_key. simpl.
  destruct (decide (nlabel n = l')) as [El'|El'].
  - rewrite lookup_set_props_other; [reflexivity|].
    replace l' with l by congruence. exact Hk.
  - rewrite !(bool_decide_eq_false_2 (nlabel n = l')) by exact El'. reflexivity.
Qed.

Lemma ids_unique_merge_node l id sets g :
  key_of l ∉ map fst sets ->
  ids_unique g -> ids_unique (merge_node l (key_of l) id sets g).
Proof.
  intros Hk Hu l' id'. unfold merge_node.
  destruct (existsb (has_key l (key_of l) id) (nodes g)) eqn:E; simpl.
  - rewrite filter_map_stable by (intros x; now apply has_key_update).
    rewrite length_map. apply Hu.
  - rewrite List.filter_app, length_app. simpl.
    destruct (has_key l' (key_of l') id' _) eqn:Hn; simpl.
    + apply has_key_spec in Hn as [Hl Hp]. simpl in Hl, Hp. subst l'.
      rewrite lookup_set_props_other in Hp by exact Hk.
      rewrite lookup_singleton_eq in Hp. injection Hp as <-.
      rewrite (filter_nil_of_existsb _ _ E). simpl. lia.
    + pose proof (Hu l' id'). lia.
Qed.

(** *** Every write keeps both invariants *)

Lemma wf_empty : wf empty_graph.
Proof. split; intros ? ?; simpl; intros; simpl; lia. Qed.

Lemma wf_merge_node l id sets g :
  forallb (fun kv => negb (String.eqb kv.1 (key_of l))) sets = true ->
  wf g -> wf (merge_node l (key_of l) id sets g).
Proof.
  intros Hk [Hr Hi]. split.
  - intros t s d. rewrite rels_merge_node. apply Hr.
  - apply ids_unique_merge_node; [|exact Hi].
    intros Hin. apply elem_of_map in Hin as (kv & Hkv & Hin).
    rewrite forallb_forall in Hk. apply list_elem_of_In in Hin.
    specialize (Hk kv Hin). rewrite <- Hkv, String.eqb_refl in Hk. discriminate.
Qed.

Lemma wf_merge_rel_rows t sets rows g :
  wf g -> wf (merge_rel_rows t sets rows g).
Proof.
  intros [Hr Hi]. split.
  - now apply rels_unique_merge_rel_rows.
  - intros l id. rewrite nodes_merge_rel_rows. apply Hi.
Qed.

Lemma wf_match_upsert match_id sets home away comp g :
  forallb (fun kv => negb (String.eqb kv.1 "match_id")) sets = true ->
  wf g -> wf (match_upsert match_id sets home away comp g).
Proof.
  intros Hk Hw. unfold match_upsert. cbv zeta.
  do 3 apply wf_merge_rel_rows.
  apply (wf_merge_node LMatch); assumption.
Qed.

Lemma wf_apply_write w g : wf g -> wf (apply_write w g).
Proof.
  intros Hw. destruct w; cbn [apply_write].
  - unfold load_player. apply (wf_merge_node LPlayer); [reflexivity|exact Hw].
  - unfold load_team. apply (wf_merge_node LTeam); [reflexivity|exact Hw].
  - unfold load_match. apply wf_match_upsert; [reflexivity|exact Hw].
  - unfold load_competition.
    apply (wf_merge_node LCompetition); [reflexivity|exact Hw].
  - unfold load_stadium. apply (wf_merge_node LStadium); [reflexivity|exact Hw].
  - unfold load_coach. apply (wf_merge_node LCoach); [reflexivity|exact Hw].
  - unfold load_player_contract. apply wf_merge_rel_rows, Hw.
  - unfold load_goal. apply wf_merge_rel_rows, Hw.
  - unfold load_card. apply wf_merge_rel_rows, Hw.
  - unfold kaggle_match_upsert. apply wf_match_upsert; [reflexivity|exact Hw].
  - unfold kaggle_brf_match_upsert. cbv zeta. do 3 apply wf_merge_rel_rows.
    apply (wf_merge_node LMatch); [reflexivity|exact Hw].
  - unfold kaggle_player_upsert.
    apply (wf_merge_node LPlayer); [reflexivity|exact Hw].
  - unfold kaggle_contract_upsert. apply wf_merge_rel_rows, Hw.
  - apply wf_empty.
Qed.

Lemma wf_run ws g : wf g -> wf (run ws g).
Proof.
  unfold run. revert g.
  induction ws as [|w ws IH]; intros g Hw; simpl; [exact Hw|].
  apply IH. now apply wf_apply_write.
Qed.

(** Every graph the loaders can build satisfies both invariants. *)
Lemma reachable_wf g : reachable g -> wf g.
Proof. intros [ws ->]. apply wf_run, wf_empty. Qed.

Lemma run_app ws1 ws2 g : run (ws1 ++ ws2) g = run ws2 (run ws1 g).
Proof. unfold run. apply fold_left_app. Qed.

Lemma run_map {A} (c : A -> write) (load : A -> graph -> graph) l g :
  (forall x g', apply_write (c x) g' = load x g') ->
  run (map c l) g = load_all load l g.
Proof.
  intros H. unfold run, load_all. revert g.
  induction l as [|x l IH]; intros g; simpl; [reflexivity|].
  now rewrite H, IH.
Qed.

Lemma reachable_sample : reachable sample_graph.
Proof.
  exists (map WTeam sample_teams ++ map WStadium sample_stadiums
          ++ map WCompetition sample_competitions ++ map WPlayer sample_players
          ++ map WCoach sample_coaches ++ map WMatch sample_matches
          ++ map WContract sample_contracts ++ map WGoal sample_goals
          ++ map WCard sample_cards)%list.
  rewrite !run_app.
  rewrite (run_map WTeam load_team), (run_map WStadium load_stadium),
    (run_map WCompetition load_competition), (run_map WPlayer load_player),
    (run_map WCoach load_coach), (run_map WMatch load_match),
    (run_map WContract load_player_contract), (run_map WGoal load_goal),
    (run_map WCard load_card) by reflexivity.
  reflexivity.
Qed.

(** ** Node and relationship patterns, characterised *)

Lemma elem_of_indexed {A} (l : list A) i x :
  (i, x) ∈ indexed l <-> l !! i = Some x.
Proof.
  unfold indexed. rewrite elem_of_lookup_imap. split.
  - intros (j & y & [= -> ->] & H). exact H.
  - intros H. eauto.
Qed.

Lemma elem_of_match_nodes g l k id p :
  p ∈ match_nodes g l k id
  <-> nodes g !! p.1 = Some p.2 /\ has_key l k id p.2 = true.
Proof.
  unfold match_nodes. rewrite elem_of_filter_bool.
  destruct p as [i n]. now rewrite elem_of_indexed.
Qed.

Lemma elem_of_nodes_with g l p :
  p ∈ nodes_with g l <-> nodes g !! p.1 = Some p.2 /\ nlabel p.2 = l.
Proof.
  unfold nodes_with. rewrite elem_of_filter_bool, bool_decide_eq_true.
  destruct p as [i n]. now rewrite elem_of_indexed.
Qed.

Lemma elem_of_match_pair g la ka ida lb kb idb a b :
  (a, b) ∈ match_pair g la ka ida lb kb idb
  <-> (exists n, nodes g !! a = Some n /\ has_key la ka ida n = true)
      /\ (exists n, nodes g !! b = Some n /\ has_key lb kb idb n = true).
Proof.
  unfold match_pair. rewrite list_elem_of_bind. split.
  - intros ([i n] & H & Hn). apply list_elem_of_bind in H as ([j m] & H & Hm).
    apply list_elem_of_singleton in H. injection H as -> ->.
    apply elem_of_match_nodes in Hn, Hm. simpl in *. split; eauto.
  - intros [(n & Hn & Hkn) (m & Hm & Hkm)].
    exists (a, n). split; [|now apply elem_of_match_nodes].
    apply list_elem_of_bind. exists (b, m).
    split; [now left|now apply elem_of_match_nodes].
Qed.

Lemma elem_of_out_rels g t s r :
  r ∈ out_rels g t s
  <-> rels g !! r.1 = Some r.2 /\ rtype r.2 = t /\ rsrc r.2 = s.
Proof.
  unfold out_rels.
  rewrite elem_of_filter_bool, andb_true_iff, bool_decide_eq_true, Nat.eqb_eq.
  destruct r as [i x]. rewrite elem_of_indexed. simpl. tauto.
Qed.

Lemma elem_of_in_rels g t d r :
  r ∈ in_rels g t d
  <-> rels g !! r.1 = Some r.2 /\ rtype r.2 = t /\ rdst r.2 = d.
Proof.
  unfold in_rels.
  rewrite elem_of_filter_bool, andb_true_iff, bool_decide_eq_true, Nat.eqb_eq.
  destruct r as [i x]. rewrite elem_of_indexed. simpl. tauto.
Qed.

(** ** Relationship upserts *)

Lemma carries_exists t sets s d g :
  carries t sets s d g -> existsb (rel_is t s d) (rels g) = true.
Proof.
  intros (r & Hr & _).
  destruct (existsb (rel_is t s d) (rels g)) eqn:E; [reflexivity|].
  rewrite (filter_nil_of_existsb _ _ E) in Hr. discriminate.
Qed.

(** Merging over rows that are all joined already creates nothing. *)
Lemma merge_rel_rows_no_growth t sets rows g :
  (forall sd, sd ∈ rows -> existsb (rel_is t sd.1 sd.2) (rels g) = true) ->
  length (rels (merge_rel_rows t sets rows g)) = length (rels g).
Proof.
  revert g. induction rows as [|x rows IH]; intros g Hex; [reflexivity|].
  change (merge_rel_rows t sets (x :: rows) g)
    with (merge_rel_rows t sets rows (merge_rel t x.1 x.2 sets g)).
  rewrite IH.
  - unfold merge_rel. rewrite (Hex x) by left. simpl. apply length_map.
  - intros sd Hsd. unfold merge_rel. rewrite (Hex x) by left. simpl.
    rewrite existsb_exists.
    specialize (Hex sd (list_elem_of_further _ _ _ Hsd)).
    apply existsb_exists in Hex as (r & Hr & Hrel).
    exists (if rel_is t x.1 x.2 r then set_rel sets r else r).
    split; [|now rewrite rel_is_update].
    apply in_map_iff. eauto.
Qed.

(** The same relationship upsert run twice over the same rows, with two
    [SET] lists: the second run creates nothing, and leaves each row's
    endpoints joined by exactly one relationship, carrying the second
    list. *)
Lemma upsert_twice t sets1 sets2 rows g s d :
  NoDup (map fst sets1) -> NoDup (map fst sets2) ->
  rels_unique g -> (s, d) ∈ rows ->
  let g1 := merge_rel_rows t sets1 rows g in
  let g2 := merge_rel_rows t sets2 rows g1 in
  length (rels g2) = length (rels g1) /\ carries t sets2 s d g2.
Proof.
  intros Hn1 Hn2 Hu Hin g1 g2.
  assert (Hu1 : rels_unique g1) by now apply rels_unique_merge_rel_rows.
  split.
  - apply merge_rel_rows_no_growth. intros [s' d'] Hsd.
    apply (carries_exists t sets1). now apply merge_rel_rows_carries.
  - now apply merge_rel_rows_carries.
Qed.

Lemma NoDup_contract_keys first :
  NoDup (map fst
    [("start_date", VStr (isoformat (PlayerContract.start_date first)));
     ("end_date", opt_iso (PlayerContract.end_date first))]).
Proof. simpl. repeat constructor; not_listed. Qed.

Lemma NoDup_goal_keys goal :
  NoDup (map fst
    [("minute", VInt (Goal.minute goal));
     ("goal_type", VStr (Goal.goal_type goal))]).
Proof. simpl. repeat constructor; not_listed. Qed.

Lemma match_pair_nodes g g' la ka ida lb kb idb :
  nodes g' = nodes g ->
  match_pair g' la ka ida lb kb idb = match_pair g la ka ida lb kb idb.
Proof. unfold match_pair, match_nodes. now intros ->. Qed.

(** C5: in a graph built by the loaders, a second [PLAYS_FOR] upsert for a
    player and a team that exist creates no relationship; afterwards the
    pair is joined by exactly one [PLAYS_FOR] relationship, whose
    [start_date] and [end_date] are those of the second call. *)
Theorem contract_upsert_overwrites g first second p t :
  reachable g ->
  PlayerContract.player_id first = PlayerContract.player_id second ->
  PlayerContract.team_id first = PlayerContract.team_id second ->
  (p, t) ∈ match_pair g LPlayer "player_id" (PlayerContract.player_id second)
                        LTeam "team_id" (PlayerContract.team_id second) ->
  let g1 := load_player_contract first g in
  let g2 := load_player_contract second g1 in
  length (rels g2) = length (rels g1)
  /\ exists r,
       List.filter (rel_is PLAYS_FOR p t) (rels g2) = [r]
       /\ prop (rprops r) "start_date"
          = VStr (isoformat (PlayerContract.start_date second))
       /\ prop (rprops r) "end_date" = opt_iso (PlayerContract.end_date second).
Proof.
  intros Hreach Hp Ht Hin g1 g2.
  destruct (reachable_wf g Hreach) as [Hu _].
  subst g1 g2. unfold load_player_contract.
  rewrite (match_pair_nodes g (merge_rel_rows _ _ _ g))
    by apply nodes_merge_rel_rows.
  rewrite Hp, Ht.
  destruct (upsert_twice PLAYS_FOR _ _ _ g p t
              (NoDup_contract_keys first) (NoDup_contract_keys second) Hu Hin)
    as [Hlen (r & Hr & Hprops)].
  split; [exact Hlen|].
  exists r. split; [exact Hr|]. split; apply Hprops; listed.
Qed.

Lemma contract_upsert_overwrites_witness :
  let first := PlayerContract.mk "P001" "T001" (mkdate 2019 1 1) None in
  let second :=
    PlayerContract.mk "P001" "T001" (mkdate 2021 1 1) (Some (mkdate 2022 12 31)) in
  let g1 := load_player_contract first sample_graph in
  let g2 := load_player_contract second g1 in
  length (rels g2) = length (rels g1)
  /\ exists r,
       List.filter (rel_is PLAYS_FOR 27 0) (rels g2) = [r]
       /\ prop (rprops r) "start_date" = VStr (isoformat (mkdate 2021 1 1))
       /\ prop (rprops r) "end_date" = opt_iso (Some (mkdate 2022 12 31)).
Proof.
  intros first second.
  apply (contract_upsert_overwrites sample_graph first second 27 0).
  - exact reachable_sample.
  - reflexivity.
  - reflexivity.
  - apply list_elem_of_In. vm_compute. left. reflexivity.
Defined.

(** The same holds of goals: a second goal of a player in a match takes
    the place of the first. *)
Lemma goal_upsert_overwrites g first second p m :
  reachable g ->
  Goal.player_id first = Goal.player_id second ->
  Goal.match_id first = Goal.match_id second ->
  (p, m) ∈ match_pair g LPlayer "player_id" (Goal.player_id second)
                        LMatch "match_id" (Goal.match_id second) ->
  let g1 := load_goal first g in
  let g2 := load_goal second g1 in
  length (rels g2) = length (rels g1)
  /\ exists r,
       List.filter (rel_is SCORED_IN p m) (rels g2) = [r]
       /\ prop (rprops r) "minute" = VInt (Goal.minute second)
       /\ prop (rprops r) "goal_type" = VStr (Goal.goal_type second).
Proof.
  intros Hreach Hp Hm Hin g1 g2.
  destruct (reachable_wf g Hreach) as [Hu _].
  subst g1 g2. unfold load_goal.
  rewrite (match_pair_nodes g (merge_rel_rows _ _ _ g))
    by apply nodes_merge_rel_rows.
  rewrite Hp, Hm.
  destruct (upsert_twice SCORED_IN _ _ _ g p m
              (NoDup_goal_keys first) (NoDup_goal_keys second) Hu Hin)
    as [Hlen (r & Hr & Hprops)].
  split; [exact Hlen|].
  exists r. split; [exact Hr|]. split; apply Hprops; listed.
Qed.

(** C6: the sample data holds two goals of P001 in M006, at minutes 15 and
    50; the loaded graph holds one [SCORED_IN] relationship between them,
    that of minute 50. *)
Theorem sample_second_goal_replaces_first :
  In (Goal.mk "P001" "M006" 15 "regular") sample_goals
  /\ In (Goal.mk "P001" "M006" 50 "penalty") sample_goals
  /\ match_pair sample_graph LPlayer "player_id" "P001" LMatch "match_id" "M006"
     = [(27%nat, 57%nat)]
  /\ exists r,
       List.filter (rel_is SCORED_IN 27 57) (rels sample_graph) = [r]
       /\ prop (rprops r) "minute" = VInt 50
       /\ prop (rprops r) "goal_type" = VStr "penalty".
Proof.
  split; [vm_compute; tauto|].
  split; [vm_compute; tauto|].
  split; [vm_compute; reflexivity|].
  eexists. split; [vm_compute; reflexivity|].
  split; vm_compute; reflexivity.
Qed.

(** ** The roster *)

(** What the [WHERE] clause of the roster keeps: an absent [end_date], or
    one that is a temporal value not before today.  An [end_date] stored
    as text is compared with a date and dropped. *)
Lemma roster_filter_spec e today :
  holds (cy_or (Some (is_null e)) (cy_ge e (VDate today))) = true
  <-> e = VNull \/ exists d, e = VDate d /\ date_compare today d <> Gt.
Proof.
  destruct e as [|n|s|d]; simpl.
  - split; auto.
  - split; [discriminate|]. intros [H|(d & H & _)]; discriminate.
  - split; [discriminate|]. intros [H|(d & H & _)]; discriminate.
  - unfold cy_ge, cy_le. simpl.
    destruct (date_compare today d) eqn:E; simpl.
    + split; [|reflexivity]. intros _. right. exists d. split; congruence.
    + split; [|reflexivity]. intros _. right. exists d. split; congruence.
    + split; [discriminate|]. intros [H|(d' & [= <-] & H)]; [discriminate|].
      congruence.
Qed.

Lemma roster_sorted g team_id today :
  Sorted (fun a b => lex_leb (ro_position a, ro_name a)
                             (ro_position b, ro_name b) = true)
         (roster_query g team_id today).
Proof.
  unfold roster_query.
  apply (sort_by_sorted
           (fun a b => lex_leb (ro_position a, ro_name a)
                               (ro_position b, ro_name b))).
  intros x y. apply lex_leb_total.
Qed.

(** What the roster lists: one row for each [PLAYS_FOR] relationship from
    a player to the team that passes the filter. *)
Lemma roster_rows_spec g team_id today row :
  row ∈ roster_query g team_id today
  <-> exists t r p,
        t ∈ match_nodes g LTeam "team_id" team_id
        /\ r ∈ in_rels g PLAYS_FOR t.1
        /\ p ∈ labelled g LPlayer (rsrc r.2)
        /\ (prop (rprops r.2) "end_date" = VNull
            \/ exists d, prop (rprops r.2) "end_date" = VDate d
                         /\ date_compare today d <> Gt)
        /\ row = mkroster_row (prop (nprops p.2) "player_id")
                              (prop (nprops p.2) "name")
                              (prop (nprops p.2) "position")
                              (prop (nprops p.2) "jersey_number")
                              (prop (rprops r.2) "start_date").
Proof.
  unfold roster_query. rewrite (sort_by_perm _ _). split.
  - intros H.
    apply list_elem_of_bind in H as (t & H & Ht).
    apply list_elem_of_bind in H as (r & H & Hr).
    apply list_elem_of_bind in H as (p & H & Hp).
    destruct (holds _) eqn:E; [|inversion H].
    apply list_elem_of_singleton in H.
    apply roster_filter_spec in E.
    exists t, r, p. auto.
  - intros (t & r & p & Ht & Hr & Hp & He & ->).
    apply list_elem_of_bind. exists t. split; [|exact Ht].
    apply list_elem_of_bind. exists r. split; [|exact Hr].
    apply list_elem_of_bind. exists p. split; [|exact Hp].
    apply roster_filter_spec in He. rewrite He. now left.
Qed.

(** C1: in the sample data P004 plays for T001 until 2023-12-31, which the
    loader stores as text; the roster of T001 on 2023-06-01 does not list
    P004. *)
Theorem sample_roster_omits_contract_ending_later :
  In (PlayerContract.mk "P004" "T001" (mkdate 2017 1 1) (Some (mkdate 2023 12 31)))
     sample_contracts
  /\ match_pair sample_graph LPlayer "player_id" "P004" LTeam "team_id" "T001"
     = [(30%nat, 0%nat)]
  /\ (exists r,
        List.filter (rel_is PLAYS_FOR 30 0) (rels sample_graph) = [r]
        /\ prop (rprops r) "end_date" = VStr "2023-12-31")
  /\ String.compare (isoformat (mkdate 2023 6 1)) "2023-12-31" = Lt
  /\ exists rows,
       get_team_roster sample_graph (mkdate 2023 6 1) "T001" None
       = Found (VStr "Flamengo", rows)
       /\ map ro_player_id rows
          = [VStr "P001"; VStr "P011"; VStr "P002"; VStr "P003"].
Proof.
  split; [vm_compute; tauto|].
  split; [vm_compute; reflexivity|].
  split; [eexists; split; vm_compute; reflexivity|].
  split; [vm_compute; reflexivity|].
  eexists. split; vm_compute; reflexivity.
Qed.

(** ** Team statistics *)

Lemma side_stats_pair own other a b oa xa ob xb :
  prop (nprops a) own = VInt oa -> prop (nprops a) other = VInt xa ->
  prop (nprops b) own = VInt ob -> prop (nprops b) other = VInt xb ->
  side_stats own other [a; b]
  = Some (mkstats 2
            (case_one_zero (Some (xa <? oa)) + (case_one_zero (Some (xb <? ob)) + 0))
            (case_one_zero (Some (bool_decide (VInt oa = VInt xa)))
             + (case_one_zero (Some (bool_decide (VInt ob = VInt xb))) + 0))
            (case_one_zero (Some (oa <? xa)) + (case_one_zero (Some (ob <? xb)) + 0))
            (oa + (ob + 0)) (xa + (xb + 0))).
Proof.
  intros Hoa Hxa Hob Hxb. unfold side_stats. simpl.
  rewrite Hoa, Hxa, Hob, Hxb. simpl.
  unfold cy_gt, cy_lt. simpl.
  rewrite !Z.ltb_compare.
  destruct (xa ?= oa), (xb ?= ob), (oa ?= xa), (ob ?= xb); reflexivity.
Qed.

(** C2: a team whose home matches are exactly two, won 2-1 and 3-2, and
    which has no away match, has played 2, won 2, drawn 0, lost 0, with 5
    goals for and 3 against. *)
Theorem team_stats_two_home_wins g name others a b :
  team_name_query g "T001" = name :: others ->
  Permutation (side_matches g PLAYED_HOME "T001" None) [a; b] ->
  prop (nprops a) "match_id" = VStr "M001" ->
  prop (nprops a) "home_score" = VInt 2 ->
  prop (nprops a) "away_score" = VInt 1 ->
  prop (nprops b) "match_id" = VStr "M005" ->
  prop (nprops b) "home_score" = VInt 3 ->
  prop (nprops b) "away_score" = VInt 2 ->
  side_matches g PLAYED_AWAY "T001" None = [] ->
  get_team_stats g "T001" None = Found (name, mkstats 2 2 0 0 5 3).
Proof.
  intros Hname Hhome _ Ha1 Ha2 _ Hb1 Hb2 Haway.
  unfold get_team_stats. rewrite Hname, Haway.
  apply Permutation_sym, Permutation_length_2_inv in Hhome as [-> | ->].
  - rewrite (side_stats_pair _ _ a b 2 1 3 2) by assumption. reflexivity.
  - rewrite (side_stats_pair _ _ b a 3 2 2 1) by assumption. reflexivity.
Qed.

Lemma team_stats_two_home_wins_witness :
  get_team_stats two_home_wins_graph "T001" None
  = Found (VStr "Flamengo", mkstats 2 2 0 0 5 3).
Proof.
  eapply (team_stats_two_home_wins two_home_wins_graph (VStr "Flamengo") []
            (default (mknode LMatch ∅) (nodes two_home_wins_graph !! 4%nat))
            (default (mknode LMatch ∅) (nodes two_home_wins_graph !! 5%nat)));
    vm_compute; reflexivity.
Defined.

(** ** Node upserts *)

Lemma merge_node_lookup l k id sets g i n :
  nodes g !! i = Some n ->
  nodes (merge_node l k id sets g) !! i
  = Some (if has_key l k id n then set_node sets n else n).
Proof.
  intros Hn. unfold merge_node.
  destruct (existsb (has_key l k id) (nodes g)) eqn:E; simpl.
  - change (map ?f ?l) with (f <$> l). now rewrite list_lookup_fmap, Hn.
  - rewrite lookup_app_l by (eapply lookup_lt_Some; eauto).
    rewrite Hn. destruct (has_key l k id n) eqn:Hk; [|reflexivity].
    assert (existsb (has_key l k id) (nodes g) = true); [|congruence].
    apply existsb_exists. exists n. split; [|exact Hk].
    apply list_elem_of_In. eapply list_elem_of_lookup_2; eauto.
Qed.

(** C7, as the code has it: a player upsert keeps every node in place and
    leaves untouched every property that is not one of the five it sets;
    on the node of that player each of the five reads as the value passed,
    a value of [None] included, which removes the property. *)
Theorem load_player_keeps_other_properties g player i n :
  nodes g !! i = Some n ->
  exists n',
    nodes (load_player player g) !! i = Some n'
    /\ nlabel n' = nlabel n
    /\ (forall k, k ∉ map fst (player_sets player) ->
                  nprops n' !! k = nprops n !! k)
    /\ (has_key LPlayer "player_id" (Player.player_id player) n = false ->
        n' = n)
    /\ (has_key LPlayer "player_id" (Player.player_id player) n = true ->
        forall k v, (k, v) ∈ player_sets player -> prop (nprops n') k = v).
Proof.
  intros Hn. unfold load_player. fold (player_sets player).
  rewrite (merge_node_lookup _ _ _ _ _ _ _ Hn).
  eexists. split; [reflexivity|].
  destruct (has_key LPlayer "player_id" (Player.player_id player) n) eqn:E.
  - split; [reflexivity|]. split; [|split; [discriminate|]].
    + intros k Hk. exact (lookup_set_props_other _ (nprops n) k Hk).
    + intros _ k v Hkv.
      refine (prop_set_props_in _ (nprops n) k v _ Hkv).
      simpl. repeat constructor; not_listed.
  - split; [reflexivity|]. split; [reflexivity|]. split; [reflexivity|discriminate].
Qed.

Lemma load_player_keeps_other_properties_witness :
  exists n',
    nodes (load_player gabigol_renamed (load_player gabigol empty_graph)) !! 0%nat
    = Some n'
    /\ nlabel n' = LPlayer
    /\ nprops n' !! "player_id" = Some (VStr "P001")
    /\ prop (nprops n') "name" = VStr "Gabigol".
Proof.
  destruct (load_player_keeps_other_properties
              (load_player gabigol empty_graph) gabigol_renamed 0
              (default (mknode LPlayer ∅)
                 (nodes (load_player gabigol empty_graph) !! 0%nat)))
    as (n' & Hn' & Hl & Hother & _ & Hset); [vm_compute; reflexivity|].
  exists n'. split; [exact Hn'|]. split; [exact Hl|]. split.
  - rewrite Hother; [vm_compute; reflexivity|]. not_listed.
  - apply Hset; [vm_compute; reflexivity|]. listed.
Defined.

(** C7, as stated, fails: the second upsert names [jersey_number] and
    [birth_date] with no new value, and both are gone afterwards. *)
Lemma load_player_none_removes_property :
  let before := load_player gabigol empty_graph in
  let after := load_player gabigol_renamed before in
  let read (g : graph) (k : string) :=
    (fun n => nprops n !! k) <$> nodes g !! 0%nat in
  opt_int (Player.jersey_number gabigol_renamed) = VNull
  /\ opt_iso (Player.birth_date gabigol_renamed) = VNull
  /\ read before "jersey_number" = Some (Some (VInt 10))
  /\ read after "jersey_number" = Some None
  /\ read before "birth_date" = Some (Some (VStr "1996-08-30"))
  /\ read after "birth_date" = Some None.
Proof. vm_compute. repeat split; reflexivity. Qed.

(** ** Players of both teams *)

Lemma order_leb_null_first v : order_leb VNull v = true -> v = VNull.
Proof. destruct v; [reflexivity|discriminate..]. Qed.

Lemma order_leb_strings x y :
  order_leb (VStr x) (VStr y) = true -> String.compare x y <> Gt.
Proof.
  unfold order_leb, order_compare. simpl.
  destruct (String.compare x y); congruence.
Qed.

Lemma both_teams_sorted g team1_id team2_id :
  Sorted (fun a b => order_leb (b_team1_start a) (b_team1_start b) = true)
         (both_teams_query g team1_id team2_id).
Proof.
  unfold both_teams_query.
  apply (sort_by_sorted
           (fun a b => order_leb (b_team1_start a) (b_team1_start b))).
  intros x y. apply order_leb_total.
Qed.

(** C9, as the code has it: the rows are in ascending order of the start
    date at the first team, and a row without that date comes after every
    row that has one. *)
Theorem both_teams_ascending_missing_last g team1_id team2_id n1 n2 rows :
  find_players_who_played_for_both_teams g team1_id team2_id
  = Found (n1, n2, rows) ->
  forall i a b, rows !! i = Some a -> rows !! S i = Some b ->
    (b_team1_start a = VNull -> b_team1_start b = VNull)
    /\ (forall x y, b_team1_start a = VStr x -> b_team1_start b = VStr y ->
                    String.compare x y <> Gt).
Proof.
  unfold find_players_who_played_for_both_teams.
  destruct (both_teams_query g team1_id team2_id) as [|r rs] eqn:E;
    [discriminate|].
  intros [= _ _ <-] i a b Ha Hb.
  pose proof (both_teams_sorted g team1_id team2_id) as Hs. rewrite E in Hs.
  pose proof (Sorted_adjacent _ _ i a b Hs Ha Hb) as Hab. simpl in Hab.
  split.
  - intros Hnull. rewrite Hnull in Hab. now apply order_leb_null_first.
  - intros x y Hx Hy. rewrite Hx, Hy in Hab. now apply order_leb_strings.
Qed.

Lemma both_teams_ascending_missing_last_witness :
  exists a b,
    both_teams_query both_teams_graph "T001" "T007" = [a; b]
    /\ (b_team1_start a = VNull -> b_team1_start b = VNull)
    /\ (forall x y, b_team1_start a = VStr x -> b_team1_start b = VStr y ->
                    String.compare x y <> Gt).
Proof.
  do 2 eexists. split; [vm_compute; reflexivity|].
  apply (both_teams_ascending_missing_last both_teams_graph "T001" "T007"
           (VStr "Flamengo") (VStr "Grêmio")
           (both_teams_query both_teams_graph "T001" "T007")
           ltac:(vm_compute; reflexivity) 0%nat);
    vm_compute; reflexivity.
Defined.

(** C9, as stated, fails: P001 has no start date at Flamengo and is listed
    last, after P002 who joined in 2020; the career of P001 lists the same
    undated stint first. *)
Lemma both_teams_missing_start_is_last :
  map (fun r => (b_player_id r, b_team1_start r))
      (both_teams_query both_teams_graph "T001" "T007")
  = [ (VStr "P002", VStr "2020-01-01"); (VStr "P001", VNull) ]
  /\ (exists n1 n2 rows,
        find_players_who_played_for_both_teams both_teams_graph "T001" "T007"
        = Found (n1, n2, rows)
        /\ map b_team1_start rows = [VStr "2020-01-01"; VNull])
  /\ (exists c,
        get_player_career both_teams_graph "P001" = Found c
        /\ map (fun st => (st_team_id st, st_start_date st)) (c_career c)
           = [ (VStr "T001", VNull); (VStr "T007", VStr "2010-01-01") ]).
Proof.
  split; [vm_compute; reflexivity|]. split.
  - do 3 eexists. split; vm_compute; reflexivity.
  - eexists. split; vm_compute; reflexivity.
Qed.

(** ** Identifiers name one node *)

Lemma filter_indexed_gen {A} (f : A -> bool) (h : nat -> nat) (l : list A) :
  map snd (List.filter (fun p => f p.2) (imap (fun i x => (h i, x)) l))
  = List.filter f l.
Proof.
  revert h. induction l as [|x l IH]; intros h; [reflexivity|].
  rewrite imap_cons. simpl. specialize (IH (h ∘ S)).
  destruct (f x); simpl; f_equal; exact IH.
Qed.

Lemma match_nodes_length g l k id :
  length (match_nodes g l k id) = length (List.filter (has_key l k id) (nodes g)).
Proof.
  unfold match_nodes, indexed.
  rewrite <- (filter_indexed_gen (has_key l k id) (fun i => i) (nodes g)).
  now rewrite length_map.
Qed.

Lemma ids_unique_index g l id i j n m :
  ids_unique g ->
  nodes g !! i = Some n -> has_key l (key_of l) id n = true ->
  nodes g !! j = Some m -> has_key l (key_of l) id m = true ->
  i = j.
Proof.
  intros Hu Hn Hkn Hm Hkm.
  assert (Hi : (i, n) ∈ match_nodes g l (key_of l) id)
    by now apply elem_of_match_nodes.
  assert (Hj : (j, m) ∈ match_nodes g l (key_of l) id)
    by now apply elem_of_match_nodes.
  pose proof (Hu l id) as Hlen. rewrite <- match_nodes_length in Hlen.
  destruct (match_nodes g l (key_of l) id) as [|x [|y rest]];
    [inversion Hi| |simpl in Hlen; lia].
  apply list_elem_of_singleton in Hi, Hj. congruence.
Qed.

Lemma prop_is_string m k s : prop m k = VStr s -> m !! k = Some (VStr s).
Proof. unfold prop. destruct (m !! k); simpl; congruence. Qed.

(** ** Top scorers and players without a team *)

(** Every row of the result stems from a player node that has a team. *)
Lemma top_scorers_row_origin g competition_id season limit row :
  row ∈ top_scorers_query g competition_id season limit ->
  exists i p,
    nodes g !! i = Some p /\ nlabel p = LPlayer
    /\ sc_player_id row = prop (nprops p) "player_id"
    /\ teams_of g i <> [].
Proof.
  unfold top_scorers_query. intros Hrow.
  rewrite (sort_by_perm _ _) in Hrow.
  apply elem_of_map in Hrow as ([key tns] & -> & Hk). simpl.
  assert (Hkey : key ∈ map fst (group_by
            (leading_scorers g competition_id season limit ≫= fun pg =>
             labelled g LPlayer pg.1 ≫= fun p =>
             teams_of g pg.1 ≫= fun t =>
             [ ((prop (nprops p.2) "name", prop (nprops p.2) "player_id", pg.2),
                prop (nprops t.2) "name") ])))
    by (apply elem_of_map; exists (key, tns); auto).
  clear Hk. rewrite group_by_keys, elem_of_remove_dups in Hkey.
  apply elem_of_map in Hkey as ([key' tn] & -> & Hk). simpl.
  apply list_elem_of_bind in Hk as (pg & Hk & _).
  apply list_elem_of_bind in Hk as (pn & Hk & Hpn).
  apply list_elem_of_bind in Hk as (t & Hk & Ht).
  apply list_elem_of_singleton in Hk. injection Hk as -> _.
  apply elem_of_labelled in Hpn as (_ & Hn & Hl).
  exists pg.1, pn.2. simpl. repeat split; try assumption.
  intros Hnil. rewrite Hnil in Ht. inversion Ht.
Qed.

(** C10: the team lookup is a required match made after the limit.  A
    player who scored but has no [PLAYS_FOR] relationship to a team is not
    listed, and the list can be shorter than both the limit and the number
    of scorers. *)
Theorem top_scorers_omit_players_without_team :
  (forall g competition_id season limit name rows i p pid,
      reachable g ->
      get_competition_top_scorers g competition_id season limit
      = Found (name, rows) ->
      nodes g !! i = Some p ->
      has_key LPlayer "player_id" pid p = true ->
      teams_of g i = [] ->
      VStr pid ∉ map sc_player_id rows)
  /\ (exists g competition_id season limit name rows,
        reachable g
        /\ get_competition_top_scorers g competition_id season limit
           = Found (name, rows)
        /\ Z.of_nat (length rows)
           < Z.min limit (Z.of_nat (length (goal_counts g competition_id season)))).
Proof.
  split.
  - intros g competition_id season limit name rows i p pid
           Hreach Hget Hp Hkey Hteams Hin.
    destruct (reachable_wf g Hreach) as [_ Hu].
    unfold get_competition_top_scorers in Hget.
    destruct (competition_nodes g competition_id season) as [|c cs];
      [discriminate|].
    destruct (limit <? 0); [discriminate|]. injection Hget as _ <-.
    apply elem_of_map in Hin as (row & Hid & Hrow).
    apply top_scorers_row_origin in Hrow as (j & q & Hq & Hl & Hrid & Hne).
    rewrite Hrid in Hid. symmetry in Hid. apply prop_is_string in Hid.
    assert (Hkq : has_key LPlayer (key_of LPlayer) pid q = true)
      by (apply has_key_spec; auto).
    pose proof (ids_unique_index g LPlayer pid i j p q Hu Hp Hkey Hq Hkq).
    subst j. contradiction.
  - exists teamless_scorer_graph, "C001", "2023", 1, (VStr "Campeonato Brasileiro Série A"), [].
    split; [now exists teamless_scorer_writes|].
    split; vm_compute; reflexivity.
Qed.

Lemma top_scorers_omit_players_without_team_witness :
  VStr "P001" ∉ map sc_player_id
                  (top_scorers_query teamless_scorer_graph "C001" "2023" 10).
Proof.
  destruct top_scorers_omit_players_without_team as [H _].
  apply (H teamless_scorer_graph "C001" "2023" 10
           (VStr "Campeonato Brasileiro Série A")
           (top_scorers_query teamless_scorer_graph "C001" "2023" 10)
           3%nat
           (default (mknode LPlayer ∅) (nodes teamless_scorer_graph !! 3%nat))
           "P001").
  - now exists teamless_scorer_writes.
  - vm_compute. reflexivity.
  - vm_compute. reflexivity.
  - vm_compute. reflexivity.
  - vm_compute. reflexivity.
Defined.

(** ** Head to head *)

(** *** The loop is a sum *)

Lemma stats_eq a b :
  team1_wins a = team1_wins b -> team2_wins a = team2_wins b ->
  h_draws a = h_draws b ->
  team1_goals a = team1_goals b -> team2_goals a = team2_goals b ->
  a = b.
Proof. destruct a, b; simpl; congruence. Qed.

Lemma add_stats_assoc a b c :
  add_stats (add_stats a b) c = add_stats a (add_stats b c).
Proof. apply stats_eq; simpl; lia. Qed.

Lemma add_stats_swap a b c :
  add_stats a (add_stats b c) = add_stats b (add_stats a c).
Proof. apply stats_eq; simpl; lia. Qed.

Lemma add_no_stats a : add_stats a no_stats = a.
Proof. apply stats_eq; simpl; lia. Qed.

Lemma no_stats_add a : add_stats no_stats a = a.
Proof. apply stats_eq; simpl; lia. Qed.

Lemma h2h_step_delta team1_id acc row :
  h2h_step team1_id acc row
  = option_map (add_stats acc) (h2h_delta team1_id row).
Proof.
  unfold h2h_delta, h2h_step.
  destruct (h_home_score row) as [|hs| |]; try reflexivity.
  destruct (h_away_score row) as [|aws| |]; try reflexivity.
  destruct (bool_decide _);
    [destruct (hs >? aws), (hs <? aws) | destruct (aws >? hs), (aws <? hs)];
    simpl; f_equal; apply stats_eq; simpl; lia.
Qed.

Lemma h2h_loop_total team1_id acc rows :
  h2h_loop team1_id acc rows
  = option_map (add_stats acc) (h2h_total team1_id rows).
Proof.
  revert acc. induction rows as [|row rest IH]; intros acc; simpl.
  - now rewrite add_no_stats.
  - rewrite h2h_step_delta.
    destruct (h2h_delta team1_id row) as [d|]; simpl; [|reflexivity].
    rewrite IH. destruct (h2h_total team1_id rest) as [s|]; simpl; [|reflexivity].
    now rewrite add_stats_assoc.
Qed.

(** The statistics do not depend on the order of the matches. *)
Lemma h2h_total_perm team1_id rows rows' :
  Permutation rows rows' ->
  h2h_total team1_id rows = h2h_total team1_id rows'.
Proof.
  induction 1 as [|x l l' _ IH|x y l|l l' l'' _ IH1 _ IH2]; simpl.
  - reflexivity.
  - now rewrite IH.
  - destruct (h2h_delta team1_id x), (h2h_delta team1_id y),
      (h2h_total team1_id l); try reflexivity.
    now rewrite add_stats_swap.
  - congruence.
Qed.

(** *** Exchanging the two teams *)

Lemma h2h_delta_mirror a b row :
  a <> b ->
  h_home_id row = VStr a \/ h_home_id row = VStr b ->
  h2h_delta b row = option_map swap_stats (h2h_delta a row).
Proof.
  intros Hab Hhome. unfold h2h_delta, h2h_step.
  destruct (h_home_score row) as [|hs| |]; try reflexivity.
  destruct (h_away_score row) as [|aws| |]; try reflexivity.
  rewrite !Z.gtb_ltb.
  destruct Hhome as [-> | ->].
  - rewrite (bool_decide_eq_true_2 (VStr a = VStr a)) by reflexivity.
    rewrite (bool_decide_eq_false_2 (VStr a = VStr b)) by congruence.
    destruct (Z.ltb_spec aws hs), (Z.ltb_spec hs aws);
      try lia; reflexivity.
  - rewrite (bool_decide_eq_true_2 (VStr b = VStr b)) by reflexivity.
    rewrite (bool_decide_eq_false_2 (VStr b = VStr a)) by congruence.
    destruct (Z.ltb_spec aws hs), (Z.ltb_spec hs aws);
      try lia; reflexivity.
Qed.

Lemma swap_add_stats x y :
  swap_stats (add_stats x y) = add_stats (swap_stats x) (swap_stats y).
Proof. reflexivity. Qed.

Lemma h2h_total_mirror a b rows :
  a <> b ->
  Forall (fun row => h_home_id row = VStr a \/ h_home_id row = VStr b) rows ->
  h2h_total b rows = option_map swap_stats (h2h_total a rows).
Proof.
  intros Hab. induction 1 as [|row rest Hrow _ IH]; simpl; [reflexivity|].
  rewrite (h2h_delta_mirror a b row Hab Hrow), IH.
  destruct (h2h_delta a row), (h2h_total a rest); reflexivity.
Qed.

(** *** The two calls see the same matches *)

Lemma bind_nil_r {A C} (l : list A) : l ≫= (fun _ => @nil C) = [].
Proof. induction l as [|x l IH]; [reflexivity|]. now rewrite bind_cons, IH. Qed.

Lemma bind_app_perm {A C} (f g : A -> list C) (l : list A) :
  Permutation (l ≫= fun x => f x ++ g x)%list ((l ≫= f) ++ (l ≫= g))%list.
Proof.
  induction l as [|x l IH]; [reflexivity|].
  rewrite !bind_cons, IH.
  rewrite <- !(assoc_L (++)). apply Permutation_app_head.
  rewrite !(assoc_L (++)). apply Permutation_app_tail.
  apply Permutation_app_comm.
Qed.

Section BindFacts.
Context {A B C : Type}.

Lemma bind_comm (la : list A) (lb : list B) (f : A -> B -> list C) :
  Permutation (la ≫= fun a => lb ≫= f a)
              (lb ≫= fun b => la ≫= fun a => f a b).
Proof.
  induction la as [|x la IH].
  - assert (H : lb ≫= (fun b => [] ≫= fun a => f a b) = []).
    { clear. induction lb as [|y lb IH]; [reflexivity|].
      now rewrite bind_cons, IH. }
    now rewrite H.
  - rewrite bind_cons, IH.
    rewrite <- (bind_app_perm (f x) (fun b => la ≫= fun a => f a b) lb).
    apply eq_subrelation; [typeclasses eauto|].
    apply list_bind_ext; [|reflexivity].
    intros b. now rewrite bind_cons.
Qed.
End BindFacts.

Lemma h2h_rows_swap g a b :
  Permutation (h2h_rows g a b) (h2h_rows g b a).
Proof.
  unfold h2h_rows. rewrite bind_comm.
  apply eq_subrelation; [typeclasses eauto|].
  apply list_bind_ext; [|reflexivity]. intros t2.
  apply list_bind_ext; [|reflexivity]. intros t1.
  apply list_bind_ext; [|reflexivity]. intros m.
  now rewrite orb_comm.
Qed.

Lemma h2h_query_swap g a b :
  Permutation (h2h_query g a b) (h2h_query g b a).
Proof.
  unfold h2h_query. now rewrite !sort_by_perm, h2h_rows_swap.
Qed.

Lemma team_names_query_nil g a b :
  team_names_query g a b = []
  <-> match_nodes g LTeam "team_id" a = [] \/ match_nodes g LTeam "team_id" b = [].
Proof.
  unfold team_names_query.
  destruct (match_nodes g LTeam "team_id" a) as [|x la];
    destruct (match_nodes g LTeam "team_id" b) as [|y lb]; simpl.
  - tauto.
  - tauto.
  - rewrite bind_nil_r. tauto.
  - split; [discriminate|]. intros [H|H]; discriminate.
Qed.

(** *** One home side per match *)

Lemma NoDup_map_eq {X Y} (f : X -> Y) (l : list X) x y :
  NoDup (map f l) -> x ∈ l -> y ∈ l -> f x = f y -> x = y.
Proof.
  induction l as [|z l IH]; intros Hn Hx Hy Hf; [inversion Hx|].
  simpl in Hn. apply NoDup_cons in Hn as [Hz Hn].
  apply elem_of_cons in Hx as [->|Hx]; apply elem_of_cons in Hy as [->|Hy].
  - reflexivity.
  - exfalso. apply Hz. rewrite Hf. apply elem_of_map. eauto.
  - exfalso. apply Hz. rewrite <- Hf. apply elem_of_map. eauto.
  - now apply IH.
Qed.

(** With one home side per match, every row of a head-to-head query has
    one of the two teams at home. *)
Lemma h2h_rows_home g a b :
  one_home_side g ->
  Forall (fun row => h_home_id row = VStr a \/ h_home_id row = VStr b)
         (h2h_rows g a b).
Proof.
  intros Hone. apply Forall_forall. intros row Hrow.
  unfold h2h_rows in Hrow.
  apply list_elem_of_bind in Hrow as (t1 & Hrow & Ht1).
  apply list_elem_of_bind in Hrow as (t2 & Hrow & Ht2).
  apply list_elem_of_bind in Hrow as (m & Hrow & Hm).
  destruct ((has_rel g PLAYED_HOME t1.1 m.1 && has_rel g PLAYED_AWAY t2.1 m.1)
            || (has_rel g PLAYED_HOME t2.1 m.1 && has_rel g PLAYED_AWAY t1.1 m.1))
    eqn:Hcond; [|inversion Hrow].
  apply list_elem_of_bind in Hrow as (ha & Hrow & Hha).
  apply list_elem_of_singleton in Hrow. subst row. simpl.
  unfold home_away in Hha.
  apply list_elem_of_bind in Hha as (rh & Hha & Hrh).
  apply list_elem_of_bind in Hha as (home & Hha & Hhome).
  apply list_elem_of_bind in Hha as (ra & Hha & _).
  apply list_elem_of_bind in Hha as (away & Hha & _).
  apply list_elem_of_singleton in Hha. subst ha. simpl.
  apply elem_of_in_rels in Hrh as (Hrh & Hty & Hdst).
  apply elem_of_labelled in Hhome as (_ & Hhome & _).
  apply elem_of_match_nodes in Ht1 as [Hn1 Hk1], Ht2 as [Hn2 Hk2].
  apply has_key_spec in Hk1 as [_ Hk1], Hk2 as [_ Hk2].
  assert (Hside : forall t, has_rel g PLAYED_HOME t m.1 = true -> rsrc rh.2 = t).
  { intros t Ht. unfold has_rel in Ht.
    apply existsb_exists in Ht as (r & Hr & Hrel).
    apply rel_is_spec in Hrel as (Hrt & Hrs & Hrd).
    rewrite <- Hrs. f_equal.
    apply (NoDup_map_eq rdst _ rh.2 r Hone).
    - apply elem_of_filter_bool. split.
      + eapply list_elem_of_lookup_2; eauto.
      + now apply bool_decide_eq_true.
    - apply elem_of_filter_bool. split.
      + now apply list_elem_of_In.
      + now apply bool_decide_eq_true.
    - congruence. }
  apply orb_true_iff in Hcond as [Hc|Hc];
    apply andb_true_iff in Hc as [Hc _]; apply Hside in Hc;
    rewrite Hc in Hhome.
  - left. unfold prop. replace home.2 with t1.2 by congruence. now rewrite Hk1.
  - right. unfold prop. replace home.2 with t2.2 by congruence. now rewrite Hk2.
Qed.

(** C3, as the code has it: when no match has two home sides, the
    head-to-head replies for two different teams in the two orders are
    mirror images: wins and losses exchanged, draws and number of matches
    equal, goals exchanged. *)
Theorem head_to_head_mirror g a b :
  one_home_side g -> a <> b ->
  mirrored (get_head_to_head g a b) (get_head_to_head g b a).
Proof.
  intros Hone Hab. unfold get_head_to_head.
  pose proof (team_names_query_nil g a b) as Hab_nil.
  pose proof (team_names_query_nil g b a) as Hba_nil.
  destruct (team_names_query g a b) as [|[n1 n2] rest] eqn:Eab.
  - assert (team_names_query g b a = []) as -> by (apply Hba_nil; tauto).
    constructor.
  - destruct (team_names_query g b a) as [|[n1' n2'] rest'] eqn:Eba.
    + assert (H : (n1, n2) :: rest = []) by (apply Hab_nil; tauto).
      discriminate.
    + pose proof (h2h_query_swap g a b) as Hperm.
      assert (Hhome : Forall (fun row => h_home_id row = VStr a
                                          \/ h_home_id row = VStr b)
                             (h2h_query g a b)).
      { unfold h2h_query. rewrite sort_by_perm. now apply h2h_rows_home. }
      destruct (h2h_query g a b) as [|x xs] eqn:Ea.
      * apply Permutation_nil in Hperm. rewrite Hperm. constructor.
      * destruct (h2h_query g b a) as [|y ys] eqn:Eb.
        { symmetry in Hperm. apply Permutation_nil in Hperm. discriminate. }
        rewrite !h2h_loop_total.
        rewrite <- (h2h_total_perm b _ _ Hperm).
        rewrite (h2h_total_mirror a b _ Hab Hhome).
        destruct (h2h_total a (x :: xs)) as [s|]; simpl; [|constructor].
        constructor; simpl; try lia.
        apply Permutation_length in Hperm. simpl in Hperm.
        simpl. lia.
Qed.

Lemma head_to_head_mirror_witness :
  mirrored (get_head_to_head sample_graph "T001" "T002")
           (get_head_to_head sample_graph "T002" "T001").
Proof.
  apply head_to_head_mirror.
  - apply (bool_decide_unpack _). vm_compute. reflexivity.
  - discriminate.
Defined.

(** C3, as stated for every graph, fails: after M001 was loaded twice with
    two home sides, Flamengo has one win against Fluminense in one order
    and two in the other. *)
Lemma head_to_head_two_home_sides :
  reachable reloaded_match_graph
  /\ (exists x y,
        get_head_to_head reloaded_match_graph "T001" "T002" = Found x
        /\ get_head_to_head reloaded_match_graph "T002" "T001" = Found y
        /\ h2h x = mkh2h_stats 1 1 0 3 3
        /\ h2h y = mkh2h_stats 0 2 0 2 4
        /\ team1_wins (h2h x) <> team2_wins (h2h y)).
Proof.
  split; [now exists reloaded_match_writes|].
  do 2 eexists. split; [vm_compute; reflexivity|].
  split; [vm_compute; reflexivity|].
  split; [reflexivity|]. split; [reflexivity|]. discriminate.
Qed.

(** The two teams have to differ as well: a team entered against itself
    wins as the first team and not as the second. *)
Example head_to_head_team_against_itself :
  reachable self_match_graph
  /\ one_home_side self_match_graph
  /\ exists x,
       get_head_to_head self_match_graph "T001" "T001" = Found x
       /\ h2h x = mkh2h_stats 1 0 0 2 1.
Proof.
  split; [now exists self_match_writes|].
  split; [apply (bool_decide_unpack _); vm_compute; reflexivity|].
  eexists. split; [vm_compute; reflexivity|reflexivity].
Qed.

(** ** Not found, and nothing found *)

Lemma bind_nil_all {A B} (f : A -> list B) (l : list A) :
  (forall x, x ∈ l -> f x = []) -> l ≫= f = [].
Proof.
  induction l as [|x l IH]; intros H; [reflexivity|].
  rewrite bind_cons, (H x) by left. apply IH.
  intros y Hy. apply H. now right.
Qed.

Lemma holds_cy_and a b :
  holds (cy_and a b) = true -> holds a = true /\ holds b = true.
Proof. destruct a as [[]|], b as [[]|]; simpl; auto. Qed.

(** *** Steps and operands that can fail *)


Lemma each_some {A B} (l : list A) (f : A -> option (list B)) :
  (forall x, x ∈ l -> exists ys, f x = Some ys) -> exists rows, each l f = Some rows.
Proof.
  induction l as [|x l IH]; intros H; simpl; [eauto|].
  destruct (H x) as [ys ->]; [now left|].
  destruct IH as [zs ->]; [intros y Hy; apply H; now right|].
  simpl. eauto.
Qed.

(** Every row of a step that succeeded comes from one of its inputs. *)
Lemma each_elem {A B} (l : list A) (f : A -> option (list B)) rows y :
  each l f = Some rows -> y ∈ rows ->
  exists x ys, x ∈ l /\ f x = Some ys /\ y ∈ ys.
Proof.
  revert rows. induction l as [|x l IH]; intros rows H Hy; simpl in H.
  - injection H as <-. inversion Hy.
  - destruct (f x) as [ys|] eqn:Ex; [|discriminate].
    destruct (each l f) as [zs|]; [|discriminate].
    simpl in H. injection H as <-.
    apply elem_of_app in Hy as [Hy|Hy].
    + exists x, ys. split; [now left|]. split; assumption.
    + destruct (IH zs eq_refl Hy) as (x' & ys' & Hx' & Hf & Hin).
      exists x', ys'. split; [now right|]. split; assumption.
Qed.

Lemma q_and_Some x y : q_and (Some x) (Some y) = Some (cy_and x y).
Proof. destruct x as [[]|], y as [[]|]; reflexivity. Qed.

Lemma q_or_Some x y : q_or (Some x) (Some y) = Some (cy_or x y).
Proof. destruct x as [[]|], y as [[]|]; reflexivity. Qed.

Lemma q_and_true a b c :
  q_and a b = Some c -> holds c = true ->
  a = Some (Some true) /\ b = Some (Some true).
Proof.
  destruct a as [[[]|]|], b as [[[]|]|]; simpl; intros [= <-]; simpl;
    intros; try discriminate; auto.
Qed.

Lemma q_or_true a b c :
  q_or a b = Some c -> holds c = true ->
  a = Some (Some true) \/ b = Some (Some true).
Proof.
  destruct a as [[[]|]|], b as [[[]|]|]; simpl; intros [= <-]; simpl;
    intros; try discriminate; auto.
Qed.



Section CaseInsensitive.
Context {folding : CaseFolding}.

Lemma contains_ci_text a pat :
  text_or_absent a -> exists c, cy_contains_ci a (VStr pat) = Some c.
Proof. intros [->|[s ->]]; simpl; eauto. Qed.

Lemma eq_ci_text a pat :
  text_or_absent a -> exists c, cy_eq_ci a (VStr pat) = Some c.
Proof. intros [->|[s ->]]; simpl; eauto. Qed.

Lemma contains_ci_true a pat :
  cy_contains_ci a (VStr pat) = Some (Some true) ->
  exists s, a = VStr s /\ contains (toLower s) (toLower pat) = true.
Proof.
  destruct a as [| |s|]; simpl; try discriminate.
  intros [= E]. eauto.
Qed.

Lemma eq_ci_true a pat :
  cy_eq_ci a (VStr pat) = Some (Some true) ->
  exists s, a = VStr s /\ toLower s = toLower pat.
Proof.
  destruct a as [| |s|]; simpl; try discriminate.
  intros [= E]. apply String.eqb_eq in E. eauto.
Qed.


Lemma position_filter_some position p c :
  text_or_absent (prop (nprops p) "position") ->
  exists c', position_filter position p (Some c) = Some c'.
Proof.
  intros Hp. unfold position_filter.
  destruct (given position) as [pos|]; [|eauto].
  destruct (eq_ci_text _ pos Hp) as [y ->].
  rewrite q_and_Some. eauto.
Qed.

Lemma position_filter_true position p c c' :
  position_filter position p c = Some c' -> holds c' = true ->
  c = Some (Some true)
  /\ forall pos, given position = Some pos ->
       exists s, prop (nprops p) "position" = VStr s /\ toLower s = toLower pos.
Proof.
  unfold position_filter. destruct (given position) as [pos|].
  - intros E Hh. destruct (q_and_true _ _ _ E Hh) as [-> Hpos].
    split; [reflexivity|]. intros ? [= <-]. now apply eq_ci_true.
  - intros -> Hh. destruct c' as [[]|]; try discriminate.
    split; [reflexivity|]. discriminate.
Qed.


Lemma elem_of_home_away g m ha :
  ha ∈ home_away g m ->
  (exists i, (i, ha.1) ∈ nodes_with g LTeam)
  /\ (exists i, (i, ha.2) ∈ nodes_with g LTeam).
Proof.
  unfold home_away. intros H.
  apply list_elem_of_bind in H as (rh & H & _).
  apply list_elem_of_bind in H as (home & H & Hhome).
  apply list_elem_of_bind in H as (ra & H & _).
  apply list_elem_of_bind in H as (away & H & Haway).
  apply list_elem_of_singleton in H. subst ha. simpl.
  apply elem_of_labelled in Hhome as (_ & Hh & Hlh).
  apply elem_of_labelled in Haway as (_ & Ha & Hla).
  split; eexists; apply elem_of_nodes_with; simpl; eauto.
Qed.

Lemma when_given_some o c :
  (forall x, exists r, c x = Some r) -> exists r, when_given o c = Some r.
Proof. intros Hc. unfold when_given. destruct (given o); eauto. Qed.

Lemma labelled_nodes_with g l i p :
  p ∈ labelled g l i -> p ∈ nodes_with g l.
Proof.
  intros Hp. apply elem_of_labelled in Hp as (Hi & Hn & Hl).
  apply elem_of_nodes_with. rewrite Hi. now split.
Qed.


End CaseInsensitive.





Lemma texts_test g l k :
  forallb (fun n => match prop (nprops n.2) k with
                    | VNull | VStr _ => true
                    | _ => false
                    end) (nodes_with g l) = true ->
  texts g l k.
Proof.
  intros Hall n Hn. rewrite forallb_forall in Hall.
  apply list_elem_of_In in Hn. specialize (Hall n Hn).
  destruct (prop (nprops n.2) k) as [| |s|]; try discriminate;
    [now left|right; eauto].
Qed.


(** The failure is there: a player whose name is a number fails the name
    filter of the search, and the tool raises. *)
Example search_player_raises_on_a_number `{CaseFolding} :
  search_player
    (mkgraph [mknode LPlayer {[ "player_id" := VStr "P1"; "name" := VInt 10 ]}] [])
    "pel" None None
  = Raised.
Proof. reflexivity. Qed.

(** * Further properties of the loaders and the tools *)

(** ** Upserts are idempotent *)

Lemma lookup_set_props_in sets m k v :
  NoDup (map fst sets) -> (k, v) ∈ sets ->
  set_props sets m !! k = match v with VNull => None | _ => Some v end.
Proof.
  unfold set_props. revert m.
  induction sets as [|kv sets IH]; intros m Hn Hin; simpl.
  - inversion Hin.
  - simpl in Hn. apply NoDup_cons in Hn as [Hk Hn].
    apply elem_of_cons in Hin as [<-|Hin].
    + fold (set_props sets (set_prop m (k, v))).
      rewrite lookup_set_props_other by exact Hk.
      unfold set_prop. simpl.
      destruct v; rewrite ?lookup_delete_eq, ?lookup_insert_eq; reflexivity.
    + now apply IH.
Qed.

Lemma set_props_idem sets m :
  NoDup (map fst sets) -> set_props sets (set_props sets m) = set_props sets m.
Proof.
  intros Hn. apply map_eq. intros k.
  destruct (decide (k ∈ map fst sets)) as [Hin|Hout].
  - apply elem_of_map in Hin as ([k' v] & -> & Hin). simpl.
    now rewrite !(lookup_set_props_in sets _ k' v Hn Hin).
  - now rewrite !lookup_set_props_other.
Qed.

Lemma set_node_idem sets n :
  NoDup (map fst sets) -> set_node sets (set_node sets n) = set_node sets n.
Proof. intros Hn. unfold set_node. simpl. now rewrite set_props_idem. Qed.

Lemma set_rel_idem sets r :
  NoDup (map fst sets) -> set_rel sets (set_rel sets r) = set_rel sets r.
Proof. intros Hn. unfold set_rel. simpl. now rewrite set_props_idem. Qed.

Lemma has_key_set_node l k id sets n :
  k ∉ map fst sets -> has_key l k id (set_node sets n) = has_key l k id n.
Proof.
  intros Hk. unfold has_key. simpl. now rewrite lookup_set_props_other.
Qed.

Lemma existsb_map_stable {A} (p : A -> bool) (f : A -> A) (l : list A) :
  (forall x, p (f x) = p x) -> existsb p (map f l) = existsb p l.
Proof.
  intros H. induction l as [|x l IH]; simpl; [reflexivity|].
  now rewrite H, IH.
Qed.

Lemma existsb_false_all {A} (p : A -> bool) (l : list A) x :
  existsb p l = false -> x ∈ l -> p x = false.
Proof.
  intros H Hx. destruct (p x) eqn:E; [|reflexivity].
  assert (existsb p l = true); [|congruence].
  apply existsb_exists. exists x. split; [now apply list_elem_of_In|exact E].
Qed.

(** Running the same node upsert twice is running it once. *)
Lemma merge_node_idem l k id sets g :
  k ∉ map fst sets -> NoDup (map fst sets) ->
  merge_node l k id sets (merge_node l k id sets g) = merge_node l k id sets g.
Proof.
  intros Hk Hn.
  set (f := fun n => if has_key l k id n then set_node sets n else n).
  assert (Hf : forall n, has_key l k id (f n) = has_key l k id n).
  { intros n. unfold f. destruct (has_key l k id n) eqn:E; [|exact E].
    now rewrite has_key_set_node. }
  assert (Hff : forall n, f (f n) = f n).
  { intros n. unfold f at 1. rewrite Hf. unfold f.
    destruct (has_key l k id n); [now apply set_node_idem|reflexivity]. }
  unfold merge_node at 2 3.
  destruct (existsb (has_key l k id) (nodes g)) eqn:E.
  - unfold merge_node. simpl. fold f.
    rewrite (existsb_map_stable _ f _ Hf), E. simpl. fold f.
    f_equal. rewrite map_map. apply map_ext. exact Hff.
  - unfold merge_node. simpl.
    assert (Hnew : has_key l k id (set_node sets (mknode l {[k := VStr id]})) = true).
    { rewrite has_key_set_node by exact Hk. apply has_key_spec. simpl.
      split; [reflexivity|apply lookup_singleton_eq]. }
    rewrite existsb_app. simpl. rewrite Hnew, orb_true_l, orb_true_r.
    f_equal. rewrite map_app. simpl. rewrite Hnew.
    rewrite set_node_idem by exact Hn. f_equal.
    apply map_id_on. intros n Hin.
    now rewrite (existsb_false_all _ _ _ E Hin).
Qed.

(** X1: loading the same player, team, competition, stadium or coach a
    second time leaves the graph as the first load left it. *)
Theorem node_loads_are_idempotent g :
  (forall x, load_player x (load_player x g) = load_player x g)
  /\ (forall x, load_team x (load_team x g) = load_team x g)
  /\ (forall x, load_competition x (load_competition x g) = load_competition x g)
  /\ (forall x, load_stadium x (load_stadium x g) = load_stadium x g)
  /\ (forall x, load_coach x (load_coach x g) = load_coach x g).
Proof.
  repeat split; intros x;
    [unfold load_player|unfold load_team|unfold load_competition
    |unfold load_stadium|unfold load_coach];
    (apply merge_node_idem; [not_listed|simpl; repeat constructor; not_listed]).
Qed.

(** ** Relationship upserts need their endpoints *)

Lemma match_pair_nil g la ka ida lb kb idb :
  match_nodes g la ka ida = [] \/ match_nodes g lb kb idb = [] ->
  match_pair g la ka ida lb kb idb = [].
Proof.
  unfold match_pair. intros [-> | ->]; [reflexivity|].
  apply bind_nil_all. intros a _. reflexivity.
Qed.

(** X2: loading a contract, a goal or a card whose player, team or match
    is not in the graph leaves the graph as it was: no node and no
    relationship is created or changed. *)
Theorem relationship_loads_need_endpoints g :
  (forall c,
      match_nodes g LPlayer "player_id" (PlayerContract.player_id c) = []
      \/ match_nodes g LTeam "team_id" (PlayerContract.team_id c) = [] ->
      load_player_contract c g = g)
  /\ (forall x,
        match_nodes g LPlayer "player_id" (Goal.player_id x) = []
        \/ match_nodes g LMatch "match_id" (Goal.match_id x) = [] ->
        load_goal x g = g)
  /\ (forall x,
        match_nodes g LPlayer "player_id" (Card.player_id x) = []
        \/ match_nodes g LMatch "match_id" (Card.match_id x) = [] ->
        load_card x g = g).
Proof.
  repeat split; intros x H;
    [unfold load_player_contract|unfold load_goal|unfold load_card];
    now rewrite match_pair_nil.
Qed.

Lemma relationship_loads_need_endpoints_witness :
  load_player_contract
    (PlayerContract.mk "P999" "T001" (mkdate 2020 1 1) None) sample_graph
  = sample_graph
  /\ load_goal (Goal.mk "P001" "M999" 10 "regular") sample_graph = sample_graph.
Proof.
  destruct (relationship_loads_need_endpoints sample_graph) as (Hc & Hg & _).
  split.
  - apply Hc. left. vm_compute. reflexivity.
  - apply Hg. right. vm_compute. reflexivity.
Defined.

(** ** A match loaded before its teams or its competition *)

Lemma merge_node_result l k id sets g :
  k ∉ map fst sets -> NoDup (map fst sets) ->
  exists i n,
    nodes (merge_node l k id sets g) !! i = Some n
    /\ has_key l k id n = true
    /\ forall k' v, (k', v) ∈ sets -> prop (nprops n) k' = v.
Proof.
  intros Hk Hn.
  destruct (existsb (has_key l k id) (nodes g)) eqn:E.
  - apply existsb_exists in E as (n0 & Hin & Hkey).
    apply list_elem_of_In, list_elem_of_lookup_1 in Hin as [i Hi].
    exists i, (set_node sets n0).
    rewrite (merge_node_lookup _ _ _ _ _ _ _ Hi), Hkey.
    split; [reflexivity|]. split; [now rewrite has_key_set_node|].
    intros k' v Hkv. now apply prop_set_props_in.
  - exists (length (nodes g)), (set_node sets (mknode l {[k := VStr id]})).
    unfold merge_node. rewrite E. simpl.
    split; [now apply list_lookup_middle|].
    split.
    + rewrite has_key_set_node by exact Hk. apply has_key_spec. simpl.
      split; [reflexivity|apply lookup_singleton_eq].
    + intros k' v Hkv. now apply prop_set_props_in.
Qed.

(** A node upsert does not touch the nodes of another label. *)
Lemma filter_has_key_merge_node_other l k id sets g l' k' id' :
  l' <> l ->
  List.filter (has_key l' k' id') (nodes (merge_node l k id sets g))
  = List.filter (has_key l' k' id') (nodes g).
Proof.
  intros Hl.
  assert (Hother : forall n, has_key l' k' id' n = true -> has_key l k id n = false).
  { intros n Hn. apply has_key_spec in Hn as [Hn _].
    unfold has_key. rewrite bool_decide_eq_false_2; [reflexivity|congruence]. }
  unfold merge_node.
  destruct (existsb (has_key l k id) (nodes g)) eqn:E; simpl.
  - rewrite filter_map_stable.
    + apply map_id_on. intros n Hn. apply elem_of_filter_bool in Hn as [_ Hn].
      now rewrite (Hother n Hn).
    + intros n. destruct (has_key l k id n) eqn:Hn; [|reflexivity].
      apply has_key_spec in Hn as [Hn _].
      unfold has_key. simpl.
      rewrite !(bool_decide_eq_false_2 (nlabel n = l')) by congruence.
      reflexivity.
  - rewrite List.filter_app. simpl.
    unfold has_key at 2. simpl.
    rewrite (bool_decide_eq_false_2 (l = l')) by congruence. simpl.
    apply app_nil_r.
Qed.

Lemma match_nodes_nil g l k id :
  match_nodes g l k id = [] <-> List.filter (has_key l k id) (nodes g) = [].
Proof.
  pose proof (match_nodes_length g l k id) as H.
  split; intros E; rewrite E in H; simpl in H.
  - destruct (List.filter _ _); [reflexivity|discriminate].
  - destruct (match_nodes _ _ _ _); [reflexivity|discriminate].
Qed.

Lemma match_nodes_nil_merge_node_other l k id sets g l' k' id' :
  l' <> l ->
  match_nodes g l' k' id' = [] ->
  match_nodes (merge_node l k id sets g) l' k' id' = [].
Proof.
  intros Hl H. apply match_nodes_nil.
  rewrite filter_has_key_merge_node_other by exact Hl.
  now apply match_nodes_nil.
Qed.

Lemma match_upsert_without_endpoints match_id sets home away comp g :
  match_nodes g LTeam "team_id" home = []
  \/ match_nodes g LTeam "team_id" away = []
  \/ match_nodes g LCompetition "competition_id" comp = [] ->
  match_upsert match_id sets home away comp g
  = merge_node LMatch "match_id" match_id sets g.
Proof.
  intros H. unfold match_upsert. cbv zeta.
  set (g1 := merge_node LMatch "match_id" match_id sets g).
  assert (Hrows :
    (match_nodes g1 LMatch "match_id" match_id ≫= fun m =>
     match_nodes g1 LTeam "team_id" home ≫= fun h =>
     match_nodes g1 LTeam "team_id" away ≫= fun a =>
     match_nodes g1 LCompetition "competition_id" comp ≫= fun c =>
     [(m.1, h.1, a.1, c.1)]) = []).
  { assert (Ht : forall id, match_nodes g LTeam "team_id" id = [] ->
                         match_nodes g1 LTeam "team_id" id = []).
    { intros id Hid. apply match_nodes_nil_merge_node_other; [discriminate|exact Hid]. }
    apply bind_nil_all. intros m _.
    destruct H as [H|[H|H]].
    - rewrite (Ht _ H). reflexivity.
    - apply bind_nil_all. intros h _. rewrite (Ht _ H). reflexivity.
    - apply bind_nil_all. intros h _. apply bind_nil_all. intros a _.
      assert (Hc : match_nodes g1 LCompetition "competition_id" comp = []).
      { apply match_nodes_nil_merge_node_other; [discriminate|exact H]. }
      rewrite Hc. reflexivity. }
  rewrite Hrows. reflexivity.
Qed.

(** X3: when a team or the competition of a match is not in the graph,
    [load_match] still writes the match node, with its date and scores,
    and creates no relationship at all. *)
Theorem load_match_without_endpoints g mt :
  match_nodes g LTeam "team_id" (Match.home_team_id mt) = []
  \/ match_nodes g LTeam "team_id" (Match.away_team_id mt) = []
  \/ match_nodes g LCompetition "competition_id" (Match.competition_id mt) = [] ->
  rels (load_match mt g) = rels g
  /\ exists i n,
       nodes (load_match mt g) !! i = Some n
       /\ has_key LMatch "match_id" (Match.match_id mt) n = true
       /\ prop (nprops n) "date" = VStr (isoformat (Match.date mt))
       /\ prop (nprops n) "home_score" = VInt (Match.home_score mt)
       /\ prop (nprops n) "away_score" = VInt (Match.away_score mt).
Proof.
  intros H. unfold load_match.
  rewrite match_upsert_without_endpoints by exact H.
  split; [apply rels_merge_node|].
  destruct (merge_node_result LMatch "match_id" (Match.match_id mt)
              [ ("date", VStr (isoformat (Match.date mt)));
                ("home_score", VInt (Match.home_score mt));
                ("away_score", VInt (Match.away_score mt));
                ("attendance", opt_int (Match.attendance mt)) ] g)
    as (i & n & Hi & Hkey & Hprops);
    [not_listed|simpl; repeat constructor; not_listed|].
  exists i, n. repeat split; try assumption; apply Hprops; listed.
Qed.

Lemma load_match_without_endpoints_witness :
  let mt := Match.mk "M900" (mkdate 2025 3 1) "T001" "T002" 1 0 "C999" None None in
  rels (load_match mt sample_graph) = rels sample_graph
  /\ exists i n,
       nodes (load_match mt sample_graph) !! i = Some n
       /\ has_key LMatch "match_id" "M900" n = true
       /\ prop (nprops n) "date" = VStr (isoformat (mkdate 2025 3 1))
       /\ prop (nprops n) "home_score" = VInt 1
       /\ prop (nprops n) "away_score" = VInt 0.
Proof.
  intros mt. apply (load_match_without_endpoints sample_graph mt).
  right. right. vm_compute. reflexivity.
Defined.

(** ** What a write never takes away *)

Lemma keeps_refl g : keeps g g.
Proof.
  split.
  - intros i n H. exists n. now repeat split.
  - intros j r H. exists r. now repeat split.
Qed.

Lemma keeps_trans g1 g2 g3 : keeps g1 g2 -> keeps g2 g3 -> keeps g1 g3.
Proof.
  intros [Hn1 Hr1] [Hn2 Hr2]. split.
  - intros i n H.
    destruct (Hn1 i n H) as (n' & H' & Hl & Hk).
    destruct (Hn2 i n' H') as (n'' & H'' & Hl' & Hk').
    exists n''. split; [exact H''|]. split; [congruence|].
    rewrite Hl in Hk'. congruence.
  - intros j r H.
    destruct (Hr1 j r H) as (r' & H' & Ht & Hs & Hd).
    destruct (Hr2 j r' H') as (r'' & H'' & Ht' & Hs' & Hd').
    exists r''. split; [exact H''|]. repeat split; congruence.
Qed.

Lemma keeps_merge_node l id sets g :
  key_of l ∉ map fst sets -> keeps g (merge_node l (key_of l) id sets g).
Proof.
  intros Hk. split.
  - intros i n H. eexists. split; [apply merge_node_lookup, H|].
    destruct (has_key l (key_of l) id n) eqn:E; [|now split].
    apply has_key_spec in E as [El _].
    split; [reflexivity|]. simpl. rewrite El.
    now apply lookup_set_props_other.
  - intros j r H. exists r. rewrite rels_merge_node. now repeat split.
Qed.

Lemma keeps_merge_rel t s d sets g : keeps g (merge_rel t s d sets g).
Proof.
  split.
  - intros i n H. exists n. rewrite nodes_merge_rel. now repeat split.
  - intros j r H. unfold merge_rel.
    destruct (existsb (rel_is t s d) (rels g)); simpl.
    + eexists. rewrite list_lookup_fmap, H. split; [reflexivity|].
      destruct (rel_is t s d r); now repeat split.
    + exists r. split; [now apply lookup_app_l_Some|]. now repeat split.
Qed.

Lemma keeps_merge_rel_rows t sets rows g : keeps g (merge_rel_rows t sets rows g).
Proof.
  unfold merge_rel_rows. revert g.
  induction rows as [|sd rows IH]; intros g; simpl; [apply keeps_refl|].
  eapply keeps_trans; [apply keeps_merge_rel|apply IH].
Qed.

Lemma keeps_match_upsert match_id sets home away comp g :
  "match_id" ∉ map fst sets ->
  keeps g (match_upsert match_id sets home away comp g).
Proof.
  intros Hk. unfold match_upsert. cbv zeta.
  eapply keeps_trans; [|apply keeps_merge_rel_rows].
  eapply keeps_trans; [|apply keeps_merge_rel_rows].
  eapply keeps_trans; [|apply keeps_merge_rel_rows].
  apply (keeps_merge_node LMatch). exact Hk.
Qed.

Lemma keeps_apply_write w g : w <> WClear -> keeps g (apply_write w g).
Proof.
  intros Hw. destruct w; cbn [apply_write].
  - unfold load_player. apply (keeps_merge_node LPlayer). not_listed.
  - unfold load_team. apply (keeps_merge_node LTeam). not_listed.
  - unfold load_match. apply keeps_match_upsert. not_listed.
  - unfold load_competition. apply (keeps_merge_node LCompetition). not_listed.
  - unfold load_stadium. apply (keeps_merge_node LStadium). not_listed.
  - unfold load_coach. apply (keeps_merge_node LCoach). not_listed.
  - unfold load_player_contract. apply keeps_merge_rel_rows.
  - unfold load_goal. apply keeps_merge_rel_rows.
  - unfold load_card. apply keeps_merge_rel_rows.
  - unfold kaggle_match_upsert. apply keeps_match_upsert. not_listed.
  - unfold kaggle_brf_match_upsert. cbv zeta.
    eapply keeps_trans; [|apply keeps_merge_rel_rows].
    eapply keeps_trans; [|apply keeps_merge_rel_rows].
    eapply keeps_trans; [|apply keeps_merge_rel_rows].
    apply (keeps_merge_node LMatch). not_listed.
  - unfold kaggle_player_upsert. apply (keeps_merge_node LPlayer). not_listed.
  - unfold kaggle_contract_upsert. apply keeps_merge_rel_rows.
  - contradiction.
Qed.

(** X4: as long as the database is not cleared, no write removes a node or
    a relationship: every node stays in its place with its label and its
    identifier, every relationship with its type and its two ends. *)
Theorem writes_keep_nodes_and_relationships ws g :
  WClear ∉ ws -> keeps g (run ws g).
Proof.
  unfold run. revert g.
  induction ws as [|w ws IH]; intros g Hc; simpl; [apply keeps_refl|].
  apply (keeps_trans _ (apply_write w g)).
  - apply keeps_apply_write. intros ->. apply Hc. now left.
  - apply IH. intros H. apply Hc. now right.
Qed.

Lemma writes_keep_nodes_and_relationships_witness :
  keeps sample_graph
    (run [ WPlayer (Player.mk "P001" "Gabriel" None "Brazil" "Forward" None);
           WGoal (Goal.mk "P001" "M001" 90 "penalty") ] sample_graph).
Proof.
  apply writes_keep_nodes_and_relationships. not_listed.
Defined.

(** ** Relationships join nodes of the right kind *)

Lemma has_label_keeps g g' i l : keeps g g' -> has_label g i l -> has_label g' i l.
Proof.
  intros [Hn _] (n & H & Hl).
  destruct (Hn i n H) as (n' & H' & Hl' & _).
  exists n'. split; [exact H'|congruence].
Qed.

Lemma has_label_nodes g g' i l :
  nodes g' = nodes g -> has_label g i l -> has_label g' i l.
Proof. unfold has_label. now intros ->. Qed.

Lemma has_label_match_nodes g l k id p :
  p ∈ match_nodes g l k id -> has_label g p.1 l.
Proof.
  intros H. apply elem_of_match_nodes in H as [H Hk].
  apply has_key_spec in Hk as [Hl _]. now exists p.2.
Qed.

Lemma rels_typed_merge_node l id sets g :
  key_of l ∉ map fst sets ->
  rels_typed g -> rels_typed (merge_node l (key_of l) id sets g).
Proof.
  intros Hk Ht r Hr. rewrite rels_merge_node in Hr.
  destruct (Ht r Hr) as [Hs Hd].
  split; eapply has_label_keeps; eauto using keeps_merge_node.
Qed.

Lemma rels_typed_merge_rel t s d sets g :
  has_label g s (src_label t) -> has_label g d (dst_label t) ->
  rels_typed g -> rels_typed (merge_rel t s d sets g).
Proof.
  intros Hs Hd Ht r Hr.
  assert (Hends : (exists r0, r0 ∈ rels g /\ same_ends r0 r)
                  \/ (rtype r = t /\ rsrc r = s /\ rdst r = d)).
  { unfold merge_rel in Hr.
    destruct (existsb (rel_is t s d) (rels g)); simpl in Hr.
    - apply elem_of_map in Hr as (r0 & Er & Hr0). left. exists r0.
      split; [exact Hr0|]. subst r. destruct (rel_is t s d r0); now repeat split.
    - apply elem_of_app in Hr as [Hr|Hr].
      + left. exists r. split; [exact Hr|now repeat split].
      + apply list_elem_of_singleton in Hr. subst r. now right. }
  unfold has_label. rewrite nodes_merge_rel.
  destruct Hends as [(r0 & Hr0 & Et & Es & Ed)|(Et & Es & Ed)].
  - rewrite Et, Es, Ed. now apply Ht.
  - rewrite Et, Es, Ed. now split.
Qed.

Lemma rels_typed_merge_rel_rows t sets rows g0 g :
  nodes g = nodes g0 ->
  (forall sd, sd ∈ rows ->
     has_label g0 sd.1 (src_label t) /\ has_label g0 sd.2 (dst_label t)) ->
  rels_typed g -> rels_typed (merge_rel_rows t sets rows g).
Proof.
  unfold merge_rel_rows. revert g.
  induction rows as [|sd rows IH]; intros g Hn Hrows Ht; simpl; [exact Ht|].
  apply IH.
  - now rewrite nodes_merge_rel.
  - intros sd' H. apply Hrows. now right.
  - destruct (Hrows sd) as [Hs Hd]; [now left|].
    apply rels_typed_merge_rel; [| |exact Ht];
      eapply has_label_nodes; eauto.
Qed.

Lemma rels_typed_pair t sets g la ka ida lb kb idb :
  la = src_label t -> lb = dst_label t ->
  rels_typed g ->
  rels_typed (merge_rel_rows t sets (match_pair g la ka ida lb kb idb) g).
Proof.
  intros -> -> Ht.
  apply (rels_typed_merge_rel_rows _ _ _ g); [reflexivity| |exact Ht].
  intros [a b] H.
  apply elem_of_match_pair in H as [(n & Hn & Hk) (m & Hm & Hk')].
  apply has_key_spec in Hk as [Hl _], Hk' as [Hl' _].
  split; [now exists n|now exists m].
Qed.

Lemma rels_typed_match_upsert match_id sets home away comp g :
  "match_id" ∉ map fst sets ->
  rels_typed g -> rels_typed (match_upsert match_id sets home away comp g).
Proof.
  intros Hk Ht. unfold match_upsert. cbv zeta.
  set (g1 := merge_node LMatch "match_id" match_id sets g).
  set (rows := match_nodes g1 LMatch "match_id" match_id ≫= _).
  assert (Hrows : forall r, r ∈ rows ->
            has_label g1 r.1.1.1 LMatch /\ has_label g1 r.1.1.2 LTeam
            /\ has_label g1 r.1.2 LTeam /\ has_label g1 r.2 LCompetition).
  { intros r Hr. unfold rows in Hr.
    apply list_elem_of_bind in Hr as (m & Hr & Hm).
    apply list_elem_of_bind in Hr as (h & Hr & Hh).
    apply list_elem_of_bind in Hr as (a & Hr & Ha).
    apply list_elem_of_bind in Hr as (c & Hr & Hc).
    apply list_elem_of_singleton in Hr. subst r. simpl.
    repeat split; eapply has_label_match_nodes; eassumption. }
  assert (H1 : rels_typed g1) by (apply (rels_typed_merge_node LMatch); assumption).
  apply (rels_typed_merge_rel_rows _ _ _ g1).
  { now rewrite !nodes_merge_rel_rows. }
  { intros sd Hsd. apply elem_of_map in Hsd as (r & -> & Hr).
    simpl. destruct (Hrows r Hr) as (? & ? & ? & ?). now split. }
  apply (rels_typed_merge_rel_rows _ _ _ g1).
  { now rewrite !nodes_merge_rel_rows. }
  { intros sd Hsd. apply elem_of_map in Hsd as (r & -> & Hr).
    simpl. destruct (Hrows r Hr) as (? & ? & ? & ?). now split. }
  apply (rels_typed_merge_rel_rows _ _ _ g1).
  { reflexivity. }
  { intros sd Hsd. apply elem_of_map in Hsd as (r & -> & Hr).
    simpl. destruct (Hrows r Hr) as (? & ? & ? & ?). now split. }
  exact H1.
Qed.

Lemma rels_typed_brf_match_upsert row g :
  rels_typed g -> rels_typed (kaggle_brf_match_upsert row g).
Proof.
  intros Ht. unfold kaggle_brf_match_upsert. cbv zeta.
  set (g1 := merge_node LMatch "match_id" _ _ g).
  set (teams := match_nodes g1 LMatch "match_id" _ ≫= _).
  set (cs := match_nodes g1 LCompetition "competition_id" _).
  set (rows := teams ≫= _).
  assert (Hrows : forall r, r ∈ rows ->
            has_label g1 r.1.1.1 LMatch /\ has_label g1 r.1.1.2 LTeam
            /\ has_label g1 r.1.2 LTeam
            /\ forall c, r.2 = Some c -> has_label g1 c LCompetition).
  { intros r Hr. unfold rows in Hr.
    apply list_elem_of_bind in Hr as (tr & Hr & Htr).
    assert (Htr' : has_label g1 tr.1.1 LMatch /\ has_label g1 tr.1.2 LTeam
                   /\ has_label g1 tr.2 LTeam).
    { unfold teams in Htr.
      apply list_elem_of_bind in Htr as (m & Htr & Hm).
      apply list_elem_of_bind in Htr as (h & Htr & Hh).
      apply list_elem_of_bind in Htr as (a & Htr & Ha).
      apply list_elem_of_singleton in Htr. subst tr. simpl.
      repeat split; eapply has_label_match_nodes; eassumption. }
    destruct Htr' as (Hm & Hh & Ha).
    destruct cs as [|c0 cs'] eqn:Ecs.
    - apply list_elem_of_singleton in Hr. subst r. simpl.
      repeat split; try assumption. discriminate.
    - apply elem_of_map in Hr as (c & -> & Hc). simpl.
      repeat split; try assumption.
      intros c' [= <-]. apply (has_label_match_nodes g1 _ "competition_id"
        (KaggleBrfMatch.competition_id row)).
      fold cs. now rewrite Ecs. }
  assert (H1 : rels_typed g1) by (apply (rels_typed_merge_node LMatch); [not_listed|assumption]).
  apply (rels_typed_merge_rel_rows _ _ _ g1).
  { now rewrite !nodes_merge_rel_rows. }
  { intros sd Hsd. apply list_elem_of_bind in Hsd as (r & Hsd & Hr).
    destruct (Hrows r Hr) as (? & ? & ? & Hc).
    destruct (r.2) as [c|] eqn:Ec; [|inversion Hsd].
    apply list_elem_of_singleton in Hsd. subst sd. simpl.
    split; [assumption|now apply Hc]. }
  apply (rels_typed_merge_rel_rows _ _ _ g1).
  { now rewrite !nodes_merge_rel_rows. }
  { intros sd Hsd. apply elem_of_map in Hsd as (r & -> & Hr).
    simpl. destruct (Hrows r Hr) as (? & ? & ? & ?). now split. }
  apply (rels_typed_merge_rel_rows _ _ _ g1).
  { reflexivity. }
  { intros sd Hsd. apply elem_of_map in Hsd as (r & -> & Hr).
    simpl. destruct (Hrows r Hr) as (? & ? & ? & ?). now split. }
  exact H1.
Qed.

Lemma rels_typed_apply_write w g : rels_typed g -> rels_typed (apply_write w g).
Proof.
  intros Ht. destruct w; cbn [apply_write].
  - unfold load_player. apply (rels_typed_merge_node LPlayer); [not_listed|exact Ht].
  - unfold load_team. apply (rels_typed_merge_node LTeam); [not_listed|exact Ht].
  - unfold load_match. apply rels_typed_match_upsert; [not_listed|exact Ht].
  - unfold load_competition.
    apply (rels_typed_merge_node LCompetition); [not_listed|exact Ht].
  - unfold load_stadium. apply (rels_typed_merge_node LStadium); [not_listed|exact Ht].
  - unfold load_coach. apply (rels_typed_merge_node LCoach); [not_listed|exact Ht].
  - unfold load_player_contract. now apply rels_typed_pair.
  - unfold load_goal. now apply rels_typed_pair.
  - unfold load_card. cbv zeta.
    destruct (String.eqb (Card.card_type x) "yellow"); now apply rels_typed_pair.
  - unfold kaggle_match_upsert. apply rels_typed_match_upsert; [not_listed|exact Ht].
  - now apply rels_typed_brf_match_upsert.
  - unfold kaggle_player_upsert.
    apply (rels_typed_merge_node LPlayer); [not_listed|exact Ht].
  - unfold kaggle_contract_upsert. now apply rels_typed_pair.
  - intros r Hr. inversion Hr.
Qed.

(** X5: in every graph the loaders can build, each relationship joins two
    nodes that exist, of the labels its type asks for: [PLAYS_FOR] a
    player and a team, [PLAYED_HOME] and [PLAYED_AWAY] a team and a match,
    [PART_OF] a match and a competition, goals and cards a player and a
    match. *)
Theorem relationships_join_the_right_nodes g :
  reachable g -> rels_typed g.
Proof.
  intros [ws ->]. unfold run.
  assert (H0 : rels_typed empty_graph) by (intros r Hr; inversion Hr).
  revert H0. generalize empty_graph.
  induction ws as [|w ws IH]; intros g Hg; simpl; [exact Hg|].
  apply IH. now apply rels_typed_apply_write.
Qed.

Lemma relationships_join_the_right_nodes_witness :
  reachable sample_graph /\ rels_typed sample_graph.
Proof.
  split; [apply reachable_sample|].
  apply relationships_join_the_right_nodes, reachable_sample.
Defined.

(** ** The types of the values in the store *)

Lemma elem_of_merge_node l k id sets g n' :
  n' ∈ nodes (merge_node l k id sets g) ->
  n' ∈ nodes g
  \/ exists n, nlabel n = l /\ n' = set_node sets n
               /\ (n ∈ nodes g \/ n = mknode l {[ k := VStr id ]}).
Proof.
  unfold merge_node. destruct (existsb _ _); simpl; intros H.
  - apply elem_of_map in H as (n & -> & Hn).
    destruct (has_key l k id n) eqn:E; [|now left].
    apply has_key_spec in E as [El _]. right. exists n. auto.
  - apply elem_of_app in H as [H|H]; [now left|].
    apply list_elem_of_singleton in H. right.
    exists (mknode l {[ k := VStr id ]}). auto.
Qed.

Lemma elem_of_merge_rel t s d sets g r' :
  r' ∈ rels (merge_rel t s d sets g) ->
  r' ∈ rels g
  \/ exists r, rtype r = t /\ r' = set_rel sets r
               /\ (r ∈ rels g \/ rprops r = ∅).
Proof.
  unfold merge_rel. destruct (existsb _ _); simpl; intros H.
  - apply elem_of_map in H as (r & -> & Hr).
    destruct (rel_is t s d r) eqn:E; [|now left].
    apply rel_is_spec in E as (Et & _). right. exists r. auto.
  - apply elem_of_app in H as [H|H]; [now left|].
    apply list_elem_of_singleton in H. right.
    exists (mkrel t s d ∅). auto.
Qed.

Lemma match_scored_set_node sets n :
  NoDup (map fst sets) ->
  (exists d, ("date", VStr d) ∈ sets) ->
  (exists h, ("home_score", VInt h) ∈ sets) ->
  (exists a, ("away_score", VInt a) ∈ sets) ->
  "attendance" ∉ map fst sets \/ (exists o, ("attendance", opt_int o) ∈ sets) ->
  int_or_absent (prop (nprops n) "attendance") ->
  match_scored (set_node sets n).
Proof.
  intros Hn [d Hd] [h Hh] [a Ha] Hatt Hold _. simpl.
  split; [exists d; now apply prop_set_props_in|].
  split; [exists h; now apply prop_set_props_in|].
  split; [exists a; now apply prop_set_props_in|].
  destruct Hatt as [Hatt|[o Ho]].
  - now rewrite prop_set_props_other.
  - rewrite (prop_set_props_in _ _ _ _ Hn Ho).
    destruct o; [right; eauto|now left].
Qed.

Lemma values_typed_merge_match id sets g :
  NoDup (map fst sets) ->
  (exists d, ("date", VStr d) ∈ sets) ->
  (exists h, ("home_score", VInt h) ∈ sets) ->
  (exists a, ("away_score", VInt a) ∈ sets) ->
  "attendance" ∉ map fst sets \/ (exists o, ("attendance", opt_int o) ∈ sets) ->
  values_typed g -> values_typed (merge_node LMatch "match_id" id sets g).
Proof.
  intros Hn Hd Hh Ha Hatt [Hnodes Hrels]. split.
  - intros n' H. apply elem_of_merge_node in H as [H|(n & Hl & -> & H)];
      [now apply Hnodes|].
    apply match_scored_set_node; try assumption.
    destruct H as [H| ->]; [now apply (Hnodes n H)|now left].
  - intros r. rewrite rels_merge_node. apply Hrels.
Qed.

Lemma values_typed_merge_other l k id sets g :
  l <> LMatch -> values_typed g -> values_typed (merge_node l k id sets g).
Proof.
  intros Hl [Hnodes Hrels]. split.
  - intros n' H. apply elem_of_merge_node in H as [H|(n & El & -> & H)];
      [now apply Hnodes|].
    intros Hm. simpl in Hm. congruence.
  - intros r. rewrite rels_merge_node. apply Hrels.
Qed.

Lemma text_or_absent_opt_iso o : text_or_absent (opt_iso o).
Proof. destruct o; [right; eauto|now left]. Qed.

Lemma values_typed_merge_rel t s d sets g :
  (t = PLAYS_FOR ->
   (NoDup (map fst sets)
    /\ (exists x, ("start_date", VStr x) ∈ sets)
    /\ (exists o, ("end_date", opt_iso o) ∈ sets))
   \/ (("start_date" ∉ map fst sets) /\ ("end_date" ∉ map fst sets))) ->
  values_typed g -> values_typed (merge_rel t s d sets g).
Proof.
  intros Hsets [Hnodes Hrels]. split.
  - intros n. rewrite nodes_merge_rel. apply Hnodes.
  - intros r' H. apply elem_of_merge_rel in H as [H|(r & Et & -> & H)];
      [now apply Hrels|].
    intros Hp. simpl in Hp.
    assert (Hold : text_or_absent (prop (rprops r) "start_date")
                   /\ text_or_absent (prop (rprops r) "end_date")).
    { destruct H as [H|H]; [apply (Hrels r H Hp)|].
      rewrite H. split; now left. }
    destruct Hsets as [(Hn & [x Hx] & [o Ho])|[Hs He]]; [congruence| |]; simpl.
    + rewrite (prop_set_props_in _ _ _ _ Hn Hx), (prop_set_props_in _ _ _ _ Hn Ho).
      split; [right; eauto|apply text_or_absent_opt_iso].
    + now rewrite !prop_set_props_other.
Qed.

Lemma values_typed_merge_rel_rows t sets rows g :
  (t = PLAYS_FOR ->
   (NoDup (map fst sets)
    /\ (exists x, ("start_date", VStr x) ∈ sets)
    /\ (exists o, ("end_date", opt_iso o) ∈ sets))
   \/ (("start_date" ∉ map fst sets) /\ ("end_date" ∉ map fst sets))) ->
  values_typed g -> values_typed (merge_rel_rows t sets rows g).
Proof.
  intros Hsets. unfold merge_rel_rows. revert g.
  induction rows as [|sd rows IH]; intros g Hg; simpl; [exact Hg|].
  apply IH. now apply values_typed_merge_rel.
Qed.

Lemma values_typed_apply_write w g : values_typed g -> values_typed (apply_write w g).
Proof.
  intros Hg. destruct w; cbn [apply_write].
  - unfold load_player. now apply values_typed_merge_other.
  - unfold load_team. now apply values_typed_merge_other.
  - unfold load_match, match_upsert. cbv zeta.
    do 3 (apply values_typed_merge_rel_rows; [discriminate|]).
    apply values_typed_merge_match; try exact Hg.
    + simpl. repeat constructor; not_listed.
    + eexists. listed.
    + eexists. listed.
    + eexists. listed.
    + right. eexists. listed.
  - unfold load_competition. now apply values_typed_merge_other.
  - unfold load_stadium. now apply values_typed_merge_other.
  - unfold load_coach. now apply values_typed_merge_other.
  - unfold load_player_contract. apply values_typed_merge_rel_rows; [|exact Hg].
    intros _. left. split; [simpl; repeat constructor; not_listed|].
    split; eexists; listed.
  - unfold load_goal. apply values_typed_merge_rel_rows; [discriminate|exact Hg].
  - unfold load_card. cbv zeta.
    apply values_typed_merge_rel_rows; [|exact Hg].
    destruct (String.eqb _ _); discriminate.
  - unfold kaggle_match_upsert, match_upsert. cbv zeta.
    do 3 (apply values_typed_merge_rel_rows; [discriminate|]).
    apply values_typed_merge_match; try exact Hg.
    + simpl. repeat constructor; not_listed.
    + eexists. listed.
    + eexists. listed.
    + eexists. listed.
    + left. not_listed.
  - unfold kaggle_brf_match_upsert. cbv zeta.
    do 3 (apply values_typed_merge_rel_rows; [discriminate|]).
    apply values_typed_merge_match; try exact Hg.
    + simpl. repeat constructor; not_listed.
    + eexists. listed.
    + eexists. listed.
    + eexists. listed.
    + left. not_listed.
  - unfold kaggle_player_upsert. now apply values_typed_merge_other.
  - unfold kaggle_contract_upsert. apply values_typed_merge_rel_rows; [|exact Hg].
    intros _. right. split; not_listed.
  - split; intros x Hx; inversion Hx.
Qed.

(** Every graph the loaders can build keeps the scores of its matches as
    numbers and the dates of its matches and contracts as text. *)
Lemma reachable_values_typed g : reachable g -> values_typed g.
Proof.
  intros [ws ->]. unfold run.
  assert (H0 : values_typed empty_graph) by (split; intros x Hx; inversion Hx).
  revert H0. generalize empty_graph.
  induction ws as [|w ws IH]; intros g Hg; simpl; [exact Hg|].
  apply IH. now apply values_typed_apply_write.
Qed.

(** ** Team statistics add up *)

Lemma outcome_one a b :
  case_one_zero (cy_gt (VInt a) (VInt b))
  + case_one_zero (cy_eq (VInt a) (VInt b))
  + case_one_zero (cy_lt (VInt a) (VInt b)) = 1
  /\ 0 <= case_one_zero (cy_gt (VInt a) (VInt b))
  /\ 0 <= case_one_zero (cy_eq (VInt a) (VInt b))
  /\ 0 <= case_one_zero (cy_lt (VInt a) (VInt b)).
Proof.
  unfold cy_gt, cy_lt, cy_eq, case_one_zero. simpl.
  rewrite (Z.compare_antisym a b).
  destruct (Z.compare_spec a b) as [E|E|E]; case_bool_decide as Hd; simpl;
    try lia; try congruence.
  - injection Hd as ->. lia.
  - injection Hd as ->. lia.
Qed.

Lemma cy_sum_ints vs :
  (forall v, v ∈ vs -> exists n, v = VInt n) -> exists z, cy_sum vs = Some z.
Proof.
  induction vs as [|v vs IH]; intros H; simpl; [eauto|].
  destruct (H v) as [n ->]; [now left|].
  destruct IH as [z ->]; [intros w Hw; apply H; now right|].
  simpl. eauto.
Qed.

Lemma side_stats_add_up own other ms :
  (forall m, m ∈ ms ->
     exists a b, prop (nprops m) own = VInt a /\ prop (nprops m) other = VInt b) ->
  exists st, side_stats own other ms = Some st
             /\ wins st + draws st + losses st = matches st
             /\ 0 <= wins st /\ 0 <= draws st /\ 0 <= losses st.
Proof.
  intros H. unfold side_stats. cbv zeta.
  destruct (cy_sum_ints (map (fun m => prop (nprops m) own) ms)) as [gf ->].
  { intros v Hv. apply elem_of_map in Hv as (m & -> & Hm).
    destruct (H m Hm) as (a & b & -> & _). eauto. }
  destruct (cy_sum_ints (map (fun m => prop (nprops m) other) ms)) as [ga ->].
  { intros v Hv. apply elem_of_map in Hv as (m & -> & Hm).
    destruct (H m Hm) as (a & b & _ & ->). eauto. }
  simpl. eexists. split; [reflexivity|]. simpl.
  clear gf ga. induction ms as [|m ms IH]; simpl; [lia|].
  destruct (H m) as (a & b & -> & ->); [now left|].
  destruct (outcome_one a b) as (H1 & Hw & Hd & Hl).
  destruct IH as (IH1 & IHw & IHd & IHl); [intros m' Hm'; apply H; now right|].
  lia.
Qed.

Lemma side_matches_scored g side team_id season m :
  values_typed g -> m ∈ side_matches g side team_id season ->
  exists h a, prop (nprops m) "home_score" = VInt h
              /\ prop (nprops m) "away_score" = VInt a.
Proof.
  intros [Hnodes _] H. unfold side_matches in H.
  apply list_elem_of_bind in H as (t & H & _).
  apply list_elem_of_bind in H as (r & H & _).
  apply list_elem_of_bind in H as (m0 & H & Hm0).
  apply elem_of_labelled in Hm0 as (_ & Hm0 & Hl).
  assert (E : m = m0.2).
  { destruct (given season).
    - apply list_elem_of_bind in H as (r2 & H & _).
      apply list_elem_of_bind in H as (c & H & _).
      destruct (bool_decide _); [|inversion H].
      now apply list_elem_of_singleton in H.
    - now apply list_elem_of_singleton in H. }
  subst m. apply list_elem_of_lookup_2 in Hm0.
  destruct (Hnodes _ Hm0 Hl) as (_ & [h Hh] & [a Ha] & _). eauto.
Qed.

(** X6: on every graph the loaders can build, [get_team_stats] answers
    without raising, and in its report wins, draws and losses are
    non-negative and add up to the number of matches. *)
Theorem team_stats_add_up g team_id season :
  reachable g ->
  get_team_stats g team_id season <> Raised
  /\ forall name st,
       get_team_stats g team_id season = Found (name, st) ->
       wins st + draws st + losses st = matches st
       /\ 0 <= wins st /\ 0 <= draws st /\ 0 <= losses st.
Proof.
  intros Hg. apply reachable_values_typed in Hg.
  unfold get_team_stats.
  destruct (team_name_query g team_id) as [|team_name ?];
    [split; [discriminate|intros; discriminate]|].
  destruct (side_stats_add_up "home_score" "away_score"
              (side_matches g PLAYED_HOME team_id season))
    as (home & -> & Hh & ? & ? & ?).
  { intros m Hm. eapply side_matches_scored; eauto. }
  destruct (side_stats_add_up "away_score" "home_score"
              (side_matches g PLAYED_AWAY team_id season))
    as (away & -> & Ha & ? & ? & ?).
  { intros m Hm.
    destruct (side_matches_scored _ _ _ _ _ Hg Hm) as (h & a & ? & ?). eauto. }
  split; [discriminate|].
  intros name st [= _ <-]. simpl. lia.
Qed.

Lemma team_stats_add_up_witness :
  reachable sample_graph
  /\ get_team_stats sample_graph "T001" (Some "2023") <> Raised
  /\ forall name st,
       get_team_stats sample_graph "T001" (Some "2023") = Found (name, st) ->
       wins st + draws st + losses st = matches st
       /\ 0 <= wins st /\ 0 <= draws st /\ 0 <= losses st.
Proof.
  split; [apply reachable_sample|].
  apply team_stats_add_up, reachable_sample.
Defined.

(** ** Head to head: every match is a win or a draw *)

Lemma h2h_delta_some team1_id row :
  (exists hs aws, h_home_score row = VInt hs /\ h_away_score row = VInt aws) ->
  exists d, h2h_delta team1_id row = Some d.
Proof.
  intros (hs & aws & Hh & Ha). unfold h2h_delta, h2h_step. rewrite Hh, Ha.
  destruct (bool_decide _);
    [destruct (hs >? aws), (hs <? aws) | destruct (aws >? hs), (aws <? hs)];
    eauto.
Qed.

Lemma h2h_delta_one team1_id row d :
  h2h_delta team1_id row = Some d ->
  team1_wins d + team2_wins d + h_draws d = 1
  /\ 0 <= team1_wins d /\ 0 <= team2_wins d /\ 0 <= h_draws d.
Proof.
  unfold h2h_delta, h2h_step.
  destruct (h_home_score row) as [|hs| |]; try discriminate.
  destruct (h_away_score row) as [|aws| |]; try discriminate.
  destruct (bool_decide _);
    [destruct (hs >? aws), (hs <? aws) | destruct (aws >? hs), (aws <? hs)];
    intros [= <-]; simpl; lia.
Qed.

Lemma h2h_total_some team1_id rows :
  (forall row, row ∈ rows ->
     exists hs aws, h_home_score row = VInt hs /\ h_away_score row = VInt aws) ->
  exists st, h2h_total team1_id rows = Some st.
Proof.
  induction rows as [|row rows IH]; intros H; simpl; [eauto|].
  destruct (h2h_delta_some team1_id row) as [d ->]; [apply H; now left|].
  destruct IH as [st ->]; [intros r Hr; apply H; now right|]. eauto.
Qed.

Lemma h2h_total_count team1_id rows st :
  h2h_total team1_id rows = Some st ->
  team1_wins st + team2_wins st + h_draws st = Z.of_nat (length rows)
  /\ 0 <= team1_wins st /\ 0 <= team2_wins st /\ 0 <= h_draws st.
Proof.
  revert st. induction rows as [|row rows IH]; intros st; simpl.
  - intros [= <-]. simpl. lia.
  - destruct (h2h_delta team1_id row) as [d|] eqn:Ed; [|discriminate].
    destruct (h2h_total team1_id rows) as [s|]; [|discriminate].
    intros [= <-]. apply h2h_delta_one in Ed.
    specialize (IH s eq_refl). simpl. lia.
Qed.

Lemma h2h_rows_scored g a b row :
  values_typed g -> row ∈ h2h_rows g a b ->
  exists hs aws, h_home_score row = VInt hs /\ h_away_score row = VInt aws.
Proof.
  intros [Hnodes _] H. unfold h2h_rows in H.
  apply list_elem_of_bind in H as (t1 & H & _).
  apply list_elem_of_bind in H as (t2 & H & _).
  apply list_elem_of_bind in H as (m & H & Hm).
  apply elem_of_nodes_with in Hm as [Hm Hl].
  destruct (_ || _); [|inversion H].
  apply list_elem_of_bind in H as (ha & H & _).
  apply list_elem_of_singleton in H. subst row. simpl.
  apply list_elem_of_lookup_2 in Hm.
  destruct (Hnodes _ Hm Hl) as (_ & [h Hh] & [x Hx] & _). eauto.
Qed.

(** X7: on every graph the loaders can build, [get_head_to_head] answers
    without raising; in its report the wins of the two teams and the
    draws are non-negative and add up to the total number of matches the
    report gives, which is positive, and at most five matches are listed
    as recent.  (The total counts the rows of the query: a match that
    was loaded with two home sides has two rows.) *)
Theorem head_to_head_adds_up g team1_id team2_id :
  reachable g ->
  get_head_to_head g team1_id team2_id <> Raised
  /\ forall x,
       get_head_to_head g team1_id team2_id = Found x ->
       team1_wins (h2h x) + team2_wins (h2h x) + h_draws (h2h x) = total_matches x
       /\ 0 <= team1_wins (h2h x) /\ 0 <= team2_wins (h2h x)
       /\ 0 <= h_draws (h2h x)
       /\ 0 < total_matches x
       /\ (length (recent x) <= 5)%nat.
Proof.
  intros Hg. apply reachable_values_typed in Hg.
  unfold get_head_to_head.
  destruct (team_names_query g team1_id team2_id) as [|[n1 n2] ?];
    [split; [discriminate|intros; discriminate]|].
  assert (Hrows : forall row, row ∈ h2h_query g team1_id team2_id ->
            exists hs aws, h_home_score row = VInt hs /\ h_away_score row = VInt aws).
  { intros row Hrow. unfold h2h_query in Hrow. rewrite sort_by_perm in Hrow.
    eapply h2h_rows_scored; eauto. }
  destruct (h2h_query g team1_id team2_id) as [|m ms];
    [split; [discriminate|intros; discriminate]|].
  rewrite h2h_loop_total.
  destruct (h2h_total_some team1_id (m :: ms) Hrows) as [st Hst].
  rewrite Hst. simpl option_map.
  split; [discriminate|].
  intros x [= <-]. cbn [h2h total_matches recent].
  apply h2h_total_count in Hst.
  change (mkh2h_stats 0 0 0 0 0) with no_stats. rewrite no_stats_add.
  simpl length in *. rewrite length_take. lia.
Qed.

Lemma head_to_head_adds_up_witness :
  reachable sample_graph
  /\ get_head_to_head sample_graph "T001" "T002" <> Raised
  /\ forall x,
       get_head_to_head sample_graph "T001" "T002" = Found x ->
       team1_wins (h2h x) + team2_wins (h2h x) + h_draws (h2h x) = total_matches x
       /\ 0 <= team1_wins (h2h x) /\ 0 <= team2_wins (h2h x)
       /\ 0 <= h_draws (h2h x)
       /\ 0 < total_matches x
       /\ (length (recent x) <= 5)%nat.
Proof.
  split; [apply reachable_sample|].
  apply head_to_head_adds_up, reachable_sample.
Defined.

(** ** The career of a player *)

Lemma elem_of_group_by {K V} `{EqDecision K} (rows : list (K * V)) kv v :
  kv ∈ group_by rows -> v ∈ kv.2 -> (kv.1, v) ∈ rows.
Proof.
  unfold group_by. intros H Hv.
  apply elem_of_map in H as (k & -> & _). simpl in *.
  apply elem_of_map in Hv as (r & -> & Hr).
  apply elem_of_filter_bool in Hr as [Hr Hk].
  apply bool_decide_eq_true in Hk. destruct r as [k' v']. simpl in *. now subst.
Qed.

Lemma career_stints_dated g player_id c st :
  values_typed g -> c ∈ career_query g player_id -> st ∈ c_career c ->
  text_or_absent (st_start_date st).
Proof.
  intros [_ Hrels] Hc Hst. unfold career_query in Hc. cbv zeta in Hc.
  apply elem_of_map in Hc as (kv & -> & Hkv). simpl in Hst.
  pose proof (elem_of_group_by _ _ _ Hkv Hst) as Hrow.
  apply list_elem_of_bind in Hrow as (p & Hrow & _).
  match type of Hrow with
  | context [match ?e with _ => _ end] => destruct e as [|s0 sts] eqn:E
  end.
  - apply list_elem_of_singleton in Hrow. injection Hrow as _ ->. now left.
  - apply elem_of_map in Hrow as (st' & Hrow & Hin). injection Hrow as _ ->.
    rewrite <- E in Hin.
    apply list_elem_of_bind in Hin as (r & Hin & Hr).
    apply list_elem_of_bind in Hin as (t & Hin & _).
    apply list_elem_of_singleton in Hin. subst st'. simpl.
    apply elem_of_out_rels in Hr as (Hr & Ht & _).
    apply list_elem_of_lookup_2 in Hr. now apply (Hrels _ Hr Ht).
Qed.

Lemma or_empty_text v : text_or_absent v -> exists s, or_empty v = VStr s.
Proof.
  intros [->|[s ->]]; unfold or_empty; simpl; [eauto|].
  destruct (negb _); eauto.
Qed.

(** Sorting keys that are all text never raises. *)
Lemma py_sorted_text {A} (key : A -> value) (l : list A) :
  (forall x, x ∈ l -> exists s, key x = VStr s) ->
  py_sorted key l = Some (sort_by (fun a b => order_leb (key a) (key b)) l).
Proof.
  intros H. destruct l as [|x rest]; [reflexivity|]. unfold py_sorted.
  replace (forallb _ rest) with true; [reflexivity|].
  symmetry. apply forallb_forall. intros y Hy. apply list_elem_of_In in Hy.
  destruct (H x) as [s Hs]; [now left|]. destruct (H y) as [s' Hs']; [now right|].
  rewrite Hs, Hs'. reflexivity.
Qed.

(** X8: on every graph the loaders can build, [get_player_career] answers
    without raising; the career it reports lists only stints with a team,
    in ascending order of their start date, a stint without a start date
    counting as the empty text. *)
Theorem player_career_is_ordered g player_id :
  reachable g ->
  get_player_career g player_id <> Raised
  /\ forall c,
       get_player_career g player_id = Found c ->
       Sorted (fun a b => order_leb (or_empty (st_start_date a))
                                    (or_empty (st_start_date b)) = true)
              (c_career c)
       /\ forall st, st ∈ c_career c -> truthy (st_team st) = true.
Proof.
  intros Hg. apply reachable_values_typed in Hg. unfold get_player_career.
  destruct (career_query g player_id) as [|player rest] eqn:E;
    [split; [discriminate|intros; discriminate]|].
  rewrite py_sorted_text.
  2:{ intros st Hst. apply elem_of_filter_bool in Hst as [Hst _].
      apply or_empty_text.
      apply (career_stints_dated g player_id player st Hg); [|exact Hst].
      rewrite E. now left. }
  split; [discriminate|]. intros c [= <-]. simpl. split.
  - apply (sort_by_sorted (fun a b => order_leb (or_empty (st_start_date a))
                                                (or_empty (st_start_date b)))).
    intros x y. apply order_leb_total.
  - intros st Hst. rewrite sort_by_perm in Hst.
    now apply elem_of_filter_bool in Hst as [_ ?].
Qed.

Lemma player_career_is_ordered_witness :
  reachable sample_graph
  /\ get_player_career sample_graph "P001" <> Raised
  /\ forall c,
       get_player_career sample_graph "P001" = Found c ->
       Sorted (fun a b => order_leb (or_empty (st_start_date a))
                                    (or_empty (st_start_date b)) = true)
              (c_career c)
       /\ forall st, st ∈ c_career c -> truthy (st_team st) = true.
Proof.
  split; [apply reachable_sample|].
  apply player_career_is_ordered, reachable_sample.
Defined.

(** ** The details of a match *)

Lemma match_details_rows g match_id mt :
  values_typed g -> mt ∈ match_details_query g match_id ->
  d_match_id mt = VStr match_id
  /\ (exists d, d_date mt = VStr d)
  /\ (exists h a, d_home_score mt = VInt h /\ d_away_score mt = VInt a)
  /\ int_or_absent (d_attendance mt).
Proof.
  intros [Hnodes _] H. unfold match_details_query in H.
  apply list_elem_of_bind in H as (m & H & Hm).
  apply list_elem_of_bind in H as (ha & H & _).
  apply list_elem_of_bind in H as (po & H & _).
  apply list_elem_of_bind in H as (c & H & _).
  apply list_elem_of_singleton in H. subst mt. simpl.
  apply elem_of_match_nodes in Hm as [Hm Hk].
  apply has_key_spec in Hk as [Hl Hid].
  apply list_elem_of_lookup_2 in Hm.
  destruct (Hnodes _ Hm Hl) as ([d Hd] & [h Hh] & [a Ha] & Hatt).
  split; [unfold prop; now rewrite Hid|].
  split; [eauto|]. split; [eauto|exact Hatt].
Qed.

(** X9: on every graph the loaders can build, [get_match_details] answers
    without raising; the match it reports is the one asked for, with its
    date as text and both scores as numbers, and its goals are listed in
    ascending order of the minute. *)
Theorem match_details_are_printable g match_id :
  reachable g ->
  get_match_details g match_id <> Raised
  /\ forall mt goals,
       get_match_details g match_id = Found (mt, goals) ->
       d_match_id mt = VStr match_id
       /\ (exists d, d_date mt = VStr d)
       /\ (exists h a, d_home_score mt = VInt h /\ d_away_score mt = VInt a)
       /\ Sorted (fun a b => order_leb (gl_minute a) (gl_minute b) = true) goals.
Proof.
  intros Hg. apply reachable_values_typed in Hg. unfold get_match_details.
  destruct (match_details_query g match_id) as [|mt0 rest] eqn:E;
    [split; [discriminate|intros; discriminate]|].
  destruct (match_details_rows g match_id mt0 Hg) as (Hid & Hd & Hs & Hatt);
    [rewrite E; now left|].
  assert (Hp : attendance_prints (d_attendance mt0) = true).
  { destruct Hatt as [->|[n ->]]; reflexivity. }
  rewrite Hp. split; [discriminate|].
  intros mt goals [= <- <-].
  repeat split; try assumption.
  unfold scorers_query.
  apply (sort_by_sorted (fun a b => order_leb (gl_minute a) (gl_minute b))).
  intros x y. apply order_leb_total.
Qed.

Lemma match_details_are_printable_witness :
  reachable sample_graph
  /\ get_match_details sample_graph "M001" <> Raised
  /\ forall mt goals,
       get_match_details sample_graph "M001" = Found (mt, goals) ->
       d_match_id mt = VStr "M001"
       /\ (exists d, d_date mt = VStr d)
       /\ (exists h a, d_home_score mt = VInt h /\ d_away_score mt = VInt a)
       /\ Sorted (fun a b => order_leb (gl_minute a) (gl_minute b) = true) goals.
Proof.
  split; [apply reachable_sample|].
  apply match_details_are_printable, reachable_sample.
Defined.

(** ** The roster and the date *)

Lemma bind_ext_in {A B} (f h : A -> list B) (l : list A) :
  (forall x, x ∈ l -> f x = h x) -> l ≫= f = l ≫= h.
Proof.
  induction l as [|x l IH]; intros H; [reflexivity|].
  rewrite !bind_cons, (H x) by left. f_equal. apply IH.
  intros y Hy. apply H. now right.
Qed.

(** A contract date kept as text passes the roster filter only by being
    absent. *)
Lemma roster_filter_text e today :
  text_or_absent e ->
  holds (cy_or (Some (is_null e)) (cy_ge e (VDate today))) = is_null e.
Proof. intros [->|[s ->]]; reflexivity. Qed.

Lemma roster_query_typed g team_id today :
  values_typed g ->
  roster_query g team_id today
  = sort_by (fun a b => lex_leb (ro_position a, ro_name a)
                                (ro_position b, ro_name b))
      (t ← match_nodes g LTeam "team_id" team_id;
       r ← in_rels g PLAYS_FOR t.1;
       p ← labelled g LPlayer (rsrc r.2);
       if is_null (prop (rprops r.2) "end_date")
       then [ mkroster_row (prop (nprops p.2) "player_id")
                           (prop (nprops p.2) "name")
                           (prop (nprops p.2) "position")
                           (prop (nprops p.2) "jersey_number")
                           (prop (rprops r.2) "start_date") ]
       else []).
Proof.
  intros [_ Hrels]. unfold roster_query. cbv zeta. f_equal.
  apply bind_ext_in. intros t _.
  apply bind_ext_in. intros r Hr.
  apply elem_of_in_rels in Hr as (Hr & Ht & _).
  apply list_elem_of_lookup_2 in Hr.
  destruct (Hrels _ Hr Ht) as [_ He].
  apply bind_ext_in. intros p _.
  now rewrite roster_filter_text.
Qed.

(** X10: on every graph the loaders can build, the roster does not depend
    on the date it is taken at: the loaders keep contract dates as text,
    so a contract is listed exactly when it has no end date, and one with
    an end date is left out however far in the future that date is. *)
Theorem roster_ignores_the_date g team_id season today today' :
  reachable g ->
  get_team_roster g today team_id season = get_team_roster g today' team_id season
  /\ forall name rows,
       get_team_roster g today team_id season = Found (name, rows) ->
       forall row, row ∈ rows ->
         exists r p,
           r ∈ rels g /\ rtype r = PLAYS_FOR
           /\ nodes g !! rsrc r = Some p /\ nlabel p = LPlayer
           /\ prop (rprops r) "end_date" = VNull
           /\ ro_player_id row = prop (nprops p) "player_id"
           /\ ro_joined row = prop (rprops r) "start_date".
Proof.
  intros Hg. apply reachable_values_typed in Hg.
  unfold get_team_roster.
  rewrite (roster_query_typed g team_id today Hg).
  rewrite (roster_query_typed g team_id today' Hg).
  split; [reflexivity|].
  destruct (team_name_query g team_id) as [|team_name ?]; [discriminate|].
  intros name rows [= _ <-] row Hrow.
  rewrite sort_by_perm in Hrow.
  apply list_elem_of_bind in Hrow as (t & Hrow & _).
  apply list_elem_of_bind in Hrow as (r & Hrow & Hr).
  apply list_elem_of_bind in Hrow as (p & Hrow & Hp).
  destruct (prop (rprops r.2) "end_date") eqn:He; simpl in Hrow;
    try (inversion Hrow; fail).
  apply list_elem_of_singleton in Hrow. subst row.
  apply elem_of_in_rels in Hr as (Hr & Ht & _).
  apply elem_of_labelled in Hp as (_ & Hp & Hl).
  apply list_elem_of_lookup_2 in Hr.
  exists r.2, p.2. repeat split; assumption.
Qed.

Lemma roster_ignores_the_date_witness :
  reachable sample_graph
  /\ get_team_roster sample_graph (mkdate 2020 1 1) "T001" None
     = get_team_roster sample_graph (mkdate 2030 1 1) "T001" None
  /\ forall name rows,
       get_team_roster sample_graph (mkdate 2020 1 1) "T001" None
       = Found (name, rows) ->
       forall row, row ∈ rows ->
         exists r p,
           r ∈ rels sample_graph /\ rtype r = PLAYS_FOR
           /\ nodes sample_graph !! rsrc r = Some p /\ nlabel p = LPlayer
           /\ prop (rprops r) "end_date" = VNull
           /\ ro_player_id row = prop (nprops p) "player_id"
           /\ ro_joined row = prop (rprops r) "start_date".
Proof.
  split; [apply reachable_sample|].
  apply roster_ignores_the_date, reachable_sample.
Defined.

(** ** Match search *)

Lemma Sorted_take {A} (R : A -> A -> Prop) (l : list A) n :
  Sorted R l -> Sorted R (take n l).
Proof.
  intros H. revert n. induction H as [|x l Hl IH Hx]; intros n.
  - destruct n; constructor.
  - destruct n as [|n]; simpl; [constructor|].
    constructor; [apply IH|].
    destruct Hx as [|y l' Hxy]; destruct n; simpl; constructor. exact Hxy.
Qed.

Lemma elem_of_take_list {A} (l : list A) n x : x ∈ take n l -> x ∈ l.
Proof.
  intros H. rewrite <- (take_drop n l). apply elem_of_app. now left.
Qed.

Section MatchSearch.
Context {folding : CaseFolding}.

Lemma when_given_true o c x :
  when_given o c = Some (Some true) -> given o = Some x ->
  c x = Some (Some true).
Proof. unfold when_given. intros E G. now rewrite G in E. Qed.

(** X11: [search_matches] lists at least one and at most twenty matches,
    the latest first, and every match listed passes every filter that was
    given: the team's name is part of the home or of the away team's name,
    the date lies within the bounds, the competition's name contains the
    one asked for (names compared after [toLower]). *)
Theorem search_matches_rows_pass_the_filters
    g team date_from date_to competition rows :
  search_matches g team date_from date_to competition = Found rows ->
  (0 < length rows <= 20)%nat
  /\ Sorted (fun a b => order_leb (m_date b) (m_date a) = true) rows
  /\ forall row, row ∈ rows ->
       (forall tm, given team = Some tm ->
          (exists s, m_home_team row = VStr s
                     /\ contains (toLower s) (toLower tm) = true)
          \/ (exists s, m_away_team row = VStr s
                        /\ contains (toLower s) (toLower tm) = true))
       /\ (forall d, given date_from = Some d ->
             cy_ge (m_date row) (VStr d) = Some true)
       /\ (forall d, given date_to = Some d ->
             cy_le (m_date row) (VStr d) = Some true)
       /\ (forall cn, given competition = Some cn ->
             exists s, m_competition row = VStr s
                       /\ contains (toLower s) (toLower cn) = true).
Proof.
  unfold search_matches.
  destruct (search_matches_query g team date_from date_to competition)
    as [[|r0 rest]|] eqn:E; try discriminate.
  intros [= <-].
  unfold search_matches_query in E.
  destruct (each (nodes_with g LMatch) _) as [rows0|] eqn:E0; [|discriminate].
  simpl in E. injection E as E. rewrite <- E.
  split; [|split].
  - split; [rewrite E; simpl; lia|rewrite length_take; lia].
  - apply Sorted_take.
    apply (sort_by_sorted (fun a b => desc_leb (m_date a) (m_date b))).
    intros x y. unfold desc_leb. apply order_leb_total.
  - intros row Hrow. apply elem_of_take_list in Hrow.
    rewrite sort_by_perm in Hrow.
    destruct (each_elem _ _ _ _ E0 Hrow) as (m & rows1 & _ & E1 & Hrow1).
    destruct (each_elem _ _ _ _ E1 Hrow1) as (ha & rows2 & _ & E2 & Hrow2).
    destruct (each_elem _ _ _ _ E2 Hrow2) as (po & rows3 & _ & E3 & Hrow3).
    destruct (each_elem _ _ _ _ E3 Hrow3) as (c & rows4 & _ & E4 & Hrow4).
    destruct (q_and _ _) as [cond|] eqn:Ec; [|discriminate].
    simpl in E4. injection E4 as <-.
    destruct (holds cond) eqn:Hc; [|inversion Hrow4].
    apply list_elem_of_singleton in Hrow4. subst row. simpl.
    destruct (q_and_true _ _ _ Ec Hc) as [Hteam Ec1].
    destruct (q_and_true _ _ _ Ec1 eq_refl) as [Hfrom Ec2].
    destruct (q_and_true _ _ _ Ec2 eq_refl) as [Hto Hcomp].
    repeat split.
    + intros tm Htm.
      pose proof (when_given_true _ _ _ Hteam Htm) as Hor. simpl in Hor.
      destruct (q_or_true _ _ _ Hor eq_refl) as [Hh|Ha];
        [left|right]; now apply contains_ci_true.
    + intros d Hd.
      pose proof (when_given_true _ _ _ Hfrom Hd) as Hge. simpl in Hge.
      congruence.
    + intros d Hd.
      pose proof (when_given_true _ _ _ Hto Hd) as Hle. simpl in Hle.
      congruence.
    + intros cn Hcn.
      apply contains_ci_true, (when_given_true _ _ _ Hcomp Hcn).
Qed.

End MatchSearch.

Lemma search_matches_rows_pass_the_filters_witness :
  exists rows,
    @search_matches latin_folding sample_graph
      (Some "FLAMENGO") (Some "2023-05-01") (Some "2023-12-31") None
    = Found rows
    /\ (0 < length rows <= 20)%nat
    /\ Sorted (fun a b => order_leb (m_date b) (m_date a) = true) rows
    /\ forall row, row ∈ rows ->
         (forall tm, given (Some "FLAMENGO") = Some tm ->
            (exists s, m_home_team row = VStr s
                       /\ contains (lower s) (lower tm) = true)
            \/ (exists s, m_away_team row = VStr s
                          /\ contains (lower s) (lower tm) = true))
         /\ (forall d, given (Some "2023-05-01") = Some d ->
               cy_ge (m_date row) (VStr d) = Some true)
         /\ (forall d, given (Some "2023-12-31") = Some d ->
               cy_le (m_date row) (VStr d) = Some true)
         /\ (forall cn, given None = Some cn ->
               exists s, m_competition row = VStr s
                         /\ contains (lower s) (lower cn) = true).
Proof.
  assert (E : exists rows,
             @search_matches latin_folding sample_graph
               (Some "FLAMENGO") (Some "2023-05-01") (Some "2023-12-31") None
             = Found rows).
  { vm_compute. eauto. }
  destruct E as [rows E]. exists rows. split; [exact E|].
  exact (@search_matches_rows_pass_the_filters latin_folding sample_graph
           _ _ _ _ rows E).
Defined.

(** ** Common teammates *)

Lemma cy_neq_true a b : holds (cy_neq a b) = true -> a <> b /\ a <> VNull.
Proof.
  unfold cy_neq, cy_eq. intros H. split.
  - intros ->. destruct b; simpl in H; try discriminate;
      rewrite bool_decide_eq_true_2 in H by reflexivity; discriminate.
  - intros ->. discriminate.
Qed.

(** X12: [find_common_teammates] never lists one of the two players
    themselves, lists only players that have an identifier, and lists
    each teammate once. *)
Theorem common_teammates_exclude_the_two_players
    g player1_id player2_id n1 n2 rows :
  find_common_teammates g player1_id player2_id = Found (n1, n2, rows) ->
  NoDup (map (fun row => (tm_name row, tm_player_id row)) rows)
  /\ forall row, row ∈ rows ->
       tm_player_id row <> VStr player1_id
       /\ tm_player_id row <> VStr player2_id
       /\ tm_player_id row <> VNull.
Proof.
  unfold find_common_teammates.
  destruct (player_names_query g player1_id player2_id) as [|[m1 m2] ?];
    [discriminate|].
  cbv zeta. destruct (forallb _ _); [|discriminate].
  intros [= _ _ <-]. unfold common_teammates_query. cbv zeta. split.
  - rewrite map_map. simpl.
    rewrite (map_ext _ fst) by (now intros [[? ?] ?]).
    rewrite group_by_keys. apply NoDup_remove_dups.
  - intros row Hrow. apply elem_of_map in Hrow as (kv & -> & Hkv). simpl.
    assert (Hkey : kv.1 ∈ map fst (group_by
              (match_nodes g LPlayer "player_id" player1_id ≫= fun p1 =>
               club_mates g p1.1 ≫= fun tm =>
               match_nodes g LPlayer "player_id" player2_id ≫= fun p2 =>
               List.filter (fun x => (x.2.1 =? tm.2.1)%nat) (club_mates g p2.1)
                 ≫= fun tm2 =>
               if holds (cy_and (cy_neq (prop (nprops tm.2.2) "player_id")
                                        (VStr player1_id))
                                (cy_neq (prop (nprops tm.2.2) "player_id")
                                        (VStr player2_id)))
               then [ ((prop (nprops tm.2.2) "name",
                        prop (nprops tm.2.2) "player_id"),
                       (prop (nprops tm.1.2) "name",
                        prop (nprops tm2.1.2) "name")) ]
               else []))).
    { apply elem_of_map. exists kv. split; [reflexivity|exact Hkv]. }
    rewrite group_by_keys, elem_of_remove_dups in Hkey.
    apply elem_of_map in Hkey as (r0 & Hk & Hr0). rewrite Hk. clear Hk Hkv.
    apply list_elem_of_bind in Hr0 as (p1 & Hr0 & _).
    apply list_elem_of_bind in Hr0 as (tm & Hr0 & _).
    apply list_elem_of_bind in Hr0 as (p2 & Hr0 & _).
    apply list_elem_of_bind in Hr0 as (tm2 & Hr0 & _).
    destruct (holds _) eqn:Hc; [|inversion Hr0].
    apply list_elem_of_singleton in Hr0. subst r0. simpl.
    apply holds_cy_and in Hc as [H1 H2].
    apply cy_neq_true in H1 as [H1 Hnull], H2 as [H2 _]. auto.
Qed.

Lemma common_teammates_exclude_the_two_players_witness :
  let rows := common_teammates_query sample_graph "P001" "P002" in
  NoDup (map (fun row => (tm_name row, tm_player_id row)) rows)
  /\ forall row, row ∈ rows ->
       tm_player_id row <> VStr "P001"
       /\ tm_player_id row <> VStr "P002"
       /\ tm_player_id row <> VNull.
Proof.
  intros rows.
  apply (common_teammates_exclude_the_two_players sample_graph "P001" "P002"
           (VStr "Gabriel Barbosa (Gabigol)") (VStr "Pedro")).
  vm_compute. reflexivity.
Defined.

(** ** Loading a relationship or a match twice *)

Lemma graph_eq (a b : graph) : nodes a = nodes b -> rels a = rels b -> a = b.
Proof. destruct a, b. simpl. now intros -> ->. Qed.

Lemma merge_rel_settled sets t s d g :
  settled sets t s d g -> merge_rel t s d sets g = g.
Proof.
  intros [He Hr]. unfold merge_rel. rewrite He.
  apply graph_eq; simpl; [reflexivity|].
  apply map_id_on. intros r Hin.
  destruct (rel_is t s d r) eqn:E; auto.
Qed.

Lemma settled_merge_rel_here sets t s d g :
  NoDup (map fst sets) -> settled sets t s d (merge_rel t s d sets g).
Proof.
  intros Hn. unfold settled, merge_rel.
  destruct (existsb (rel_is t s d) (rels g)) eqn:E; simpl.
  - split.
    + rewrite existsb_map_stable; [exact E|].
      intros r. apply rel_is_update.
    + intros r' Hr' Hm. apply elem_of_map in Hr' as (r & -> & _).
      destruct (rel_is t s d r) eqn:Er; [|congruence].
      now apply set_rel_idem.
  - split.
    + rewrite existsb_app. simpl.
      replace (rel_is t s d (mkrel t s d (set_props sets ∅))) with true;
        [now rewrite orb_true_r|].
      symmetry. apply rel_is_spec. auto.
    + intros r' Hr' Hm. apply elem_of_app in Hr' as [Hr'|Hr'].
      * rewrite (existsb_false_all _ _ _ E Hr') in Hm. discriminate.
      * apply list_elem_of_singleton in Hr'. subst r'.
        unfold set_rel. simpl. now rewrite set_props_idem.
Qed.

Lemma settled_merge_rel_other sets t s d t' s' d' g :
  NoDup (map fst sets) ->
  settled sets t s d g -> settled sets t s d (merge_rel t' s' d' sets g).
Proof.
  intros Hn [He Hr]. unfold settled, merge_rel.
  destruct (existsb (rel_is t' s' d') (rels g)) eqn:E; simpl.
  - split.
    + rewrite existsb_map_stable; [exact He|].
      intros r. apply rel_is_update.
    + intros r' Hr' Hm. apply elem_of_map in Hr' as (r & -> & Hin).
      destruct (rel_is t' s' d' r) eqn:Er.
      * now apply set_rel_idem.
      * now apply Hr.
  - split.
    + rewrite existsb_app, He. reflexivity.
    + intros r' Hr' Hm. apply elem_of_app in Hr' as [Hr'|Hr'].
      * now apply Hr.
      * apply list_elem_of_singleton in Hr'. subst r'.
        unfold set_rel. simpl. now rewrite set_props_idem.
Qed.

Lemma settled_merge_rel_rows sets t s d t' rows g :
  NoDup (map fst sets) ->
  settled sets t s d g -> settled sets t s d (merge_rel_rows t' sets rows g).
Proof.
  intros Hn. unfold merge_rel_rows. revert g.
  induction rows as [|sd rows IH]; intros g H; simpl; [exact H|].
  apply IH. now apply settled_merge_rel_other.
Qed.

Lemma merge_rel_rows_settles sets t rows g sd :
  NoDup (map fst sets) -> sd ∈ rows ->
  settled sets t sd.1 sd.2 (merge_rel_rows t sets rows g).
Proof.
  intros Hn. revert g.
  induction rows as [|x rows IH]; intros g Hin; [inversion Hin|].
  apply elem_of_cons in Hin as [->|Hin].
  - apply (settled_merge_rel_rows sets t x.1 x.2 t rows
             (merge_rel t x.1 x.2 sets g) Hn).
    now apply settled_merge_rel_here.
  - apply (IH (merge_rel t x.1 x.2 sets g) Hin).
Qed.

Lemma merge_rel_rows_fixed sets t rows g :
  (forall sd, sd ∈ rows -> settled sets t sd.1 sd.2 g) ->
  merge_rel_rows t sets rows g = g.
Proof.
  unfold merge_rel_rows.
  induction rows as [|x rows IH]; intros H; simpl; [reflexivity|].
  rewrite merge_rel_settled by (apply H; now left).
  apply IH. intros sd Hsd. apply H. now right.
Qed.

Lemma pair_load_idem t sets la ka ida lb kb idb g :
  NoDup (map fst sets) ->
  merge_rel_rows t sets
    (match_pair (merge_rel_rows t sets (match_pair g la ka ida lb kb idb) g)
       la ka ida lb kb idb)
    (merge_rel_rows t sets (match_pair g la ka ida lb kb idb) g)
  = merge_rel_rows t sets (match_pair g la ka ida lb kb idb) g.
Proof.
  intros Hn.
  rewrite (match_pair_nodes g) by apply nodes_merge_rel_rows.
  apply merge_rel_rows_fixed. intros sd Hsd.
  now apply merge_rel_rows_settles.
Qed.

(** X13: loading the same contract, goal or card a second time leaves the
    graph exactly as the first load left it; so does the contract
    statement of the Kaggle player loader. *)
Theorem relationship_loads_are_idempotent g :
  (forall x, load_player_contract x (load_player_contract x g)
             = load_player_contract x g)
  /\ (forall x, load_goal x (load_goal x g) = load_goal x g)
  /\ (forall x, load_card x (load_card x g) = load_card x g)
  /\ (forall p t s, kaggle_contract_upsert p t s (kaggle_contract_upsert p t s g)
                    = kaggle_contract_upsert p t s g).
Proof.
  repeat split; intros.
  - unfold load_player_contract. apply pair_load_idem.
    simpl. repeat constructor; not_listed.
  - unfold load_goal. apply pair_load_idem.
    simpl. repeat constructor; not_listed.
  - unfold load_card. cbv zeta. apply pair_load_idem.
    simpl. repeat constructor; not_listed.
  - unfold kaggle_contract_upsert. apply pair_load_idem.
    simpl. repeat constructor; not_listed.
Qed.

Lemma nodes_merge_node_ext l k id sets g g' :
  nodes g = nodes g' ->
  nodes (merge_node l k id sets g) = nodes (merge_node l k id sets g').
Proof.
  intros H. unfold merge_node. rewrite H.
  now destruct (existsb _ _).
Qed.

(** A node upsert changes nothing in a graph whose nodes are those of a
    graph it was already applied to. *)
Lemma merge_node_fixed l k id sets g1 g :
  k ∉ map fst sets -> NoDup (map fst sets) ->
  nodes g = nodes (merge_node l k id sets g1) ->
  merge_node l k id sets g = g.
Proof.
  intros Hk Hn H. apply graph_eq; [|apply rels_merge_node].
  rewrite (nodes_merge_node_ext _ _ _ _ _ _ H).
  now rewrite merge_node_idem.
Qed.

Lemma match_nodes_nodes g g' l k id :
  nodes g' = nodes g -> match_nodes g' l k id = match_nodes g l k id.
Proof. unfold match_nodes. now intros ->. Qed.

(** Three merges over rows, all with the same [SET] list, change nothing
    when run again on their own result. *)
Lemma three_merges_fixed sets t1 t2 t3 rows1 rows2 rows3 g :
  NoDup (map fst sets) ->
  let u := merge_rel_rows t3 sets rows3
             (merge_rel_rows t2 sets rows2 (merge_rel_rows t1 sets rows1 g)) in
  merge_rel_rows t3 sets rows3
    (merge_rel_rows t2 sets rows2 (merge_rel_rows t1 sets rows1 u)) = u.
Proof.
  intros Hn u.
  rewrite (merge_rel_rows_fixed sets t1 rows1 u).
  2:{ intros sd Hsd. unfold u.
      apply settled_merge_rel_rows; [exact Hn|].
      apply settled_merge_rel_rows; [exact Hn|].
      now apply merge_rel_rows_settles. }
  rewrite (merge_rel_rows_fixed sets t2 rows2 u).
  2:{ intros sd Hsd. unfold u.
      apply settled_merge_rel_rows; [exact Hn|].
      now apply merge_rel_rows_settles. }
  apply merge_rel_rows_fixed.
  intros sd Hsd. unfold u. now apply merge_rel_rows_settles.
Qed.

Lemma match_upsert_idem match_id sets home away comp g :
  "match_id" ∉ map fst sets -> NoDup (map fst sets) ->
  match_upsert match_id sets home away comp
    (match_upsert match_id sets home away comp g)
  = match_upsert match_id sets home away comp g.
Proof.
  intros Hk Hn.
  set (u := match_upsert match_id sets home away comp g).
  assert (Hu : nodes u
               = nodes (merge_node LMatch "match_id" match_id sets g)).
  { unfold u, match_upsert. cbv zeta. now rewrite !nodes_merge_rel_rows. }
  unfold match_upsert at 1. cbv zeta.
  rewrite (merge_node_fixed _ _ _ _ g u Hk Hn Hu).
  rewrite !(match_nodes_nodes _ u _ _ _ Hu).
  unfold u, match_upsert. cbv zeta.
  apply (three_merges_fixed []). constructor.
Qed.

Lemma kaggle_brf_match_upsert_idem row g :
  kaggle_brf_match_upsert row (kaggle_brf_match_upsert row g)
  = kaggle_brf_match_upsert row g.
Proof.
  set (u := kaggle_brf_match_upsert row g).
  set (sets := [ ("date", VStr (isoformat (KaggleBrfMatch.date row)));
                 ("home_score", VInt (KaggleBrfMatch.home_score row));
                 ("away_score", VInt (KaggleBrfMatch.away_score row));
                 ("home_corners", opt_int (KaggleBrfMatch.home_corners row));
                 ("away_corners", opt_int (KaggleBrfMatch.away_corners row));
                 ("home_shots", opt_int (KaggleBrfMatch.home_shots row));
                 ("away_shots", opt_int (KaggleBrfMatch.away_shots row)) ]).
  assert (Hk : "match_id" ∉ map fst sets) by not_listed.
  assert (Hn : NoDup (map fst sets)) by (simpl; repeat constructor; not_listed).
  assert (Hu : nodes u
               = nodes (merge_node LMatch "match_id"
                          (KaggleBrfMatch.match_id row) sets g)).
  { unfold u, kaggle_brf_match_upsert. cbv zeta.
    now rewrite !nodes_merge_rel_rows. }
  unfold kaggle_brf_match_upsert at 1. cbv zeta. fold sets.
  rewrite (merge_node_fixed _ _ _ _ g u Hk Hn Hu).
  rewrite !(match_nodes_nodes _ u _ _ _ Hu).
  unfold u, kaggle_brf_match_upsert. cbv zeta. fold sets.
  apply (three_merges_fixed []). constructor.
Qed.

(** X14: loading the same match a second time leaves the graph exactly as
    the first load left it; so do the two match statements of the Kaggle
    loader. *)
Theorem match_loads_are_idempotent g :
  (forall x, load_match x (load_match x g) = load_match x g)
  /\ (forall x, kaggle_match_upsert x (kaggle_match_upsert x g)
                = kaggle_match_upsert x g)
  /\ (forall x, kaggle_brf_match_upsert x (kaggle_brf_match_upsert x g)
                = kaggle_brf_match_upsert x g).
Proof.
  repeat split; intros x.
  - unfold load_match. apply match_upsert_idem;
      [not_listed|simpl; repeat constructor; not_listed].
  - unfold kaggle_match_upsert. apply match_upsert_idem;
      [not_listed|simpl; repeat constructor; not_listed].
  - apply kaggle_brf_match_upsert_idem.
Qed.

(** ** Searching teams and players *)

Lemma each_some_inv {A B} (l : list A) (f : A -> option (list B)) rows x :
  each l f = Some rows -> x ∈ l -> exists ys, f x = Some ys.
Proof.
  revert rows. induction l as [|x' l IH]; intros rows E Hx; [inversion Hx|].
  simpl in E. destruct (f x') as [ys|] eqn:Ex; [|discriminate].
  destruct (each l f) as [zs|]; [|discriminate].
  apply elem_of_cons in Hx as [->|Hx]; [eauto|].
  apply (IH zs eq_refl Hx).
Qed.

Lemma each_elem_of {A B} (l : list A) (f : A -> option (list B)) rows x ys y :
  each l f = Some rows -> x ∈ l -> f x = Some ys -> y ∈ ys -> y ∈ rows.
Proof.
  revert rows. induction l as [|x' l IH]; intros rows E Hx Hf Hy; [inversion Hx|].
  simpl in E. destruct (f x') as [ys'|] eqn:Ex; [|discriminate].
  destruct (each l f) as [zs|]; [|discriminate].
  simpl in E. injection E as <-. apply elem_of_app.
  apply elem_of_cons in Hx as [->|Hx].
  - left. congruence.
  - right. apply (IH zs eq_refl Hx Hf Hy).
Qed.

Lemma holds_true p : holds p = true -> p = Some true.
Proof. destruct p as [[]|]; simpl; congruence. Qed.

Section Searches.
Context {folding : CaseFolding}.

Lemma contains_ci_some a pat :
  (exists c, cy_contains_ci a (VStr pat) = Some c) <-> text_or_absent a.
Proof.
  split; [|apply contains_ci_text].
  intros [c E]. destruct a as [|n|s|d]; simpl in E; try discriminate.
  - now left.
  - right. eauto.
Qed.

(** X15: [search_team] raises exactly when the name of some team is
    neither text nor absent, whatever is searched for: [toLower] is run on
    the name of every team. *)
Theorem search_team_raises_on_a_name_that_is_not_text g name :
  search_team g name <> Raised <-> texts g LTeam "name".
Proof.
  unfold search_team, search_team_query. split.
  - intros Hr t Ht.
    destruct (each (nodes_with g LTeam) _) as [rows|] eqn:E;
      [|now destruct Hr].
    destruct (each_some_inv _ _ _ _ E Ht) as [ys Hys].
    apply (contains_ci_some _ name).
    destruct (cy_contains_ci _ _) as [c|]; [eauto|discriminate].
  - intros Ht.
    destruct (each_some (nodes_with g LTeam) (fun t =>
                c ← cy_contains_ci (prop (nprops t.2) "name") (VStr name);
                Some (if holds c then [team_row_of t.2] else [])))
      as [rows ->].
    { intros t Hin. destruct (contains_ci_text _ name (Ht t Hin)) as [c ->].
      simpl. eauto. }
    destruct rows; discriminate.
Qed.

(** X16: when [search_team] reports teams, it lists exactly the teams whose
    name contains the name searched for, both taken through [toLower]. *)
Theorem search_team_lists_the_matching_teams g name rows :
  search_team g name = Found rows ->
  forall row,
    row ∈ rows
    <-> exists t s,
          t ∈ nodes_with g LTeam /\ row = team_row_of t.2
          /\ prop (nprops t.2) "name" = VStr s
          /\ contains (toLower s) (toLower name) = true.
Proof.
  unfold search_team, search_team_query.
  destruct (each (nodes_with g LTeam) _) as [[|r0 rest]|] eqn:E;
    try discriminate.
  intros [= <-] row. split.
  - intros Hrow.
    destruct (each_elem _ _ _ _ E Hrow) as (t & ys & Ht & Hf & Hin).
    destruct (cy_contains_ci _ _) as [c|] eqn:Ec; [|discriminate].
    simpl in Hf. injection Hf as <-.
    destruct c as [[]|]; simpl in Hin; try (inversion Hin; fail).
    apply list_elem_of_singleton in Hin.
    destruct (contains_ci_true _ _ Ec) as (s & Hs & Hc).
    exists t, s. auto.
  - intros (t & s & Ht & -> & Hs & Hc).
    apply (each_elem_of _ _ _ t [team_row_of t.2] _ E Ht); [|now left].
    rewrite Hs. simpl. now rewrite Hc.
Qed.

(** X17: when [search_player] reports players, the name of every player
    listed contains the name searched for; when a position was given, the
    player's position is that position; when a team was given, every team
    listed for the player has a name that contains it (names and positions
    taken through [toLower]). *)
Theorem search_player_rows_pass_the_filters g name team position rows :
  search_player g name team position = Found rows ->
  forall row, row ∈ rows ->
    (exists s, p_name row = VStr s
               /\ contains (toLower s) (toLower name) = true)
    /\ (forall pos, given position = Some pos ->
          exists s, p_position row = VStr s /\ toLower s = toLower pos)
    /\ (forall tm, given team = Some tm ->
          forall v, v ∈ p_teams row ->
            exists s, v = VStr s
                      /\ contains (toLower s) (toLower tm) = true).
Proof.
  unfold search_player.
  destruct (search_player_query g name team position) as [[|r0 rest]|] eqn:E;
    try discriminate.
  destruct (forallb _ _); [|discriminate].
  intros [= <-]. unfold search_player_query in E. cbv zeta in E.
  destruct (each (nodes_with g LPlayer) _) as [rows0|] eqn:E0; [|discriminate].
  simpl in E. injection E as E. rewrite <- E. clear E r0 rest.
  (* what every row of the query says *)
  assert (Hspec : forall kv, kv ∈ rows0 ->
            (exists s, kv.1.1.1.1.2 = VStr s
                       /\ contains (toLower s) (toLower name) = true)
            /\ (forall pos, given position = Some pos ->
                  exists s, kv.1.1.2 = VStr s /\ toLower s = toLower pos)
            /\ (forall tm, given team = Some tm ->
                  kv.2 = VNull
                  \/ exists s, kv.2 = VStr s
                               /\ contains (toLower s) (toLower tm) = true)).
  { intros kv Hkv.
    destruct (each_elem _ _ _ _ E0 Hkv) as (p & ys & _ & Hf & Hin).
    destruct (given team) as [tm|] eqn:Eteam.
    - destruct (cy_contains_ci (prop (nprops p.2) "name") (VStr name))
        as [c|] eqn:Ec; [|discriminate].
      simpl in Hf. destruct (holds c) eqn:Hc;
        [|injection Hf as <-; inversion Hin].
      apply holds_true in Hc. subst c.
      destruct (each_elem _ _ _ _ Hf Hin) as (r & ys1 & _ & Hf1 & Hin1).
      destruct (each_elem _ _ _ _ Hf1 Hin1) as (t & ys2 & _ & Hf2 & Hin2).
      destruct (position_filter position p.2 _) as [c'|] eqn:Ec';
        [|discriminate].
      simpl in Hf2. injection Hf2 as <-.
      destruct (holds c') eqn:Hc'; [|inversion Hin2].
      destruct (position_filter_true _ _ _ _ Ec' Hc') as [Hteam Hpos].
      assert (Hkey : kv.1 = (prop (nprops p.2) "player_id",
                             prop (nprops p.2) "name",
                             prop (nprops p.2) "nationality",
                             prop (nprops p.2) "position",
                             prop (nprops p.2) "birth_date")
                     /\ (kv.2 = VNull \/ kv.2 = prop (nprops t.2) "name")).
      { destruct (List.filter _ _) as [|x xs].
        - apply list_elem_of_singleton in Hin2. subst kv. auto.
        - apply elem_of_cons in Hin2 as [->|Hin2]; [auto|].
          apply elem_of_map in Hin2 as (? & -> & _). auto. }
      destruct Hkey as [Hk Hv]. rewrite Hk. simpl.
      split; [now apply contains_ci_true|].
      split; [exact Hpos|].
      intros tm' [= <-]. destruct Hv as [Hv|Hv]; [now left|].
      right. rewrite Hv. now apply contains_ci_true.
    - destruct (position_filter position p.2 _) as [c|] eqn:Ec;
        [|discriminate].
      simpl in Hf. injection Hf as <-.
      destruct (holds c) eqn:Hc; [|inversion Hin].
      destruct (position_filter_true _ _ _ _ Ec Hc) as [Hname Hpos].
      assert (Hkey : kv.1 = (prop (nprops p.2) "player_id",
                             prop (nprops p.2) "name",
                             prop (nprops p.2) "nationality",
                             prop (nprops p.2) "position",
                             prop (nprops p.2) "birth_date")).
      { destruct (teams_of g p.1) as [|x xs].
        - apply list_elem_of_singleton in Hin. now subst kv.
        - apply elem_of_cons in Hin as [->|Hin]; [reflexivity|].
          apply elem_of_map in Hin as (? & -> & _). reflexivity. }
      rewrite Hkey. simpl.
      split; [now apply contains_ci_true|].
      split; [exact Hpos|]. discriminate. }
  intros row Hrow. apply elem_of_map in Hrow as (kv & -> & Hkv). simpl.
  assert (Hfst : kv.1 ∈ map fst rows0).
  { rewrite <- (elem_of_remove_dups (map fst rows0)), <- group_by_keys.
    apply elem_of_map. eauto. }
  apply elem_of_map in Hfst as (kv0 & Hk0 & Hkv0).
  destruct (Hspec kv0 Hkv0) as (Hn & Hp & _). rewrite Hk0.
  split; [exact Hn|]. split; [exact Hp|].
  intros tm Htm v Hv. unfold collect_distinct in Hv.
  rewrite elem_of_remove_dups in Hv.
  apply elem_of_filter_bool in Hv as [Hv Hnull].
  pose proof (elem_of_group_by _ _ _ Hkv Hv) as Hin.
  destruct (Hspec _ Hin) as (_ & _ & Ht). simpl in Ht.
  destruct (Ht tm Htm) as [->|Hs]; [discriminate|exact Hs].
Qed.

End Searches.

Lemma search_team_lists_the_matching_teams_witness :
  exists rows,
    @search_team latin_folding sample_graph "SÃO" = Found rows
    /\ forall row,
         row ∈ rows
         <-> exists t s,
               t ∈ nodes_with sample_graph LTeam /\ row = team_row_of t.2
               /\ prop (nprops t.2) "name" = VStr s
               /\ contains (lower s) (lower "SÃO") = true.
Proof.
  assert (E : exists rows,
             @search_team latin_folding sample_graph "SÃO" = Found rows).
  { vm_compute. eauto. }
  destruct E as [rows E]. exists rows. split; [exact E|].
  exact (@search_team_lists_the_matching_teams latin_folding sample_graph
           "SÃO" rows E).
Defined.

Lemma search_player_rows_pass_the_filters_witness :
  exists rows,
    @search_player latin_folding sample_graph "gab" (Some "FLA") (Some "FORWARD")
    = Found rows
    /\ forall row, row ∈ rows ->
         (exists s, p_name row = VStr s
                    /\ contains (lower s) (lower "gab") = true)
         /\ (forall pos, given (Some "FORWARD") = Some pos ->
               exists s, p_position row = VStr s /\ lower s = lower pos)
         /\ (forall tm, given (Some "FLA") = Some tm ->
               forall v, v ∈ p_teams row ->
                 exists s, v = VStr s
                           /\ contains (lower s) (lower tm) = true).
Proof.
  assert (E : exists rows,
             @search_player latin_folding sample_graph
               "gab" (Some "FLA") (Some "FORWARD") = Found rows).
  { vm_compute. eauto. }
  destruct E as [rows E]. exists rows. split; [exact E|].
  exact (@search_player_rows_pass_the_filters latin_folding sample_graph
           "gab" (Some "FLA") (Some "FORWARD") rows E).
Defined.

(** ** Searches that cannot fail *)

Section SearchesAnswer.
Context {folding : CaseFolding}.

Lemma search_player_query_answers g name team position :
  texts g LPlayer "name" -> texts g LPlayer "position" -> texts g LTeam "name" ->
  exists rows0,
    each (nodes_with g LPlayer) (fun p =>
      let key (p : node) :=
        (prop (nprops p) "player_id", prop (nprops p) "name",
         prop (nprops p) "nationality", prop (nprops p) "position",
         prop (nprops p) "birth_date") in
      let named := cy_contains_ci (prop (nprops p.2) "name") (VStr name) in
      match given team with
      | Some tm =>
          c ← named;
          if holds c then
            each (out_rels g PLAYS_FOR p.1) (fun r =>
            each (labelled g LTeam (rdst r.2)) (fun t =>
              c' ← position_filter position p.2
                     (cy_contains_ci (prop (nprops t.2) "name") (VStr tm));
              Some
                (if holds c' then
                   match List.filter (fun r' => (rdst r'.2 =? t.1)%nat)
                                     (out_rels g PLAYS_FOR p.1) with
                   | [] => [(key p.2, VNull)]
                   | rs => map (fun _ => (key p.2, prop (nprops t.2) "name")) rs
                   end
                 else [])))
          else Some []
      | None =>
          c ← position_filter position p.2 named;
          Some
            (if holds c then
               match teams_of g p.1 with
               | [] => [(key p.2, VNull)]
               | ts => map (fun t => (key p.2, prop (nprops t.2) "name")) ts
               end
             else [])
      end) = Some rows0
    /\ forall kv, kv ∈ rows0 -> text_or_absent kv.2.
Proof.
  intros Hname Hpos Hteam.
  match goal with |- exists rows0, each ?l ?f = _ /\ _ =>
    destruct (each_some l f) as [rows0 E]
  end.
  { intros p Hp. cbv zeta.
    destruct (contains_ci_text _ name (Hname p Hp)) as [c Ec].
    destruct (given team) as [tm|].
    - rewrite Ec. simpl. destruct (holds c); [|eauto].
      apply each_some. intros r _. apply each_some. intros t Ht.
      destruct (contains_ci_text _ tm
                  (Hteam t (labelled_nodes_with _ _ _ _ Ht))) as [c1 ->].
      destruct (position_filter_some position p.2 c1 (Hpos p Hp)) as [c' ->].
      simpl. eauto.
    - rewrite Ec.
      destruct (position_filter_some position p.2 c (Hpos p Hp)) as [c' ->].
      simpl. eauto. }
  exists rows0. split; [exact E|].
  intros kv Hkv.
  destruct (each_elem _ _ _ _ E Hkv) as (p & ys & _ & Hf & Hin).
  cbv zeta in Hf.
  destruct (given team) as [tm|].
  - destruct (cy_contains_ci (prop (nprops p.2) "name") (VStr name))
      as [c|]; [|discriminate].
    simpl in Hf. destruct (holds c); [|injection Hf as <-; inversion Hin].
    destruct (each_elem _ _ _ _ Hf Hin) as (r & ys1 & _ & Hf1 & Hin1).
    destruct (each_elem _ _ _ _ Hf1 Hin1) as (t & ys2 & Ht & Hf2 & Hin2).
    destruct (position_filter position p.2 _) as [c'|]; [|discriminate].
    simpl in Hf2. injection Hf2 as <-.
    destruct (holds c'); [|inversion Hin2].
    pose proof (Hteam t (labelled_nodes_with _ _ _ _ Ht)) as Htext.
    destruct (List.filter _ _) as [|x xs].
    + apply list_elem_of_singleton in Hin2. subst kv. now left.
    + apply elem_of_cons in Hin2 as [->|Hin2]; [exact Htext|].
      apply elem_of_map in Hin2 as (? & -> & _). exact Htext.
  - destruct (position_filter position p.2 _) as [c|]; [|discriminate].
    simpl in Hf. injection Hf as <-.
    destruct (holds c); [|inversion Hin].
    destruct (teams_of g p.1) as [|x xs] eqn:Et.
    + apply list_elem_of_singleton in Hin. subst kv. now left.
    + assert (Hts : forall t, t ∈ x :: xs ->
                text_or_absent (prop (nprops t.2) "name")).
      { intros t Ht. rewrite <- Et in Ht. unfold teams_of in Ht.
        apply list_elem_of_bind in Ht as (r & Ht & _).
        apply (Hteam t (labelled_nodes_with _ _ _ _ Ht)). }
      apply elem_of_cons in Hin as [->|Hin]; [apply Hts; now left|].
      apply elem_of_map in Hin as (t & -> & Ht). apply Hts. now right.
Qed.

Lemma search_matches_query_answers g team date_from date_to competition :
  texts g LTeam "name" -> texts g LCompetition "name" ->
  exists rows, search_matches_query g team date_from date_to competition
               = Some rows.
Proof.
  intros Hteam Hcomp. unfold search_matches_query.
  match goal with |- exists rows, (each ?l ?f ≫= _) = _ =>
    destruct (each_some l f) as [rows0 ->]
  end; [|simpl; eauto].
  intros m _. apply each_some. intros ha Hha.
  apply each_some. intros po _. apply each_some. intros c Hc.
  apply elem_of_home_away in Hha as [[i Hi] [j Hj]].
  destruct (when_given_some team (fun tm =>
              q_or (cy_contains_ci (prop (nprops ha.1) "name") (VStr tm))
                   (cy_contains_ci (prop (nprops ha.2) "name") (VStr tm))))
    as [a ->].
  { intros tm.
    destruct (contains_ci_text _ tm (Hteam _ Hi)) as [c1 E1].
    destruct (contains_ci_text _ tm (Hteam _ Hj)) as [c2 E2].
    simpl in E1, E2. rewrite E1, E2, q_or_Some. eauto. }
  destruct (when_given_some date_from (fun d =>
              Some (cy_ge (prop (nprops m.2) "date") (VStr d)))) as [f ->];
    [eauto|].
  destruct (when_given_some date_to (fun d =>
              Some (cy_le (prop (nprops m.2) "date") (VStr d)))) as [t ->];
    [eauto|].
  destruct (when_given_some competition (fun cn =>
              cy_contains_ci (prop (nprops c.2) "name") (VStr cn))) as [k ->].
  { intros cn. apply contains_ci_text.
    apply (Hcomp c). eapply labelled_nodes_with; eauto. }
  rewrite !q_and_Some. simpl. eauto.
Qed.

(** X18: on a graph in which the names of the teams are text or absent,
    [search_matches] does not raise when the names of the competitions
    are so too, and [search_player] does not raise when the names and the
    positions of the players are. *)
Theorem searches_answer_when_names_are_text g :
  texts g LTeam "name" ->
  (texts g LCompetition "name" ->
   forall team date_from date_to competition,
     search_matches g team date_from date_to competition <> Raised)
  /\ (texts g LPlayer "name" -> texts g LPlayer "position" ->
      forall name team position,
        search_player g name team position <> Raised).
Proof.
  intros Hteam. split.
  - intros Hcomp team date_from date_to competition. unfold search_matches.
    destruct (search_matches_query_answers g team date_from date_to competition
                Hteam Hcomp) as [rows ->].
    destruct rows; discriminate.
  - intros Hname Hpos name team position.
    unfold search_player, search_player_query. cbv zeta.
    destruct (search_player_query_answers g name team position Hname Hpos Hteam)
      as (rows0 & E & Hvals).
    cbv zeta in E. rewrite E. simpl.
    destruct (map _ (group_by rows0)) as [|r0 rest] eqn:Em; [discriminate|].
    rewrite <- Em.
    replace (forallb _ _) with true; [discriminate|].
    symmetry. apply forallb_forall. intros row Hrow.
    apply list_elem_of_In, elem_of_map in Hrow as (kv & -> & Hkv). simpl.
    apply forallb_forall. intros v Hv. apply list_elem_of_In in Hv.
    unfold collect_distinct in Hv. rewrite elem_of_remove_dups in Hv.
    apply elem_of_filter_bool in Hv as [Hv Hnull].
    pose proof (elem_of_group_by _ _ _ Hkv Hv) as Hin.
    destruct (Hvals _ Hin) as [E0|[s E0]]; simpl in E0; rewrite E0 in *;
      [discriminate|reflexivity].
Qed.

End SearchesAnswer.

Lemma searches_answer_when_names_are_text_witness :
  (forall team date_from date_to competition,
     @search_matches latin_folding sample_graph team date_from date_to competition
     <> Raised)
  /\ (forall name team position,
        @search_player latin_folding sample_graph name team position <> Raised).
Proof.
  destruct (@searches_answer_when_names_are_text latin_folding sample_graph)
    as [Hm Hp].
  - apply texts_test. vm_compute. reflexivity.
  - split.
    + apply Hm. apply texts_test. vm_compute. reflexivity.
    + apply Hp; apply texts_test; vm_compute; reflexivity.
Defined.
